(** * fe-api-proxy: a shallow embedding of the document-to-client pipeline

    The development follows the layout of the TypeScript sources:

    - [Js]         raw JSON documents as the adapters see them: values,
                   truthiness, property access, spread and assignment;
    - [Str]        the string and regular-expression operations in use;
    - [Merge]      [merge.ts]: [mergeDocuments] and the OpenAPI deep merge;
    - [Convert]    [schema.ts]: [jsonSchemaToSchema];
    - [Fetch]      [fetch.ts]: [fetchApiDocumentation] over its I/O primitives;
    - [Types]      [types.ts]: the unified service model;
    - [Path]       the [node:path] operations the generator imports;
    - [Generator]  [generator.ts]: path slugs, file names, the bundle;
    - [Invoke]     the invoke stage, and the selection of the primary
                   document in [pipeline/index.ts];
    - [Normalizer] the normalizer stage over an explicit object store.

    Part I holds the definitions, Part II the theorems about them. *)

From Stdlib Require Import String Ascii List ZArith Lia Bool.
From stdpp Require Import base option list strings gmap.

Open Scope string_scope.
Open Scope list_scope.

(** * Part I: definitions *)

(** ** Exceptions

    A JavaScript computation either returns a value or throws.  [Throw]
    carries the thrown [Error]: its constructor name and its message. *)

Inductive error : Type :=
| TypeError (message : string)
| Error (message : string).

Inductive result (A : Type) : Type :=
| Ok (a : A)
| Throw (e : error).

Arguments Ok {A} a.
Arguments Throw {A} e.

Definition bindR {A B} (m : result A) (k : A → result B) : result B :=
  match m with
  | Ok a => k a
  | Throw e => Throw e
  end.

Notation "'let!' x ':=' m 'in' k" := (bindR m (fun x => k))
  (at level 10, x pattern, m at level 100, k at level 200).

(** [Array.prototype.map] with a callback that may throw: elements are
    visited left to right and the first exception aborts the traversal. *)
Fixpoint mapR {A B} (f : A → result B) (l : list A) : result (list B) :=
  match l with
  | [] => Ok []
  | x :: xs => let! y := f x in let! ys := mapR f xs in Ok (y :: ys)
  end.

(** [Array.prototype.filter] with a predicate that may throw. *)
Fixpoint filterR {A} (p : A → result bool) (l : list A) : result (list A) :=
  match l with
  | [] => Ok []
  | x :: xs => let! b := p x in let! ys := filterR p xs in Ok (if b then x :: ys else ys)
  end.

(** [Array.prototype.every]: stops at the first element that fails. *)
Fixpoint everyR {A} (p : A → result bool) (l : list A) : result bool :=
  match l with
  | [] => Ok true
  | x :: xs => let! b := p x in if b then everyR p xs else Ok false
  end.

(** A [for ... of] loop whose body updates a state and may throw. *)
Fixpoint forOf {A S} (body : S → A → result S) (l : list A) (s : S) : result S :=
  match l with
  | [] => Ok s
  | x :: xs => let! s' := body s x in forOf body xs s'
  end.

(** ** Decimal rendering of array indices and counters ([String(n)]) *)

Definition digitChar (d : nat) : ascii := ascii_of_nat (48 + d).

Fixpoint natToDigits (fuel n : nat) (acc : string) : string :=
  match fuel with
  | O => acc
  | S fuel' =>
      let acc' := String (digitChar (n mod 10)) acc in
      if (n / 10 =? 0)%nat then acc' else natToDigits fuel' (n / 10) acc'
  end.

Definition natToString (n : nat) : string := natToDigits (S n) n "".

(** ** Raw documents: JavaScript values

    Documents reach the adapters as parsed JSON, so a raw value is [undefined],
    [null], a boolean, a number, a string, an array or a plain object.  An
    object keeps its properties in insertion order, which is the order
    [Object.keys], [Object.entries] and spread enumerate them in.  Numbers are
    integers here: the code under study only tests numbers for truthiness and
    for [typeof], never computes with them.  Characters are code units in the
    ASCII range, and property names are ordinary names: integer-like keys are
    not moved to the front of an object, and [__proto__] is a key like any
    other. *)

Module Js.

#[warnings="-register-all"]
Inductive value : Type :=
| VUndefined
| VNull
| VBool (b : bool)
| VNum (n : Z)
| VStr (s : string)
| VArr (items : list value)
| VObj (fields : list (string * value)).

Definition object : Type := list (string * value).

(** [!!v] *)
Definition truthy (v : value) : bool :=
  match v with
  | VUndefined | VNull => false
  | VBool b => b
  | VNum n => negb (n =? 0)%Z
  | VStr s => negb (String.eqb s "")
  | VArr _ | VObj _ => true
  end.

(** [typeof v === 'object'] (true of [null] and of arrays as well) *)
Definition typeofObject (v : value) : bool :=
  match v with
  | VNull | VArr _ | VObj _ => true
  | _ => false
  end.

Definition isArray (v : value) : bool :=
  match v with VArr _ => true | _ => false end.

(** [a ?? b] *)
Definition nullish (v : value) : bool :=
  match v with VUndefined | VNull => true | _ => false end.

Definition coalesce (a b : value) : value := if nullish a then b else a.

(** [a || b] *)
Definition orElse (a b : value) : value := if truthy a then a else b.

(** Strict equality on the values compared by the code (primitives; two
    distinct object or array references are never [===]). *)
Definition strictEq (a b : value) : bool :=
  match a, b with
  | VUndefined, VUndefined | VNull, VNull => true
  | VBool x, VBool y => Bool.eqb x y
  | VNum x, VNum y => (x =? y)%Z
  | VStr x, VStr y => String.eqb x y
  | _, _ => false
  end.

Fixpoint lookupField (k : string) (fs : object) : option value :=
  match fs with
  | [] => None
  | (k', v) :: rest => if String.eqb k k' then Some v else lookupField k rest
  end.

Definition hasField (k : string) (fs : object) : bool :=
  match lookupField k fs with Some _ => true | None => false end.

(** [o[k] = v] on a plain object: an existing key keeps its position, a new
    key is appended.  The same rule governs [Map.prototype.set]. *)
Fixpoint setField (k : string) (v : value) (fs : object) : object :=
  match fs with
  | [] => [(k, v)]
  | (k', v') :: rest =>
      if String.eqb k k' then (k, v) :: rest else (k', v') :: setField k v rest
  end.

(** [Object.assign(target, ...entries)] / the tail of an object literal. *)
Definition assignAll (target : object) (entries : object) : object :=
  fold_left (fun acc kv => setField (fst kv) (snd kv) acc) entries target.

Fixpoint indexed (i : nat) (l : list value) : object :=
  match l with
  | [] => []
  | x :: xs => (natToString i, x) :: indexed (S i) xs
  end.

Fixpoint chars (i : nat) (s : string) : object :=
  match s with
  | EmptyString => []
  | String c rest => (natToString i, VStr (String c EmptyString)) :: chars (S i) rest
  end.

(** The own enumerable string-keyed properties of a value that is neither
    [null] nor [undefined]: what [{...v}] copies and [Object.keys(v)] lists. *)
Definition ownEntries (v : value) : object :=
  match v with
  | VObj fs => fs
  | VArr l => indexed 0 l
  | VStr s => chars 0 s
  | _ => []
  end.

(** [{...v}]: spreading [null] or [undefined] copies nothing and does not
    throw. *)
Definition spread (v : value) : object := assignAll [] (ownEntries v).

(** [Object.entries(v)]: a [TypeError] on [null] and [undefined]. *)
Definition objectEntries (v : value) : result object :=
  if nullish v
  then Throw (TypeError "Cannot convert undefined or null to object")
  else Ok (ownEntries v).

(** [v.k] for a property name [k] that is not an array index, not [length]
    and not a method of a built-in prototype; every name the modelled code
    reads is of that kind.  Reading a property of [null] or [undefined]
    throws. *)
Definition getProp (v : value) (k : string) : result value :=
  match v with
  | VUndefined | VNull => Throw (TypeError "Cannot read properties of undefined")
  | VObj fs => Ok (default VUndefined (lookupField k fs))
  | _ => Ok VUndefined
  end.

(** [v?.k] *)
Definition getOpt (v : value) (k : string) : value :=
  match v with
  | VObj fs => default VUndefined (lookupField k fs)
  | _ => VUndefined
  end.

(** [k in v]: a [TypeError] when [v] is a primitive. *)
Definition inOp (k : string) (v : value) : result bool :=
  match v with
  | VObj fs => Ok (hasField k fs)
  | VArr _ => Ok false
  | _ => Throw (TypeError "Cannot use 'in' operator to search for a key in a primitive")
  end.

(** [v[0]] on a value that is neither [null] nor [undefined]. *)
Definition index0 (v : value) : value :=
  match v with
  | VArr (x :: _) => x
  | VStr (String c _) => VStr (String c EmptyString)
  | VObj fs => default VUndefined (lookupField "0" fs)
  | _ => VUndefined
  end.

End Js.

(** ** Strings: the [String.prototype] and [RegExp] operations the code uses *)

Module Str.

Definition nl : string := String (ascii_of_nat 10) EmptyString.
Definition dquote : string := String (ascii_of_nat 34) EmptyString.
Definition backslash : string := String (ascii_of_nat 92) EmptyString.

Definition code (c : ascii) : nat := nat_of_ascii c.

Definition isDigit (c : ascii) : bool := (48 <=? code c)%nat && (code c <=? 57)%nat.
Definition isUpper (c : ascii) : bool := (65 <=? code c)%nat && (code c <=? 90)%nat.
Definition isLower (c : ascii) : bool := (97 <=? code c)%nat && (code c <=? 122)%nat.
Definition isAlnum (c : ascii) : bool := isDigit c || isUpper c || isLower c.

(** [\s] and the characters [trim] strips, within ASCII. *)
Definition isSpace (c : ascii) : bool :=
  ((9 <=? code c)%nat && (code c <=? 13)%nat) || (code c =? 32)%nat.

Definition toUpperChar (c : ascii) : ascii :=
  if isLower c then ascii_of_nat (code c - 32) else c.
Definition toLowerChar (c : ascii) : ascii :=
  if isUpper c then ascii_of_nat (code c + 32) else c.

Fixpoint mapChars (f : ascii → ascii) (s : string) : string :=
  match s with
  | EmptyString => EmptyString
  | String c rest => String (f c) (mapChars f rest)
  end.

Definition toLowerCase : string → string := mapChars toLowerChar.
Definition toUpperCase : string → string := mapChars toUpperChar.

Definition isEmpty (s : string) : bool :=
  match s with EmptyString => true | _ => false end.

(** [Boolean(s)] for a string *)
Definition nonEmpty (s : string) : bool := negb (isEmpty s).

Definition join (sep : string) (parts : list string) : string := String.concat sep parts.

Fixpoint repeat (s : string) (n : nat) : string :=
  match n with
  | O => EmptyString
  | S n' => s +:+ repeat s n'
  end.

Definition startsWith (s prefix : string) : bool := String.prefix prefix s.

Fixpoint includes (s needle : string) : bool :=
  String.prefix needle s ||
  match s with
  | EmptyString => false
  | String _ rest => includes rest needle
  end.

Definition rev (s : string) : string :=
  (fix go (s acc : string) : string :=
     match s with
     | EmptyString => acc
     | String c rest => go rest (String c acc)
     end) s EmptyString.

Definition endsWith (s suffix : string) : bool := String.prefix (rev suffix) (rev s).

(** [s.replace(/^C+/, '')]: drops the leading run of characters in class [p]. *)
Fixpoint dropWhile (p : ascii → bool) (s : string) : string :=
  match s with
  | EmptyString => EmptyString
  | String c rest => if p c then dropWhile p rest else s
  end.

Fixpoint takeWhile (p : ascii → bool) (s : string) : string :=
  match s with
  | EmptyString => EmptyString
  | String c rest => if p c then String c (takeWhile p rest) else EmptyString
  end.

(** [s.replace(/C+$/, '')] *)
Definition dropWhileEnd (p : ascii → bool) (s : string) : string :=
  rev (dropWhile p (rev s)).

Definition trim (s : string) : string := dropWhileEnd isSpace (dropWhile isSpace s).

(** [s.replace(/\.ts$/, '')] *)
Definition stripTsSuffix (s : string) : string :=
  if endsWith s ".ts" then rev (String.substring 3 (String.length s - 3) (rev s)) else s.

(** [s.split(c)] for a one-character separator: the pieces between
    consecutive separators, empty pieces included. *)
Fixpoint splitChar (sep : ascii) (s : string) : list string :=
  match s with
  | EmptyString => [EmptyString]
  | String c rest =>
      if Ascii.eqb c sep then EmptyString :: splitChar sep rest
      else match splitChar sep rest with
           | [] => [String c EmptyString]
           | piece :: pieces => String c piece :: pieces
           end
  end.

(** [s.split(/C+/)]: the pieces between maximal runs of characters in class
    [sep]; a run at either end leaves an empty piece there.  [inRun] records
    that the previous character belonged to a run. *)
Fixpoint splitRunsFrom (sep : ascii → bool) (inRun : bool) (s : string) : list string :=
  match s with
  | EmptyString => [EmptyString]
  | String c rest =>
      if sep c then
        if inRun then splitRunsFrom sep true rest
        else EmptyString :: splitRunsFrom sep true rest
      else match splitRunsFrom sep false rest with
           | [] => [String c EmptyString]
           | piece :: pieces => String c piece :: pieces
           end
  end.

Definition splitRuns (sep : ascii → bool) (s : string) : list string :=
  splitRunsFrom sep false s.

(** [s.replace(/C+/g, r)]: every maximal run of characters in class [p]
    becomes one copy of [r]. *)
Fixpoint replaceRunsFrom (p : ascii → bool) (r : string) (inRun : bool) (s : string)
  : string :=
  match s with
  | EmptyString => EmptyString
  | String c rest =>
      if p c then
        if inRun then replaceRunsFrom p r true rest
        else r +:+ replaceRunsFrom p r true rest
      else String c (replaceRunsFrom p r false rest)
  end.

Definition replaceRuns (p : ascii → bool) (r : string) (s : string) : string :=
  replaceRunsFrom p r false s.

(** [s.replace(/\n/g, r)] *)
Fixpoint replaceNewlines (r : string) (s : string) : string :=
  match s with
  | EmptyString => EmptyString
  | String c rest =>
      if (code c =? 10)%nat then r +:+ replaceNewlines r rest
      else String c (replaceNewlines r rest)
  end.

End Str.

(** ** [merge.ts]: collapsing several fetched documents into one payload *)

Module Merge.
Import Js.

(** [MergeStrategy]: one of the names ['auto'], ['swagger'], ['openapi'],
    ['json-array'], ['first'], or a caller-supplied function.  At run time the
    name is a string, and [mergeDocuments] switches on it with a [default]
    branch, so the name is kept as a string. *)
Inductive MergeStrategy : Type :=
| StrategyName (name : string)
| StrategyFn (fn : list value → result value).

(** [function isSwaggerLike(value)]:
    [!!value && typeof value === 'object' && 'paths' in value] *)
Definition isSwaggerLike (v : value) : result bool :=
  if truthy v && typeofObject v then inOp "paths" v else Ok false.

(** [export function detectMergeStrategy(documents)] *)
Definition detectMergeStrategy (documents : list value) : result string :=
  if (length documents =? 1)%nat then Ok "first"
  else
    let! all := everyR isSwaggerLike documents in
    if all then Ok "swagger" else Ok "json-array".

(** [function collectTags(target, source)] and [collectServers]: the two
    differ only in the property that keys the map ([name] / [url]). *)
Definition collectKeyed (key : string) (target : object) (source : value)
  : result object :=
  match source with
  | VArr items =>
      forOf (fun (target : object) (entry : value) =>
        if negb (truthy entry) || negb (typeofObject entry) then Ok target
        else
          let! present := inOp key entry in
          let! name := (if present then getProp entry key else Ok VUndefined) in
          match name with
          | VStr name =>
              match lookupField name target with
              | Some existing =>
                  if truthy existing
                  then Ok (setField name (VObj (assignAll (spread existing) (ownEntries entry))) target)
                  else Ok (setField name entry target)
              | None => Ok (setField name entry target)
              end
          | _ => Ok target
          end) items target
  | _ => Ok target
  end.

Definition collectTags := collectKeyed "name".
Definition collectServers := collectKeyed "url".

(** [function mergeComponentSection(target, source)] *)
Definition mergeComponentSection (target : object) (source : value)
  : result object :=
  if negb (truthy source) then Ok target
  else
    let! entries := objectEntries source in
    forOf (fun (target : object) (kv : string * value) =>
      let '(sectionKey, sectionValue) := kv in
      let current := default VUndefined (lookupField sectionKey target) in
      if truthy current && typeofObject current && negb (isArray current)
      then Ok (setField sectionKey
                 (VObj (assignAll (spread current) (ownEntries sectionValue))) target)
      else Ok (setField sectionKey sectionValue target)) entries target.

(** The state the loop over [rest] updates: the fresh [paths] and
    [components] objects that [merged] refers to, and the two maps. *)
Record mergeState : Type := MergeState {
  ms_paths : object;
  ms_components : object;
  ms_tagMap : object;
  ms_serverMap : object;
}.

(** The body of [for (const doc of rest)].  The assignment
    [merged.paths[pathKey] = ...] is [setField]: the key is updated or
    appended.  That is what the assignment does for every name but
    [__proto__], which is taken here as a key like any other (see [Js]). *)
Definition mergeOne (st : mergeState) (doc : value) : result mergeState :=
  let! docPaths := getProp doc "paths" in
  let! pathEntries := objectEntries (coalesce docPaths (VObj [])) in
  let paths :=
    fold_left (fun (paths : object) (kv : string * value) =>
      let '(pathKey, pathValue) := kv in
      let current := default VUndefined (lookupField pathKey paths) in
      setField pathKey
        (VObj (assignAll (spread (coalesce current (VObj []))) (ownEntries pathValue)))
        paths) pathEntries (ms_paths st) in
  let! docComponents := getProp doc "components" in
  let! components := mergeComponentSection (ms_components st) docComponents in
  let! docTags := getProp doc "tags" in
  let! tagMap := collectTags (ms_tagMap st) docTags in
  let! docServers := getProp doc "servers" in
  let! serverMap := collectServers (ms_serverMap st) docServers in
  Ok (MergeState paths components tagMap serverMap).

(** [function mergeSwaggerDocuments(documents)] *)
Definition mergeSwaggerDocuments (documents : list value) : result value :=
  let first := hd VUndefined documents in
  let rest := tl documents in
  let! firstPaths := getProp first "paths" in
  let! firstComponents := getProp first "components" in
  let paths0 := spread (coalesce firstPaths (VObj [])) in
  let components0 := spread (coalesce firstComponents (VObj [])) in
  let! firstTags := getProp first "tags" in
  let! tagMap0 := collectTags [] firstTags in
  let! firstServers := getProp first "servers" in
  let! serverMap0 := collectServers [] firstServers in
  let! st := forOf mergeOne rest (MergeState paths0 components0 tagMap0 serverMap0) in
  let merged :=
    setField "components" (VObj (ms_components st))
      (setField "paths" (VObj (ms_paths st)) (spread first)) in
  let merged :=
    if (length (ms_tagMap st) =? 0)%nat then merged
    else setField "tags" (VArr (map snd (ms_tagMap st))) merged in
  let merged :=
    if (length (ms_serverMap st) =? 0)%nat then merged
    else setField "servers" (VArr (map snd (ms_serverMap st))) merged in
  Ok (VObj merged).

Definition swaggerRequested : error :=
  Error "Merge strategy swagger requested but not all documents appear to be OpenAPI/Swagger.".

(** [export function mergeDocuments(documents, strategy?)] *)
Definition mergeDocuments (documents : list value) (strategy : option MergeStrategy)
  : result value :=
  if (length documents =? 0)%nat then Throw (Error "No documents fetched to merge.")
  else
    match strategy with
    | Some (StrategyFn fn) => fn documents
    | _ =>
        let! appliedStrategy :=
          match strategy with
          | Some (StrategyName name) =>
              if negb (String.eqb name "") && negb (String.eqb name "auto")
              then Ok name
              else detectMergeStrategy documents
          | _ => detectMergeStrategy documents
          end in
        if String.eqb appliedStrategy "first" then
          Ok (hd VUndefined documents)
        else if String.eqb appliedStrategy "json-array" then
          Ok (VArr documents)
        else if String.eqb appliedStrategy "swagger" || String.eqb appliedStrategy "openapi" then
          let! swaggerDocs := filterR isSwaggerLike documents in
          if (length swaggerDocs =? 0)%nat || negb (length swaggerDocs =? length documents)%nat
          then Throw swaggerRequested
          else mergeSwaggerDocuments swaggerDocs
        else
          let! swaggerDocs := filterR isSwaggerLike documents in
          if (length swaggerDocs =? length documents)%nat && (0 <? length swaggerDocs)%nat
          then mergeSwaggerDocuments swaggerDocs
          else if (length documents =? 1)%nat then Ok (hd VUndefined documents)
          else Ok (VArr documents)
    end.

End Merge.

(** ** [schema.ts]: JSON-Schema-flavoured descriptors to the internal Schema

    The converter builds plain object literals ([{ kind: ..., ...base }]) and
    casts them to [Schema]; the model builds the same objects, so a result is
    a raw value whose [kind], [nullable], ... properties can be read back. *)

Module Convert.
Import Js.

Definition field (fs : object) (k : string) : value :=
  default VUndefined (lookupField k fs).

(** Applies [f] to the value of property [k], or yields [absent] when the
    object has no such property.  [f] stays outside the recursion so that a
    structurally recursive caller may pass itself. *)
Definition onField {A} (k : string) (f : value → A) (absent : A) : object → A :=
  fix go (fs : object) : A :=
    match fs with
    | [] => absent
    | (k', v) :: rest => if String.eqb k k' then f v else go rest
    end.

(** [for (const key of Object.keys(props)) { const child = f(props[key]);
    if (child) properties[key] = child; }] over a plain object ... *)
Definition convertEach (f : value → result value)
  : object → object → result object :=
  fix go (entries properties : object) : result object :=
    match entries with
    | [] => Ok properties
    | (key, v) :: rest =>
        let! child := f v in
        go rest (if truthy child then setField key child properties else properties)
    end.

(** ... and over an array, whose keys are its indices. *)
Definition convertItems (f : value → result value)
  : nat → list value → object → result object :=
  fix go (i : nat) (items : list value) (properties : object) : result object :=
    match items with
    | [] => Ok properties
    | v :: rest =>
        let! child := f v in
        go (S i) rest
           (if truthy child then setField (natToString i) child properties else properties)
    end.

(** [const base = { nullable, description, title, example }] *)
Definition baseOf (input : object) : object :=
  [ ("nullable", VBool (truthy (field input "nullable")));
    ("description", field input "description");
    ("title", field input "title");
    ("example",
      coalesce (field input "example")
        (let examples := field input "examples" in
         if nullish examples then VUndefined else index0 examples)) ].

Definition isNullName (t : value) : bool := strictEq t (VStr "null").

(** [const typeStr = Array.isArray(type) ? (type.includes('null')
      ? type.find(t => t !== 'null') || type[0] : type[0]) : type] *)
Definition typeStrOf (type : value) : value :=
  match type with
  | VArr ts =>
      if existsb isNullName ts
      then orElse (default VUndefined (List.find (fun t => negb (isNullName t)) ts))
                  (hd VUndefined ts)
      else hd VUndefined ts
  | _ => type
  end.

Definition notAFunction (what : string) : error :=
  TypeError (what +:+ ".map is not a function").

(** [input.oneOf.map(v => jsonSchemaToSchema(v)!).filter(Boolean)] *)
Definition variantsOf (f : value → result value) (what : string) (variants : value)
  : result value :=
  match variants with
  | VArr items =>
      let! converted := mapR f items in
      Ok (VArr (List.filter truthy converted))
  | _ => Throw (notAFunction what)
  end.

Definition typeofNumber (v : value) : bool :=
  match v with VNum _ => true | _ => false end.

Definition typeofBoolean (v : value) : bool :=
  match v with VBool _ => true | _ => false end.

(** [export function jsonSchemaToSchema(input)] *)
Fixpoint jsonSchemaToSchema (input : value) : result value :=
  match input with
  | VObj fs =>
      let base := baseOf fs in
      let typeStr := typeStrOf (field fs "type") in
      if negb (truthy typeStr) then
        if truthy (field fs "oneOf") then
          let! variants :=
            onField "oneOf" (variantsOf jsonSchemaToSchema "input.oneOf")
              (Throw (notAFunction "input.oneOf")) fs in
          Ok (VObj (("kind", VStr "oneOf") :: ("variants", variants) :: base))
        else if truthy (field fs "anyOf") then
          let! variants :=
            onField "anyOf" (variantsOf jsonSchemaToSchema "input.anyOf")
              (Throw (notAFunction "input.anyOf")) fs in
          Ok (VObj (("kind", VStr "oneOf") :: ("variants", variants) :: base))
        else if truthy (field fs "enum") then
          Ok (VObj (("kind", VStr "enum") :: ("values", field fs "enum") :: base))
        else Ok (VObj (("kind", VStr "unknown") :: base))
      else if strictEq typeStr (VStr "object") then
        let! properties :=
          onField "properties"
            (fun props =>
               match props with
               | VObj entries => convertEach jsonSchemaToSchema entries []
               | VArr items => convertItems jsonSchemaToSchema 0 items []
               | _ => Ok []
               end) (Ok []) fs in
        let! additionalProperties :=
          onField "additionalProperties"
            (fun additional =>
               if typeofBoolean additional then Ok additional
               else if truthy additional && typeofObject additional
                    then jsonSchemaToSchema additional
                    else Ok VUndefined) (Ok VUndefined) fs in
        let required :=
          if isArray (field fs "required") then field fs "required" else VUndefined in
        Ok (VObj (("kind", VStr "object") :: ("properties", VObj properties)
                    :: ("required", required)
                    :: ("additionalProperties", additionalProperties) :: base))
      else if strictEq typeStr (VStr "array") then
        let! element := onField "items" jsonSchemaToSchema (Ok VUndefined) fs in
        let minItems :=
          if typeofNumber (field fs "minItems") then field fs "minItems" else VUndefined in
        let maxItems :=
          if typeofNumber (field fs "maxItems") then field fs "maxItems" else VUndefined in
        Ok (VObj (("kind", VStr "array") :: ("element", element)
                    :: ("minItems", minItems) :: ("maxItems", maxItems) :: base))
      else if strictEq typeStr (VStr "string") || strictEq typeStr (VStr "number")
              || strictEq typeStr (VStr "integer") || strictEq typeStr (VStr "boolean")
              || strictEq typeStr (VStr "null") then
        Ok (VObj (("kind", typeStr) :: ("format", field fs "format") :: base))
      else Ok (VObj (("kind", VStr "unknown") :: base))
  | VArr _ =>
      (* an array is an object without any of the properties read above *)
      Ok (VObj (("kind", VStr "unknown") :: baseOf []))
  | _ => Ok VUndefined
  end.

End Convert.


(** ** [fetch.ts]: resolving a document source into one raw payload

    Network and file access are the boundary of the model.  The outside world
    is an abstract state [World]; [fetchHttp] and [parseJsonFile] are the two
    I/O primitives, each reading and possibly changing the world and either
    returning a payload or throwing.  An [async] function is a computation in
    the state-and-exception monad [IO]; [await] is its bind.  [Promise.all]
    over the requests is modelled by issuing them in list order, which is the
    order their results are reduced in. *)

Module Fetch.
Import Js.

Inductive ResponseParseMode : Type := ParseAuto | ParseJson | ParseText | ParseBuffer.

Record ApiDocRequest : Type := {
  url : string;
  method : option string;
  headers : option object;
  query : option object;
  body : value;
  parseAs : option ResponseParseMode;
}.

(** [type DocSourceSingle = string | URL | ApiDocRequest] *)
Inductive DocSourceSingle : Type :=
| SrcString (spec : string)
| SrcURL (href : string)
| SrcRequest (request : ApiDocRequest).

Section WithWorld.

Variable World : Type.

Definition IO (A : Type) : Type := World → result A * World.

Definition ret {A} (a : A) : IO A := fun w => (Ok a, w).
Definition throw {A} (e : error) : IO A := fun w => (Throw e, w).
Definition bind {A B} (m : IO A) (k : A → IO B) : IO B := fun w =>
  match m w with
  | (Ok a, w') => k a w'
  | (Throw e, w') => (Throw e, w')
  end.
Definition lift {A} (r : result A) : IO A := fun w => (r, w).

Notation "'await' x ':=' m 'in' k" := (bind m (fun x => k))
  (at level 10, x pattern, m at level 100, k at level 200).

Fixpoint mapIO {A B} (f : A → IO B) (l : list A) : IO (list B) :=
  match l with
  | [] => ret []
  | x :: xs => await y := f x in await ys := mapIO f xs in ret (y :: ys)
  end.

(** The I/O primitives. *)
Variable fetchHttp : ApiDocRequest → IO value.
Variable parseJsonFile : string → IO value.
Variable fileURLToPath : string → string.

(** What [resolveRequests] hands back: one request or an array of them. *)
Inductive Followups : Type :=
| OneRequest (request : DocSourceSingle)
| ManyRequests (requests : list DocSourceSingle).

Record MultiEndpointSource : Type := {
  requests : list DocSourceSingle;
  multiMergeStrategy : option Merge.MergeStrategy;
}.

Record DiscoverySource : Type := {
  discovery : DocSourceSingle;
  resolveRequests : value → IO Followups;
  mergeStrategy : option Merge.MergeStrategy;
}.

(** [type ApiDocSource = string | URL | ApiDocRequest | MultiEndpointSource
    | DiscoverySource]; the guards [isDiscoverySource] and
    [isMultiEndpointSource] are the case analysis on this sum. *)
Inductive ApiDocSource : Type :=
| Single (source : DocSourceSingle)
| MultiEndpoint (source : MultiEndpointSource)
| Discovery (source : DiscoverySource).

Definition startsWith (prefix s : string) : bool := String.prefix prefix s.

(** [function isHttpUrl(value)] *)
Definition isHttpUrl (value : string) : bool :=
  startsWith "http://" value || startsWith "https://" value.

Definition autoRequest (target : string) : ApiDocRequest :=
  {| url := target; method := None; headers := None; query := None;
     body := VUndefined; parseAs := Some ParseAuto |}.

(** [async function fetchSingleDocument(spec)] *)
Definition fetchSingleDocument (spec : DocSourceSingle) : IO value :=
  match spec with
  | SrcURL href => fetchHttp (autoRequest href)
  | SrcString spec =>
      if isHttpUrl spec then fetchHttp (autoRequest spec)
      else if startsWith "file://" spec then parseJsonFile (fileURLToPath spec)
      else parseJsonFile spec
  | SrcRequest request => fetchHttp request
  end.

(** [function ensureArray(input)] *)
Definition ensureArray (input : Followups) : list DocSourceSingle :=
  match input with
  | OneRequest request => [request]
  | ManyRequests requests => requests
  end.

(** [export async function fetchApiDocumentation(source)] *)
Definition fetchApiDocumentation (source : ApiDocSource) : IO value :=
  match source with
  | Discovery source =>
      await entry := fetchSingleDocument (discovery source) in
      await followups := resolveRequests source entry in
      let requests := ensureArray followups in
      if (length requests =? 0)%nat
      then throw (Error "Discovery source returned no follow-up requests.")
      else
        await documents := mapIO fetchSingleDocument requests in
        lift (Merge.mergeDocuments documents (mergeStrategy source))
  | MultiEndpoint source =>
      if (length (requests source) =? 0)%nat
      then throw (Error "Multi-endpoint source requires at least one request.")
      else
        await documents := mapIO fetchSingleDocument (requests source) in
        lift (Merge.mergeDocuments documents (multiMergeStrategy source))
  | Single source => fetchSingleDocument source
  end.

End WithWorld.

Arguments fetchApiDocumentation {World}.
Arguments fetchSingleDocument {World}.
Arguments Discovery {World}.
Arguments MultiEndpoint {World}.
Arguments Single {World}.

End Fetch.

(** ** [types.ts]: the unified service model *)

Module Types.

Inductive HttpMethod : Type := GET | POST | PUT | DELETE | PATCH | HEAD | OPTIONS.

Definition methodName (m : HttpMethod) : string :=
  match m with
  | GET => "GET" | POST => "POST" | PUT => "PUT" | DELETE => "DELETE"
  | PATCH => "PATCH" | HEAD => "HEAD" | OPTIONS => "OPTIONS"
  end.

Inductive ParamLocation : Type := InPath | InQuery | InHeader | InBody.

Inductive PrimitiveKind : Type :=
| KString | KNumber | KInteger | KBoolean | KNull | KAny | KUnknown.

(** [Array<string | number | boolean | null>] *)
Inductive EnumValue : Type :=
| EString (s : string)
| ENumber (n : Z)
| EBoolean (b : bool)
| ENull.

(** [interface BaseSchema] without its [kind], which the constructors of
    [Schema] carry. *)
Record BaseSchema : Type := {
  description : option string;
  nullable : option bool;
  title : option string;
  example : Js.value;
}.

(** [type Schema = PrimitiveSchema | ObjectSchema | ArraySchema | EnumSchema
    | OneOfSchema] *)
#[warnings="-register-all"]
Inductive Schema : Type :=
| PrimitiveSchema (kind : PrimitiveKind) (format : option string) (base : BaseSchema)
| ObjectSchema (properties : option (list (string * Schema)))
               (required : option (list string))
               (additionalProperties : option (bool + Schema))
               (base : BaseSchema)
| ArraySchema (element : option Schema) (minItems maxItems : option Z) (base : BaseSchema)
| EnumSchema (values : list EnumValue) (base : BaseSchema)
| OneOfSchema (variants : list Schema) (base : BaseSchema).

Definition baseOf (s : Schema) : BaseSchema :=
  match s with
  | PrimitiveSchema _ _ b | ObjectSchema _ _ _ b | ArraySchema _ _ _ b
  | EnumSchema _ b | OneOfSchema _ b => b
  end.

Record ParameterDefinition : Type := {
  param_name : string;
  param_in : ParamLocation;
  param_required : option bool;
  param_description : option string;
  param_schema : option Schema;
  param_example : Js.value;
  param_style : option string;
}.

Record RequestBodyDefinition : Type := {
  body_required : option bool;
  body_contentType : option string;
  body_schema : option Schema;
}.

(** [status?: number | 'default'] *)
Inductive ResponseStatus : Type :=
| StatusCode (n : Z)
| StatusDefault.

Record ResponseDefinition : Type := {
  resp_status : option ResponseStatus;
  resp_description : option string;
  resp_contentType : option string;
  resp_schema : option Schema;
}.

Record EndpointParameters : Type := {
  params_path : option (list ParameterDefinition);
  params_query : option (list ParameterDefinition);
  params_header : option (list ParameterDefinition);
}.

Record EndpointDefinition : Type := {
  ep_id : string;
  ep_name : option string;
  ep_description : option string;
  ep_path : string;
  ep_method : HttpMethod;
  ep_tags : option (list string);
  ep_parameters : option EndpointParameters;
  ep_body : option RequestBodyDefinition;
  ep_responses : option (list ResponseDefinition);
}.

Record ServiceSource : Type := {
  source_kind : string;
  source_raw : Js.value;
}.

Record ServiceDefinition : Type := {
  svc_title : option string;
  svc_version : option string;
  svc_description : option string;
  svc_servers : option (list string);
  svc_types : option (list (string * Schema));
  svc_endpoints : list EndpointDefinition;
  svc_source : option ServiceSource;
}.

(** Truthiness of an optional string ([undefined] and [''] are falsy) and
    of an optional boolean. *)
Definition truthyString (s : option string) : bool :=
  match s with Some s => Str.nonEmpty s | None => false end.

Definition truthyBool (b : option bool) : bool := default false b.

(** [a || b] where [a] is an optional string and [b] a string *)
Definition orString (a : option string) (b : string) : string :=
  match a with
  | Some s => if Str.nonEmpty s then s else b
  | None => b
  end.

End Types.

(** ** [node:path] ([posix]): the path operations the generator imports

    Modelled on segments.  [relative] resolves both arguments against the
    working directory; for relative paths that stay below it, as every path
    the generator builds does, the working directory cancels out. *)

Module Path.

Definition isSlash (c : ascii) : bool := (Str.code c =? 47)%nat.
Definition slash : ascii := ascii_of_nat 47.

(** The segment stack of [normalizeString], most recent segment first. *)
Definition pushSegment (allowAboveRoot : bool) (stack : list string) (seg : string)
  : list string :=
  if Str.isEmpty seg || String.eqb seg "." then stack
  else if String.eqb seg ".." then
    match stack with
    | top :: below =>
        if String.eqb top ".." then (if allowAboveRoot then ".." :: stack else stack)
        else below
    | [] => if allowAboveRoot then [".."] else []
    end
  else seg :: stack.

Definition normalizeSegments (allowAboveRoot : bool) (segs : list string) : list string :=
  List.rev (fold_left (pushSegment allowAboveRoot) segs []).

(** [path.normalize(p)] *)
Definition normalize (p : string) : string :=
  if Str.isEmpty p then "."
  else
    let isAbsolute := Str.startsWith p "/" in
    let trailingSeparator := Str.endsWith p "/" in
    let body := Str.join "/" (normalizeSegments (negb isAbsolute) (Str.splitChar slash p)) in
    if Str.isEmpty body then
      if isAbsolute then "/" else if trailingSeparator then "./" else "."
    else
      let body := if trailingSeparator then body +:+ "/" else body in
      if isAbsolute then "/" +:+ body else body.

(** [path.join(...parts)] *)
Definition join (parts : list string) : string :=
  match List.filter Str.nonEmpty parts with
  | [] => "."
  | kept => normalize (Str.join "/" kept)
  end.

(** [path.dirname(p)] *)
Definition dirname (p : string) : string :=
  match p with
  | EmptyString => "."
  | String c0 rest =>
      let afterTrailing := Str.dropWhile isSlash (Str.rev rest) in
      let afterLast := Str.dropWhile (fun c => negb (isSlash c)) afterTrailing in
      match afterLast with
      | EmptyString => if isSlash c0 then "/" else "."
      | String _ before =>
          if isSlash c0 && Str.isEmpty before then "//"
          else String c0 (Str.rev before)
      end
  end.

(** [path.basename(p)] *)
Definition basename (p : string) : string :=
  Str.rev (Str.takeWhile (fun c => negb (isSlash c)) (Str.dropWhile isSlash (Str.rev p))).

Fixpoint stripCommon (a b : list string) : list string * list string :=
  match a, b with
  | x :: a', y :: b' => if String.eqb x y then stripCommon a' b' else (a, b)
  | _, _ => (a, b)
  end.

(** [path.relative(from, to)] for relative paths below the working directory *)
Definition relative (from to : string) : string :=
  let fromSegs := normalizeSegments true (Str.splitChar slash from) in
  let toSegs := normalizeSegments true (Str.splitChar slash to) in
  let '(up, down) := stripCommon fromSegs toSegs in
  Str.join "/" (List.map (fun _ => "..") up ++ down).

End Path.

(** ** [generator.ts]: from a service definition to a bundle of source files *)

Module Generator.
Import Types.

Inductive FileExtension : Type := ExtTs | ExtJs.

Definition extensionName (e : FileExtension) : string :=
  match e with ExtTs => "ts" | ExtJs => "js" end.

Record CodegenOptions : Type := {
  entryFileName : option string;
  fileExtension : option FileExtension;
}.

Record GeneratedFile : Type := {
  filename : string;
  content : string;
}.

Record GeneratedBundle : Type := {
  entrypoint : string;
  files : list GeneratedFile;
}.

Definition underscore : ascii := ascii_of_nat 95.
Definition isUnderscore (c : ascii) : bool := (Str.code c =? 95)%nat.

(** [export function safeId(id)] *)
Definition safeId (id : string) : string :=
  let cleaned :=
    Str.mapChars (fun c => if Str.isAlnum c || isUnderscore c then c else underscore) id in
  match cleaned with
  | String c _ => if Str.isDigit c then "_" +:+ cleaned else cleaned
  | EmptyString => cleaned
  end.

(** [part.charAt(0).toUpperCase() + part.slice(1)] *)
Definition capitalize (part : string) : string :=
  match part with
  | String c rest => String (Str.toUpperChar c) rest
  | EmptyString => EmptyString
  end.

(** [function toPascalCase(value)] *)
Definition toPascalCase (value : string) : string :=
  Str.join ""
    (List.map capitalize
       (List.filter Str.nonEmpty
          (Str.splitRuns (fun c => isUnderscore c || Str.isSpace c) (safeId value)))).

(** [s.replace(/([a-z0-9])([A-Z])/g, '$1-$2')] *)
Fixpoint hyphenate (s : string) : string :=
  match s with
  | String a (String b rest as tail) =>
      if (Str.isLower a || Str.isDigit a) && Str.isUpper b
      then String a (String (ascii_of_nat 45) (String b (hyphenate rest)))
      else String a (hyphenate tail)
  | _ => s
  end.

(** [function toKebabCase(value)] *)
Definition toKebabCase (value : string) : string :=
  let pascal := toPascalCase value in
  Str.toLowerCase (Str.replaceRuns Str.isSpace "-" (hyphenate pascal)).

Definition isOpenBrace (c : ascii) : bool := (Str.code c =? 123)%nat.
Definition isCloseBrace (c : ascii) : bool := (Str.code c =? 125)%nat.
Definition isColon (c : ascii) : bool := (Str.code c =? 58)%nat.

Definition partName (index : nat) : string := "part-" +:+ natToString (index + 1).

(** [function normalizePathSegment(segment, index)] *)
Definition normalizePathSegment (segment : string) (index : nat) : string :=
  let unwrapped :=
    Str.trim (Str.dropWhile isColon
                (Str.dropWhileEnd isCloseBrace (Str.dropWhile isOpenBrace segment))) in
  if Str.isEmpty unwrapped then partName index
  else
    let cleaned := Str.trim (Str.replaceRuns (fun c => negb (Str.isAlnum c)) " " unwrapped) in
    let kebab := if Str.nonEmpty cleaned then toKebabCase cleaned else "" in
    if Str.nonEmpty kebab then kebab else partName index.

(** [array.map((x, idx) => f(x, idx))] *)
Fixpoint mapi {A B} (f : A → nat → B) (i : nat) (l : list A) : list B :=
  match l with
  | [] => []
  | x :: xs => f x i :: mapi f (S i) xs
  end.

(** [function extractPathSegments(pathValue, fallbackBase, fallbackIndex)] *)
Definition extractPathSegments (pathValue fallbackBase : string) (fallbackIndex : nat)
  : list string :=
  let rawSegments :=
    List.filter Str.nonEmpty (List.map Str.trim (Str.splitChar Path.slash pathValue)) in
  let normalized := mapi normalizePathSegment 0 rawSegments in
  match normalized with
  | _ :: _ => normalized
  | [] =>
      let kebab := toKebabCase fallbackBase in
      let fallback :=
        if Str.nonEmpty kebab then kebab
        else "endpoint-" +:+ natToString (fallbackIndex + 1) in
      [fallback]
  end.

(** [function computeRelativeModulePath(fromFilename, targetFilename)] *)
Definition computeRelativeModulePath (fromFilename targetFilename : string) : string :=
  let fromDir := Path.dirname fromFilename in
  let targetWithoutExt := Str.stripTsSuffix targetFilename in
  let origin := if String.eqb fromDir "." then "." else fromDir in
  let relative := Path.relative origin targetWithoutExt in
  if Str.isEmpty relative then "./" +:+ Path.basename targetWithoutExt
  else if negb (Str.startsWith relative ".") then "./" +:+ relative
  else relative.

(** [function indentBlock(text, level)] *)
Definition indentBlock (text : string) (level : nat) : string :=
  let pad := Str.repeat "  " level in
  Str.join Str.nl
    (List.map (fun line => if Str.nonEmpty line then pad +:+ line else line)
       (Str.splitChar (ascii_of_nat 10) text)).

(** *** [JSON.stringify] on strings and on enum literals *)

Definition hexDigit (n : nat) : ascii :=
  if (n <? 10)%nat then ascii_of_nat (48 + n) else ascii_of_nat (87 + n).

Definition escapeChar (c : ascii) : string :=
  let n := Str.code c in
  if (n =? 34)%nat then Str.backslash +:+ Str.dquote
  else if (n =? 92)%nat then Str.backslash +:+ Str.backslash
  else if (n =? 8)%nat then Str.backslash +:+ "b"
  else if (n =? 12)%nat then Str.backslash +:+ "f"
  else if (n =? 10)%nat then Str.backslash +:+ "n"
  else if (n =? 13)%nat then Str.backslash +:+ "r"
  else if (n =? 9)%nat then Str.backslash +:+ "t"
  else if (n <? 32)%nat then
    Str.backslash +:+ "u00" +:+ String (hexDigit (n / 16)) (String (hexDigit (n mod 16)) "")
  else String c "".

Fixpoint escapeString (s : string) : string :=
  match s with
  | EmptyString => EmptyString
  | String c rest => escapeChar c +:+ escapeString rest
  end.

Definition jsonString (s : string) : string :=
  Str.dquote +:+ escapeString s +:+ Str.dquote.

Definition intToString (n : Z) : string :=
  if (n <? 0)%Z then "-" +:+ natToString (Z.to_nat (- n)) else natToString (Z.to_nat n).

Definition jsonEnumValue (v : EnumValue) : string :=
  match v with
  | EString s => jsonString s
  | ENumber n => intToString n
  | EBoolean b => if b then "true" else "false"
  | ENull => "null"
  end.

Definition docComment (description : option string) : string :=
  match description with
  | Some d => if Str.nonEmpty d then "/** " +:+ d +:+ " */" +:+ Str.nl else ""
  | None => ""
  end.

Definition optionalMark (optional : bool) : string := if optional then "?" else "".

Definition block (lines : list string) (level : nat) : string :=
  "{" +:+ Str.nl +:+ indentBlock (Str.join Str.nl lines) (level + 1) +:+ Str.nl
      +:+ Str.repeat "  " level +:+ "}".

(** [function schemaToTs(schema, level = 0)] on a defined schema *)
Fixpoint schemaToTsDefined (schema : Schema) (level : nat) : string :=
  match schema with
  | PrimitiveSchema kind _ _ =>
      match kind with
      | KString => "string"
      | KNumber | KInteger => "number"
      | KBoolean => "boolean"
      | KNull => "null"
      | KAny => "any"
      | KUnknown => "unknown"
      end
  | EnumSchema values _ =>
      let joined := Str.join " | " (List.map jsonEnumValue values) in
      if Str.nonEmpty joined then joined else "unknown"
  | OneOfSchema variants _ =>
      match List.map (fun variant => schemaToTsDefined variant level) variants with
      | [] => "unknown"
      | rendered => Str.join " | " rendered
      end
  | ArraySchema element _ _ _ =>
      let elementType :=
        match element with
        | Some e => schemaToTsDefined e level
        | None => "unknown"
        end in
      "Array<" +:+ elementType +:+ ">"
  | ObjectSchema properties required additionalProperties _ =>
      let required := default [] required in
      let each :=
        fix each (props : list (string * Schema)) : list string :=
          match props with
          | [] => []
          | (key, value) :: rest =>
              let optional := negb (existsb (String.eqb key) required) in
              let propType := schemaToTsDefined value (level + 1) in
              (docComment (description (baseOf value))
                 +:+ jsonString key +:+ optionalMark optional +:+ ": " +:+ propType +:+ ";")
              :: each rest
          end in
      let entries :=
        match properties with
        | Some props => each props
        | None => []
        end in
      let entries :=
        match additionalProperties with
        | Some (inl true) => entries ++ ["[key: string]: unknown;"]
        | Some (inr extra) =>
            entries ++ ["[key: string]: " +:+ schemaToTsDefined extra (level + 1) +:+ ";"]
        | _ => entries
        end in
      match entries with
      | [] => "{}"
      | _ => block entries level
      end
  end.

(** [function schemaToTs(schema: Schema | undefined, level = 0)] *)
Definition schemaToTs (schema : option Schema) (level : nat) : string :=
  match schema with
  | None => "unknown"
  | Some s => schemaToTsDefined s level
  end.

(** [function renderParameterObject(params, level)] *)
Definition renderParameterObject (params : option (list ParameterDefinition)) (level : nat)
  : option string :=
  match params with
  | None | Some [] => None
  | Some params =>
      let lines :=
        List.map (fun prm =>
          docComment (param_description prm)
            +:+ jsonString (param_name prm)
            +:+ optionalMark (negb (truthyBool (param_required prm)))
            +:+ ": " +:+ schemaToTs (param_schema prm) (level + 1) +:+ ";") params in
      Some (block lines level)
  end.

Record RequestProperty : Type := {
  text : string;
  isRequired : bool;
}.

(** [function makeProperty(name, type, optional)] *)
Definition makeProperty (name type : string) (optional : bool) : RequestProperty :=
  let formattedType :=
    if Str.includes type Str.nl
    then Str.replaceNewlines (Str.nl +:+ "  ") type
    else type in
  {| text := "  " +:+ jsonString name +:+ optionalMark optional +:+ ": "
               +:+ formattedType +:+ ";";
     isRequired := negb optional |}.

(** [function renderRequestType(className, endpoint)] *)
Definition renderRequestType (className : string) (endpoint : EndpointDefinition)
  : string * bool :=
  let parameters := ep_parameters endpoint in
  let pathType := renderParameterObject (parameters ≫= params_path) 1 in
  let queryType := renderParameterObject (parameters ≫= params_query) 1 in
  let headerType := renderParameterObject (parameters ≫= params_header) 1 in
  let props :=
    match pathType with Some t => [makeProperty "path" t false] | None => [] end
    ++ match queryType with Some t => [makeProperty "query" t true] | None => [] end
    ++ match headerType with Some t => [makeProperty "headers" t true] | None => [] end
    ++ match ep_body endpoint with
       | Some body =>
           match body_schema body with
           | Some schema =>
               [makeProperty "body" (schemaToTs (Some schema) 1)
                  (negb (truthyBool (body_required body)))]
           | None => []
           end
       | None => []
       end
    ++ [makeProperty "signal" "AbortSignal" true] in
  let hasProperties := (0 <? length props)%nat in
  let hasRequiredFields := existsb isRequired props in
  let lines :=
    if hasProperties then List.map text props
    else ["  // No request parameters required."] in
  ("export interface " +:+ className +:+ "Request {" +:+ Str.nl
     +:+ Str.join Str.nl lines +:+ Str.nl +:+ "}",
   hasRequiredFields).

Definition isSuccessStatus (r : ResponseDefinition) : bool :=
  match resp_status r with
  | Some (StatusCode n) => (200 <=? n)%Z && (n <? 300)%Z
  | _ => false
  end.

(** [function pickSuccessResponse(endpoint)] *)
Definition pickSuccessResponse (endpoint : EndpointDefinition) : option ResponseDefinition :=
  match ep_responses endpoint with
  | None | Some [] => None
  | Some (first :: rest) =>
      match List.find isSuccessStatus (first :: rest) with
      | Some success => Some success
      | None => Some first
      end
  end.

(** [function renderResponseType(className, endpoint)]: the code and the
    content type of the chosen response *)
Definition renderResponseType (className : string) (endpoint : EndpointDefinition)
  : string * option string :=
  let success := pickSuccessResponse endpoint in
  let typeName := className +:+ "Response" in
  match success with
  | Some response =>
      match resp_schema response with
      | Some schema =>
          ("export type " +:+ typeName +:+ " = " +:+ schemaToTs (Some schema) 0 +:+ ";",
           resp_contentType response)
      | None => ("export type " +:+ typeName +:+ " = void;", resp_contentType response)
      end
  | None => ("export type " +:+ typeName +:+ " = void;", None)
  end.

(** [function renderExecutorInterface(className, hasRequiredFields)] *)
Definition renderExecutorInterface (className : string) (hasRequiredFields : bool) : string :=
  let executorType :=
    if hasRequiredFields
    then "EndpointExecutor<" +:+ className +:+ "Request, " +:+ className +:+ "Response>"
    else "EndpointExecutor<" +:+ className +:+ "Request, " +:+ className +:+ "Response, false>" in
  "export type " +:+ className +:+ "Executor = " +:+ executorType +:+ ";".

(** [function renderClientClass(className, endpoint, hasRequiredFields,
    responseContentType)] *)
Definition renderClientClass (className : string) (endpoint : EndpointDefinition)
    (hasRequiredFields : bool) (responseContentType : option string) : string :=
  let paramSignature :=
    if hasRequiredFields
    then "request: " +:+ className +:+ "Request"
    else "request: " +:+ className +:+ "Request = {} as " +:+ className +:+ "Request" in
  let body := ep_body endpoint in
  let specFields :=
    [ "method: " +:+ jsonString (methodName (ep_method endpoint));
      "path: " +:+ jsonString (ep_path endpoint) ]
    ++ (if truthyBool (body ≫= body_required) then ["bodyRequired: true"] else [])
    ++ (if truthyString (body ≫= body_contentType)
        then ["bodyContentType: " +:+ jsonString (default "" (body ≫= body_contentType))]
        else [])
    ++ (if truthyString responseContentType
        then ["responseContentType: " +:+ jsonString (default "" responseContentType)]
        else []) in
  let specObject :=
    "{" +:+ Str.nl +:+ "      " +:+ Str.join ("," +:+ Str.nl +:+ "      ") specFields
        +:+ Str.nl +:+ "    }" in
  let ctor :=
    "  constructor(config: FetchClientConfig = {}) {" +:+ Str.nl
      +:+ "    super(config);" +:+ Str.nl
      +:+ "  }" in
  let method :=
    "  async fetch(" +:+ paramSignature +:+ ", init?: RequestInit): Promise<"
      +:+ className +:+ "Response> {" +:+ Str.nl
      +:+ "    return this.request<" +:+ className +:+ "Response>(" +:+ Str.nl
      +:+ "      " +:+ specObject +:+ "," +:+ Str.nl
      +:+ "      request," +:+ Str.nl
      +:+ "      init" +:+ Str.nl
      +:+ "    );" +:+ Str.nl
      +:+ "  }" in
  let docs :=
    (if truthyString (ep_name endpoint) then [default "" (ep_name endpoint)] else [])
    ++ (if truthyString (ep_description endpoint)
        then [default "" (ep_description endpoint)] else []) in
  let header :=
    match docs with
    | [] => ""
    | _ => "/** " +:+ Str.join " - " docs +:+ " */" +:+ Str.nl
    end in
  header +:+ "export class " +:+ className +:+ " extends BaseFetchClient implements "
    +:+ className +:+ "Executor {" +:+ Str.nl
    +:+ ctor +:+ Str.nl
    +:+ Str.nl
    +:+ method +:+ Str.nl
    +:+ "}".

(** The signature line at the head of every endpoint file. *)
Definition signature (endpoint : EndpointDefinition) : string :=
  "Auto-generated for " +:+ methodName (ep_method endpoint) +:+ " " +:+ ep_path endpoint.

(** [function renderEndpointFile(endpoint, config)] *)
Definition renderEndpointFile (endpoint : EndpointDefinition)
    (target transportImportPath : string) : GeneratedFile :=
  let baseName := orString (ep_name endpoint) (ep_id endpoint) in
  let className := toPascalCase baseName in
  let request := renderRequestType className endpoint in
  let response := renderResponseType className endpoint in
  let executor := renderExecutorInterface className (snd request) in
  let clientClass := renderClientClass className endpoint (snd request) (snd response) in
  let parts :=
    [ "/**";
      " * " +:+ signature endpoint;
      " */";
      "";
      "import { BaseFetchClient, type EndpointExecutor, type FetchClientConfig } from '"
        +:+ transportImportPath +:+ "';";
      "";
      fst request;
      "";
      fst response;
      "";
      executor;
      "";
      clientClass;
      "" ] in
  {| filename := target; content := Str.join Str.nl parts |}.

(** [function renderTypesFile(service)] *)
Definition renderTypesFile (service : ServiceDefinition) : option GeneratedFile :=
  match default [] (svc_types service) with
  | [] => None
  | entries =>
      let parts :=
        ["/**"; " * Normalized component schemas."; " */"; ""]
        ++ List.concat
             (List.map (fun entry : string * Schema =>
                ["export type " +:+ toPascalCase (fst entry) +:+ " = "
                   +:+ schemaToTs (Some (snd entry)) 0 +:+ ";"; ""]) entries) in
      Some {| filename := "types.ts"; content := Str.join Str.nl parts |}
  end.

(** The text of the shared runtime, the template literal of
    [renderTransportFile]. *)
Definition transportSource : string :=
"/**
 * Shared runtime helpers that power the generated fetch client.
 */
export type QueryArrayFormat = 'repeat' | 'comma';

export interface FetchClientConfig {
  // Base URL that will be prefixed to every request path.
  baseUrl?: string;
  // Custom fetch implementation (pass polyfills when running outside the browser).
  fetch?: typeof fetch;
  // Headers merged into every request before it is dispatched.
  defaultHeaders?: Record<string, string>;
  // Controls how array values are serialized in the query string.
  queryArrayFormat?: QueryArrayFormat;
  // Lifecycle hook fired right before sending a request.
  onRequest?: (ctx: RequestContext) => void | Promise<void>;
  // Lifecycle hook fired after the response is received (ideal for logging or metrics).
  onResponse?: (ctx: ResponseContext) => void | Promise<void>;
}

export interface RequestContext {
  // Fully resolved URL including baseUrl, path parameters, and query string.
  url: string;
  method: string;
  init: RequestInit;
}

export interface ResponseContext extends RequestContext {
  status: number;
  statusText: string;
  data: unknown;
}

export class HttpError extends Error {
  constructor(message: string, public readonly status: number, public readonly data: unknown) {
    super(message);
    this.name = 'HttpError';
  }
}

export interface EndpointSpec {
  // Metadata that mirrors the underlying OpenAPI operation.
  method: string;
  path: string;
  bodyRequired?: boolean;
  bodyContentType?: string;
  responseContentType?: string;
}

export interface EndpointRequestParts {
  path?: Record<string, string | number>;
  query?: Record<string, unknown>;
  headers?: Record<string, string>;
  body?: unknown;
  signal?: AbortSignal;
}

// Generic executor signature implemented by generated client classes.
export type EndpointExecutor<Request, Response, RequireRequest extends boolean = true> =
  RequireRequest extends true
    ? {
        fetch(request: Request, init?: RequestInit): Promise<Response>;
      }
    : {
        fetch(request?: Request, init?: RequestInit): Promise<Response>;
      };

/**
 * Serializes query parameters into a query string.
 */
function serializeQuery(params: Record<string, unknown> | undefined, arrayFormat: QueryArrayFormat = 'repeat') {
  if (!params) return '';
  const parts: string[] = [];
  const append = (key: string, value: unknown) => {
    parts.push(encodeURIComponent(key) + '=' + encodeURIComponent(String(value)));
  };

  for (const [key, value] of Object.entries(params)) {
    if (value === undefined || value === null) continue;

    if (Array.isArray(value)) {
      if (arrayFormat === 'repeat') {
        for (const item of value) append(key, item);
      } else {
        append(key, value.join(','));
      }
      continue;
    }

    if (typeof value === 'object') {
      append(key, JSON.stringify(value));
      continue;
    }

    append(key, value);
  }

  return parts.length ? '?' + parts.join('&') : '';
}

/**
 * Applies path parameters to templated routes such as /users/{id}.
 */
function applyPathParams(path: string, params?: Record<string, string | number>) {
  if (!params) return path;
  return path.replace(/{(.*?)}/g, (_, key: string) => {
    const value = params[key];
    return encodeURIComponent(value === undefined ? '' : String(value));
  });
}

/**
 * Normalizes the various HeadersInit shapes into a plain object for merging.
 */
function headersToRecord(input?: HeadersInit): Record<string, string> {
  if (!input) return {};
  if (input instanceof Headers) {
    const out: Record<string, string> = {};
    input.forEach((value, key) => {
      out[key] = value;
    });
    return out;
  }
  if (Array.isArray(input)) {
    const out: Record<string, string> = {};
    for (const [key, value] of input) {
      out[key] = value;
    }
    return out;
  }
  return { ...input } as Record<string, string>;
}

/**
 * Base class used by generated clients to encapsulate shared request/response plumbing.
 */
export class BaseFetchClient {
  constructor(protected readonly config: FetchClientConfig = {}) {}

  /**
   * Builds the final request URL from the endpoint spec and caller input.
   */
  protected buildUrl(spec: EndpointSpec, request: EndpointRequestParts | undefined) {
    const baseUrl = this.config.baseUrl?.replace(/[/]$/, '') || '';
    const path = applyPathParams(spec.path, request?.path);
    const qs = serializeQuery(request?.query, this.config.queryArrayFormat);
    return baseUrl + path + qs;
  }

  /**
   * Performs the fetch call and handles headers, body, and response decoding.
   */
  protected async request<Response>(
    spec: EndpointSpec,
    request: EndpointRequestParts | undefined,
    init?: RequestInit
  ): Promise<Response> {
    const fetchImpl = (this.config.fetch ?? globalThis.fetch) as typeof fetch | undefined;
    if (typeof fetchImpl !== 'function') {
      throw new Error('No fetch implementation available. Provide FetchClientConfig.fetch in non-browser environments.');
    }

    if (spec.bodyRequired && (request?.body === undefined || request.body === null)) {
      throw new Error('Request body is required for this endpoint.');
    }

    const url = this.buildUrl(spec, request);
    const headers: Record<string, string> = {
      ...(this.config.defaultHeaders ?? {}),
      ...(request?.headers ?? {}),
      ...headersToRecord(init?.headers),
    };

    const method = spec.method.toUpperCase();
    const bodySource = init?.body ?? request?.body;
    let finalBody: BodyInit | undefined;

    if (bodySource !== undefined && bodySource !== null && !['GET', 'HEAD'].includes(method)) {
      if (typeof Blob !== 'undefined' && bodySource instanceof Blob) {
        finalBody = bodySource;
      } else if (typeof FormData !== 'undefined' && bodySource instanceof FormData) {
        finalBody = bodySource;
      } else if (typeof URLSearchParams !== 'undefined' && bodySource instanceof URLSearchParams) {
        finalBody = bodySource;
      } else if (typeof ArrayBuffer !== 'undefined' && bodySource instanceof ArrayBuffer) {
        finalBody = bodySource;
      } else if (typeof ReadableStream !== 'undefined' && bodySource instanceof ReadableStream) {
        // ReadableStream may need a polyfill in Node.js; treat it as BodyInit when available.
        finalBody = bodySource as BodyInit;
      } else if (typeof bodySource === 'string') {
        finalBody = bodySource;
      } else {
        const declared = spec.bodyContentType || headers['Content-Type'] || headers['content-type'];
        if (!declared || declared.includes('application/json')) {
          headers['Content-Type'] = 'application/json';
          finalBody = JSON.stringify(bodySource);
        } else if (declared.includes('application/x-www-form-urlencoded')) {
          headers['Content-Type'] = 'application/x-www-form-urlencoded';
          const params = new URLSearchParams();
          for (const [key, value] of Object.entries(bodySource as Record<string, unknown>)) {
            if (value !== undefined && value !== null) params.append(key, String(value));
          }
          finalBody = params as any;
        } else {
          finalBody = String(bodySource);
        }
      }
    }

    const finalInit: RequestInit = {
      ...init,
      method,
      headers,
      body: ['GET', 'HEAD'].includes(method) ? undefined : finalBody,
      signal: request?.signal ?? init?.signal,
    };

    const requestCtx: RequestContext = { url, method, init: finalInit };
    if (this.config.onRequest) await this.config.onRequest(requestCtx);

    const response = await fetchImpl(url, finalInit);

    const declaredResponseType = spec.responseContentType;
    let data: unknown;
    try {
      if (response.status === 204 || method === 'HEAD') {
        data = undefined;
      } else {
        const headerType = response.headers.get('content-type') || '';
        const contentType = declaredResponseType || headerType;
        if (contentType.includes('application/json')) {
          data = await response.json();
        } else if (contentType.startsWith('text/')) {
          data = await response.text();
        } else {
          data = await response.arrayBuffer();
        }
      }
    } catch (err) {
      data = undefined;
    }

    const responseCtx: ResponseContext = {
      url,
      method,
      init: finalInit,
      status: response.status,
      statusText: response.statusText,
      data,
    };
    if (this.config.onResponse) await this.config.onResponse(responseCtx);

    if (!response.ok) {
      throw new HttpError('HTTP ' + response.status + ' ' + response.statusText, response.status, data);
    }

    return data as Response;
  }
}
".

(** [function renderTransportFile()] *)
Definition renderTransportFile : GeneratedFile :=
  {| filename := "transport.ts"; content := transportSource |}.

Record EndpointInfo : Type := {
  info_endpoint : EndpointDefinition;
  info_segments : list string;
}.

(** [service.endpoints.map((endpoint, index) => ...)] *)
Definition endpointInfos (service : ServiceDefinition) : list EndpointInfo :=
  mapi (fun endpoint index =>
          let fallbackBase := orString (ep_name endpoint) (ep_id endpoint) in
          {| info_endpoint := endpoint;
             info_segments := extractPathSegments (ep_path endpoint) fallbackBase index |})
       0 (svc_endpoints service).

Definition pathKey (info : EndpointInfo) : string := Str.join "/" (info_segments info).

(** [const pathUsageCounts = new Map<string, number>()] after the counting
    loop *)
Definition pathUsageCounts (infos : list EndpointInfo) : gmap string nat :=
  fold_left (fun (counts : gmap string nat) info =>
               <[pathKey info := default 0 (counts !! pathKey info) + 1]> counts)
            infos ∅.

(** The file name the body of [endpointInfos.map(info => ...)] computes. *)
Definition endpointFilename (counts : gmap string nat) (info : EndpointInfo) : string :=
  let segments := info_segments info in
  let occurrence := default 0 (counts !! pathKey info) in
  let dirSegments :=
    if (1 <? length segments)%nat then removelast segments else segments in
  let baseSegment := List.last segments "endpoint" in
  let fileBase :=
    if (1 <? occurrence)%nat
    then baseSegment +:+ "-" +:+ Str.toLowerCase (methodName (ep_method (info_endpoint info)))
    else baseSegment in
  match dirSegments with
  | [] => fileBase +:+ ".ts"
  | _ => Path.join (dirSegments ++ [fileBase +:+ ".ts"])
  end.

(** [const endpointFiles = endpointInfos.map(info => ...)] *)
Definition endpointFiles (service : ServiceDefinition) : list GeneratedFile :=
  let infos := endpointInfos service in
  let counts := pathUsageCounts infos in
  List.map (fun info =>
              let target := endpointFilename counts info in
              let transportImportPath :=
                computeRelativeModulePath target (filename renderTransportFile) in
              renderEndpointFile (info_endpoint info) target transportImportPath)
           infos.

Definition exportLine (filename : string) : string :=
  "export * from './" +:+ Str.stripTsSuffix filename +:+ "';".

(** [export function generateClientSource(service, options?)] *)
Definition generateClientSource (service : ServiceDefinition) (options : option CodegenOptions)
  : GeneratedBundle :=
  let entryFileName := orString (options ≫= entryFileName) "index.ts" in
  let extension := extensionName (default ExtTs (options ≫= fileExtension)) in
  let transportFile := renderTransportFile in
  let endpointFiles := endpointFiles service in
  let exportLines := List.map (fun file => exportLine (filename file)) endpointFiles in
  let files := transportFile :: endpointFiles in
  let typesFile := renderTypesFile service in
  let files :=
    match typesFile with
    | Some typesFile => transportFile :: typesFile :: endpointFiles
    | None => files
    end in
  let exportLines :=
    match typesFile with
    | Some typesFile => exportLine (filename typesFile) :: exportLines
    | None => exportLines
    end in
  let exportLines := exportLine (filename transportFile) :: exportLines in
  let entryFile :=
    {| filename :=
         if Str.endsWith entryFileName ("." +:+ extension) then entryFileName
         else entryFileName +:+ "." +:+ extension;
       content := Str.join Str.nl exportLines +:+ Str.nl |} in
  {| entrypoint := filename entryFile; files := entryFile :: files |}.

End Generator.


(** ** The invoke stage: [contracts.ts] and [InvokeStage] *)

Module Invoke.
Import Js Types.

Section WithWorld.

Variable World : Type.

Local Abbreviation IO := (Fetch.IO World).

(** [interface InvokeSourceConfig] *)
Record InvokeSourceConfig : Type := {
  src_type : string;
  src_name : option string;
  src_request : option (Fetch.ApiDocSource World);
  src_document : value;
  src_options : value;
  src_metadata : value;
}.

(** [interface InvokeSourceAdapter].  [canHandle] is a synchronous test
    that answers or throws; [fetch] and [parse] run against the world. *)
Record InvokeSourceAdapter : Type := {
  adapter_type : string;
  canHandle : InvokeSourceConfig → result bool;
  fetch : InvokeSourceConfig → IO value;
  parse : value → InvokeSourceConfig → IO ServiceDefinition;
}.

(** [interface UnifiedInvokeDocument] *)
Record UnifiedInvokeDocument : Type := {
  doc_type : string;
  doc_name : option string;
  doc_rawDocument : value;
  doc_serviceDefinition : ServiceDefinition;
  doc_metadata : value;
  doc_adapter : string;
}.

(** [interface InvokeSourceError] *)
Record InvokeSourceError : Type := {
  err_type : string;
  err_name : option string;
  err_message : string;
  err_cause : option error;
}.

(** [interface InvokeStageConfig] *)
Record InvokeStageConfig : Type := {
  sources : list InvokeSourceConfig;
  adapters : option (list InvokeSourceAdapter);
  continueOnError : option bool;
  skip : option bool;
}.

(** [interface InvokeStageResult] *)
Record InvokeStageResult : Type := {
  documents : list UnifiedInvokeDocument;
  errors : option (list InvokeSourceError);
}.

(** [interface DocSyncContext] ([pipeline/types.ts]): the shared run context. *)
Record DocSyncContext : Type := {
  rawDocument : value;
  serviceDefinition : option ServiceDefinition;
  invokeResults : option InvokeStageResult;
  normalizedService : option ServiceDefinition;
  generatedBundle : option Generator.GeneratedBundle;
  parserName : option string;
}.

(** [error instanceof Error ? error.message : String(error)] *)
Definition messageOf (e : error) : string :=
  match e with
  | TypeError m | Error m => m
  end.

(** [private findAdapter(adapters, source)]: the adapters are asked in
    order; an exception of a [canHandle] ends the search. *)
Fixpoint findAdapter (adapters : list InvokeSourceAdapter) (source : InvokeSourceConfig)
  : result (option InvokeSourceAdapter) :=
  match adapters with
  | [] => Ok None
  | adapter :: rest =>
      match canHandle adapter source with
      | Throw e => Throw e
      | Ok true => Ok (Some adapter)
      | Ok false => findAdapter rest source
      end
  end.

(** [map.set(adapter.type, adapter)] on an insertion-ordered [Map] *)
Fixpoint mapSet (adapter : InvokeSourceAdapter) (entries : list InvokeSourceAdapter)
  : list InvokeSourceAdapter :=
  match entries with
  | [] => [adapter]
  | entry :: rest =>
      if String.eqb (adapter_type entry) (adapter_type adapter)
      then adapter :: rest
      else entry :: mapSet adapter rest
  end.

(** [private resolveAdapters(custom?)], for a stage constructed with
    [defaultAdapters] *)
Definition resolveAdapters (defaultAdapters : list InvokeSourceAdapter)
    (custom : option (list InvokeSourceAdapter)) : list InvokeSourceAdapter :=
  match custom with
  | None | Some [] => defaultAdapters
  | Some custom =>
      fold_left (fun entries adapter => mapSet adapter entries) custom
        (fold_left (fun entries adapter => mapSet adapter entries) defaultAdapters [])
  end.

(** [constructor(adapters?)]: the stage's own adapter list.  The built-in
    list [DEFAULT_ADAPTERS] is taken as given. *)
Definition newInvokeStage (DEFAULT_ADAPTERS : list InvokeSourceAdapter)
    (adapters : option (list InvokeSourceAdapter)) : list InvokeSourceAdapter :=
  match adapters with
  | None | Some [] => DEFAULT_ADAPTERS
  | Some adapters => adapters
  end.

(** [private wrapError(type, message, cause)] *)
Definition wrapError (type message : string) : error :=
  Error ("[InvokeStage] Adapter " +:+ Str.dquote +:+ type +:+ Str.dquote
           +:+ " failed: " +:+ message).

Definition noAdapterMessage (type : string) : string :=
  "No adapter registered for source type " +:+ Str.dquote +:+ type +:+ Str.dquote +:+ ".".

(** The accumulators of the loop over [config.sources]. *)
Definition acc : Type := list UnifiedInvokeDocument * list InvokeSourceError.

(** The body of [for (const source of config.sources)]: one source against
    the resolved adapters.  A thrown error leaves the loop (and the stage).
    The call of [findAdapter] stands before the [try]: what a [canHandle]
    throws leaves the stage as it is, whatever [continueOnError] says. *)
Definition processSource (adapterList : list InvokeSourceAdapter) (continue : bool)
    (state : acc) (source : InvokeSourceConfig) : IO acc :=
  let '(docs, errs) := state in
  match findAdapter adapterList source with
  | Throw e => Fetch.throw World e
  | Ok None =>
      let message := noAdapterMessage (src_type source) in
      let err := {| err_type := src_type source; err_name := src_name source;
                    err_message := message; err_cause := None |} in
      if continue then Fetch.ret World (docs, errs ++ [err])
      else Fetch.throw World (wrapError (src_type source) message)
  | Ok (Some adapter) => fun w =>
      (* try { raw = await adapter.fetch(source);
               serviceDefinition = await adapter.parse(raw, source); ... } *)
      let attempt :=
        Fetch.bind World (fetch adapter source) (fun raw =>
        Fetch.bind World (parse adapter raw source) (fun serviceDefinition =>
        Fetch.ret World
          {| doc_type := adapter_type adapter;
             doc_name := Some (default (adapter_type adapter) (src_name source));
             doc_rawDocument := raw;
             doc_serviceDefinition := serviceDefinition;
             doc_metadata := src_metadata source;
             doc_adapter := adapter_type adapter |})) in
      match attempt w with
      | (Ok doc, w') => (Ok (docs ++ [doc], errs), w')
      | (Throw e, w') =>
          (* catch (error) { ... } *)
          let message := messageOf e in
          let err := {| err_type := src_type source; err_name := src_name source;
                        err_message := message; err_cause := Some e |} in
          if continue then (Ok (docs, errs ++ [err]), w')
          else (Throw (wrapError (adapter_type adapter) message), w')
      end
  end.

Fixpoint forEachSource (adapterList : list InvokeSourceAdapter) (continue : bool)
    (sourceList : list InvokeSourceConfig) (state : acc) : IO acc :=
  match sourceList with
  | [] => Fetch.ret World state
  | source :: rest =>
      Fetch.bind World (processSource adapterList continue state source)
        (forEachSource adapterList continue rest)
  end.

(** [async execute(context, config?)] of a stage constructed with
    [defaultAdapters]: the stage's result and the context it leaves. *)
Definition execute (defaultAdapters : list InvokeSourceAdapter)
    (context : DocSyncContext) (config : option InvokeStageConfig)
  : IO (option InvokeStageResult * DocSyncContext) :=
  match config with
  | None => Fetch.ret World (None, context)
  | Some config =>
      if default false (skip config) then Fetch.ret World (None, context)
      else
        match sources config with
        | [] => Fetch.throw World (Error "[InvokeStage] At least one source must be provided.")
        | _ =>
            let adapterList := resolveAdapters defaultAdapters (adapters config) in
            let continue := default true (continueOnError config) in
            Fetch.bind World (forEachSource adapterList continue (sources config) ([], []))
              (fun state =>
                 let result :=
                   {| documents := fst state;
                      errors := match snd state with [] => None | errs => Some errs end |} in
                 Fetch.ret World
                   (Some result,
                    {| rawDocument := rawDocument context;
                       serviceDefinition := serviceDefinition context;
                       invokeResults := Some result;
                       normalizedService := normalizedService context;
                       generatedBundle := generatedBundle context;
                       parserName := parserName context |}))
        end
  end.

(** *** [pipeline/index.ts]: choosing the primary document *)

Definition matchesSource (source : InvokeSourceConfig) (doc : UnifiedInvokeDocument) : bool :=
  let key := default (src_type source) (src_name source) in
  match doc_name doc with
  | Some name => String.eqb name key
  | None => false
  end
  || String.eqb (doc_type doc) (src_type source).

(** [doc.metadata?.primary === true] *)
Definition markedPrimary (doc : UnifiedInvokeDocument) : bool :=
  strictEq (getOpt (doc_metadata doc) "primary") (VBool true).

(** The loop over [config.sources] inside [selectPrimaryDocument]. *)
Fixpoint firstMatch (sourceList : list InvokeSourceConfig) (docs : list UnifiedInvokeDocument)
  : option UnifiedInvokeDocument :=
  match sourceList with
  | [] => None
  | source :: rest =>
      match List.find (matchesSource source) docs with
      | Some match_ => Some match_
      | None => firstMatch rest docs
      end
  end.

(** [function selectPrimaryDocument(result, config?)] *)
Definition selectPrimaryDocument (result : option InvokeStageResult)
    (config : option InvokeStageConfig) : option UnifiedInvokeDocument :=
  match result with
  | None => None
  | Some result =>
      match documents result with
      | [] => None
      | first :: _ =>
          match firstMatch (default [] (sources <$> config)) (documents result) with
          | Some match_ => Some match_
          | None =>
              match List.find markedPrimary (documents result) with
              | Some preferred => Some preferred
              | None => Some first
              end
          end
      end
  end.

(** The step of [DocSyncPipeline.run] between the invoke stage and the
    missing-definition check: [if (!context.serviceDefinition) { ... }].
    [stageResult] is [stageResults[this.invokeStage.name]]. *)
Definition adoptPrimaryDocument (context : DocSyncContext)
    (stageResult : option InvokeStageResult) (invokeConfig : option InvokeStageConfig)
  : DocSyncContext :=
  match serviceDefinition context with
  | Some _ => context
  | None =>
      let invokeResult :=
        match invokeResults context with
        | Some r => Some r
        | None => stageResult
        end in
      match selectPrimaryDocument invokeResult invokeConfig with
      | Some primaryDocument =>
          {| rawDocument :=
               match rawDocument context with
               | VUndefined => doc_rawDocument primaryDocument
               | raw => raw
               end;
             serviceDefinition := Some (doc_serviceDefinition primaryDocument);
             invokeResults := invokeResults context;
             normalizedService := normalizedService context;
             generatedBundle := generatedBundle context;
             parserName :=
               match parserName context with
               | None => Some (doc_adapter primaryDocument)
               | name => name
               end |}
      | None => context
      end
  end.

End WithWorld.

Arguments src_type {World}.
Arguments src_name {World}.
Arguments src_request {World}.
Arguments src_document {World}.
Arguments src_options {World}.
Arguments src_metadata {World}.
Arguments adapter_type {World}.
Arguments canHandle {World}.
Arguments fetch {World}.
Arguments parse {World}.
Arguments sources {World}.
Arguments adapters {World}.
Arguments continueOnError {World}.
Arguments skip {World}.
Arguments findAdapter {World}.
Arguments mapSet {World}.
Arguments resolveAdapters {World}.
Arguments newInvokeStage {World}.
Arguments processSource {World}.
Arguments forEachSource {World}.
Arguments execute {World}.
Arguments matchesSource {World}.
Arguments firstMatch {World}.
Arguments selectPrimaryDocument {World}.
Arguments adoptPrimaryDocument {World}.

End Invoke.

(** ** The parser stage ([parser-stage.ts]) and [parseServiceDefinition]
    ([api-doc-sync.ts]): format detection over a list of parsers *)

Module Parser.
Import Js Types.

(** [interface ParseContext] *)
Record ParseContext : Type := {
  baseUrl : option string;
  options : value;
}.

(** [interface DocSourceParser].  [canParse] and [parse] are supplied by the
    caller and may throw; [canParse] is read for its truthiness. *)
Record DocSourceParser : Type := {
  name : string;
  canParse : value → result bool;
  parse : value → result ServiceDefinition;
  parseWithContext : option (value → ParseContext → result ServiceDefinition);
}.

(** [interface ParserStageConfig] *)
Record ParserStageConfig : Type := {
  cfg_source : value;
  cfg_prefer : option string;
  cfg_parsers : option (list DocSourceParser);
  cfg_context : option ParseContext;
  cfg_service : option ServiceDefinition;
  cfg_skip : option bool;
}.

(** [interface ParserStageResult] *)
Record ParserStageResult : Type := {
  res_rawDocument : value;
  res_serviceDefinition : ServiceDefinition;
  res_parserName : string;
}.


(** [{}] as a [ParseContext] *)
Definition emptyParseContext : ParseContext := {| baseUrl := None; options := VUndefined |}.

(** [parser.parseWithContext ? parser.parseWithContext(raw, context)
    : parser.parse(raw)] *)
Definition parseOf (parser : DocSourceParser) (raw : value) (context : ParseContext)
  : result ServiceDefinition :=
  match parseWithContext parser with
  | Some withContext => withContext raw context
  | None => parse parser raw
  end.

Definition unableToParse (prefer : option string) : error :=
  let hint :=
    if truthyString prefer then " (prefer=" +:+ default "" prefer +:+ ")" else "" in
  Error ("[ParserStage] Unable to parse document with provided parsers" +:+ hint +:+ ".").


Section WithSort.

(** [Array.prototype.sort] with a comparison function.  The comparators
    below tell the preferred parser from the others and nothing else, so the
    order [sort] produces is left to the engine; the model takes the sorting
    function as given. *)
Variable sort :
  (DocSourceParser → DocSourceParser → Z) → list DocSourceParser → list DocSourceParser.

(** The comparison function of both call sites:
    [(a, b) => a.name === wanted ? -1 : b.name === wanted ? 1 : 0] *)
Definition preferFirst (wanted : string) (a b : DocSourceParser) : Z :=
  if String.eqb (name a) wanted then (-1)%Z
  else if String.eqb (name b) wanted then 1%Z
  else 0%Z.

(** [function orderParsers(parsers, prefer?)] *)
Definition orderParsers (parsers : list DocSourceParser) (prefer : option string)
  : list DocSourceParser :=
  if negb (truthyString prefer) then parsers
  else
    let lowered := Str.toLowerCase (default "" prefer) in
    sort (preferFirst lowered) parsers.

(** The loop [for (const parser of ordered) { try { ... } catch { } }] of
    [ParserStage.execute]: the first parser that accepts the document and
    parses it, with the definition it returned. *)
Fixpoint firstParsed (ordered : list DocSourceParser) (rawDocument : value)
    (context : ParseContext) : option (DocSourceParser * ServiceDefinition) :=
  match ordered with
  | [] => None
  | parser :: rest =>
      let attempt :=
        let! accepted := canParse parser rawDocument in
        if negb accepted then Ok None
        else let! service := parseOf parser rawDocument context in Ok (Some service) in
      match attempt with
      | Ok (Some service) => Some (parser, service)
      | Ok None => firstParsed rest rawDocument context      (* continue *)
      | Throw _ => firstParsed rest rawDocument context      (* catch { } *)
      end
  end.

(** [async execute(context, config?)] of a stage whose built-in parser list
    is [DEFAULT_PARSERS]: the context the stage leaves, and what it returns
    or throws. *)
Definition execute (DEFAULT_PARSERS : list DocSourceParser)
    (context : Invoke.DocSyncContext) (config : option ParserStageConfig)
  : Invoke.DocSyncContext * result (option ParserStageResult) :=
  let withRaw (context : Invoke.DocSyncContext) (raw : value) :=
    {| Invoke.rawDocument := raw;
       Invoke.serviceDefinition := Invoke.serviceDefinition context;
       Invoke.invokeResults := Invoke.invokeResults context;
       Invoke.normalizedService := Invoke.normalizedService context;
       Invoke.generatedBundle := Invoke.generatedBundle context;
       Invoke.parserName := Invoke.parserName context |} in
  let withService (context : Invoke.DocSyncContext) (service : ServiceDefinition)
                  (parserName : string) :=
    {| Invoke.rawDocument := Invoke.rawDocument context;
       Invoke.serviceDefinition := Some service;
       Invoke.invokeResults := Invoke.invokeResults context;
       Invoke.normalizedService := Invoke.normalizedService context;
       Invoke.generatedBundle := Invoke.generatedBundle context;
       Invoke.parserName := Some parserName |} in
  match config, Invoke.serviceDefinition context with
  | None, Some service =>
      (context,
       Ok (Some {| res_rawDocument := coalesce (Invoke.rawDocument context) VNull;
                   res_serviceDefinition := service;
                   res_parserName := default "unknown" (Invoke.parserName context) |}))
  | _, _ =>
      if default false (config ≫= cfg_skip) then (context, Ok None)
      else
        match config ≫= cfg_service with
        | Some service =>
            let source := default VUndefined (cfg_source <$> config) in
            let context :=
              match source with
              | VUndefined => context
              | _ => withRaw context source
              end in
            let context := withService context service "provided" in
            (context,
             Ok (Some {| res_rawDocument := coalesce (Invoke.rawDocument context) VNull;
                         res_serviceDefinition := service;
                         res_parserName := "provided" |}))
        | None =>
            let rawDocument :=
              coalesce (default VUndefined (cfg_source <$> config))
                       (Invoke.rawDocument context) in
            match rawDocument with
            | VUndefined =>
                (context, Throw (Error "[ParserStage] Missing source document for parsing."))
            | _ =>
                let context := withRaw context rawDocument in
                let parsers :=
                  match config ≫= cfg_parsers with
                  | Some (parser :: rest) => parser :: rest
                  | _ => DEFAULT_PARSERS
                  end in
                let ordered := orderParsers parsers (config ≫= cfg_prefer) in
                let parseContext := default emptyParseContext (config ≫= cfg_context) in
                match firstParsed ordered rawDocument parseContext with
                | Some (parser, service) =>
                    (withService context service (name parser),
                     Ok (Some {| res_rawDocument := rawDocument;
                                 res_serviceDefinition := service;
                                 res_parserName := name parser |}))
                | None => (context, Throw (unableToParse (config ≫= cfg_prefer)))
                end
            end
        end
  end.


End WithSort.

End Parser.

(** ** The normalizer stage over an explicit object store

    Whether the stage mutates the definition it was given is a question about
    object identity, so this module keeps JavaScript objects in a store: a
    location is an index into the store, an object is its list of properties
    (an array is the object keyed by its indices), and a property holds a
    primitive or a reference.  Allocation appends to the store. *)

Module Normalizer.

Abbreviation loc := nat.

Inductive prim : Type :=
| PUndefined
| PNull
| PBool (b : bool)
| PNum (n : Z)
| PStr (s : string).

Inductive val : Type :=
| VPrim (p : prim)
| VRef (l : loc).

Abbreviation obj := (list (string * val)).
Abbreviation heap := (list obj).

Definition alloc (h : heap) (o : obj) : heap * loc := (h ++ [o], length h).

Fixpoint getField (k : string) (o : obj) : val :=
  match o with
  | [] => VPrim PUndefined
  | (k', v) :: rest => if String.eqb k k' then v else getField k rest
  end.

(** [o[k] = v]: in place for an existing key, appended otherwise. *)
Fixpoint setField (k : string) (v : val) (o : obj) : obj :=
  match o with
  | [] => [(k, v)]
  | (k', v') :: rest =>
      if String.eqb k k' then (k, v) :: rest else (k', v') :: setField k v rest
  end.

(** [h[l][k] = v] *)
Definition store (l : loc) (k : string) (v : val) (h : heap) : heap :=
  match h !! l with
  | Some o => <[l := setField k v o]> h
  | None => h
  end.


(** The store holds no dangling reference. *)
Definition wellFormed (h : heap) : bool :=
  forallb (forallb (fun kv : string * val =>
                      match snd kv with
                      | VRef l => (l <? length h)%nat
                      | VPrim _ => true
                      end)) h.

(** *** [cloneService]

    [structuredClone] copies the object graph below its argument: every
    object reached is copied once (shared and cyclic references are followed
    through the [memo] of copies already made) into a freshly allocated
    object.  [fuel] bounds the depth of the descent; the store's size always
    suffices for it.  The JSON round trip of the fallback branch allocates
    fresh objects in the same way. *)

Abbreviation memo := (list (loc * loc)).

Fixpoint copyOf (l : loc) (m : memo) : option loc :=
  match m with
  | [] => None
  | (old, new) :: rest => if (old =? l)%nat then Some new else copyOf l rest
  end.

(** Copies the properties of one object in order, threading the store and
    the memo through the copies of their values. *)
Definition cloneFields (clone : val → heap → memo → option (val * heap * memo))
  : obj → heap → memo → option (obj * heap * memo) :=
  fix go (fields : obj) (h : heap) (m : memo) : option (obj * heap * memo) :=
    match fields with
    | [] => Some ([], h, m)
    | (k, v) :: rest =>
        match clone v h m with
        | Some (v', h1, m1) =>
            match go rest h1 m1 with
            | Some (rest', h2, m2) => Some ((k, v') :: rest', h2, m2)
            | None => None
            end
        | None => None
        end
    end.

Fixpoint cloneVal (fuel : nat) (v : val) (h : heap) (m : memo)
  : option (val * heap * memo) :=
  match v with
  | VPrim p => Some (VPrim p, h, m)
  | VRef l =>
      match copyOf l m with
      | Some l' => Some (VRef l', h, m)
      | None =>
          match fuel with
          | O => None
          | S fuel' =>
              match h !! l with
              | None => None
              | Some o =>
                  (* the copy is allocated first, so that a cycle back to [l]
                     finds it in the memo, and filled in afterwards *)
                  let l' := length h in
                  match cloneFields (cloneVal fuel') o (h ++ [[]]) ((l, l') :: m) with
                  | Some (o', h2, m2) => Some (VRef l', <[l' := o']> h2, m2)
                  | None => None
                  end
              end
          end
      end
  end.

(** [function cloneService(service)]: the store after the copy and the
    location of the copy. *)
Definition cloneService (service : loc) (h : heap) : option (heap * loc) :=
  match cloneVal (S (length h)) (VRef service) h [] with
  | Some (VRef l', h', _) => Some (h', l')
  | _ => None
  end.

(** *** The stage's configuration ([NormalizerStageConfig]) *)

(** A transform receives the working definition and may mutate the store;
    it returns nothing or a replacement, or throws. *)
Record Transform : Type := {
  tr_name : string;
  tr_run : loc → heap → heap * result (option loc);
}.

(** [interface NormalizerExtension] *)
Record Extension : Type := {
  ext_name : string;
  ext_normalize : val → heap → heap * result (option loc);
}.

Record Input : Type := {
  input_key : option string;
  input_payload : val;
}.

Record NormalizerStageConfig : Type := {
  cfg_service : option loc;
  cfg_transforms : option (list Transform);
  cfg_extensions : option (list Extension);
  cfg_inputs : option (list Input);
  cfg_skip : option bool;
}.

(** The two properties of [DocSyncContext] the stage reads and writes. *)
Record Context : Type := {
  normalizedService : option loc;
  serviceDefinition : option loc;
}.

(** [interface NormalizerStageResult] *)
Record NormalizerStageResult : Type := {
  res_serviceDefinition : loc;
  res_normalizedTypes : option loc;
  res_appliedTransforms : option (list string);
  res_appliedExtensions : option (list string);
}.

(** [function ensureArray(value?)] *)
Definition ensureArray {A} (value : option (list A)) : list A := default [] value.

(** The loop [for (let idx = 0; idx < transforms.length; idx += 1)]. *)
Fixpoint applyTransforms (transforms : list Transform) (idx : nat) (working : loc)
    (appliedTransforms : list string) (h : heap)
  : heap * result (loc * list string) :=
  match transforms with
  | [] => (h, Ok (working, appliedTransforms))
  | transform :: rest =>
      match tr_run transform working h with
      | (h', Throw e) => (h', Throw e)
      | (h', Ok maybe) =>
          let tag :=
            if Str.nonEmpty (tr_name transform) then tr_name transform
            else "transform#" +:+ natToString (idx + 1) in
          let working' :=
            match maybe with
            | Some replacement =>
                if (replacement =? working)%nat then working else replacement
            | None => working
            end in
          applyTransforms rest (S idx) working' (appliedTransforms ++ [tag]) h'
      end
  end.

(** [appliedExtensions.add(name)] on a [Set] *)
Definition setAdd (name : string) (names : list string) : list string :=
  if existsb (String.eqb name) names then names else names ++ [name].

(** The state of the two nested loops over inputs and extensions. *)
Record collectState : Type := CollectState {
  cs_heap : heap;
  cs_applied : list string;
  cs_changed : bool;
}.

(** The inner loop, over the extensions, for one input. *)
Fixpoint applyExtensions (collected : loc) (input : Input) (inputIndex : nat)
    (extensions : list Extension) (extIndex : nat) (st : collectState)
  : collectState * result unit :=
  match extensions with
  | [] => (st, Ok tt)
  | extension :: rest =>
      match ext_normalize extension (input_payload input) (cs_heap st) with
      | (h', Throw e) => (CollectState h' (cs_applied st) (cs_changed st), Throw e)
      | (h', Ok None) =>
          applyExtensions collected input inputIndex rest (S extIndex)
            (CollectState h' (cs_applied st) (cs_changed st))
      | (h', Ok (Some schema)) =>
          let key :=
            default (ext_name extension +:+ "-" +:+ natToString inputIndex
                       +:+ "-" +:+ natToString extIndex)
                    (input_key input) in
          applyExtensions collected input inputIndex rest (S extIndex)
            (CollectState (store collected key (VRef schema) h')
                          (setAdd (ext_name extension) (cs_applied st)) true)
      end
  end.

(** The outer loop, over the inputs. *)
Fixpoint applyInputs (collected : loc) (inputs : list Input) (inputIndex : nat)
    (extensions : list Extension) (st : collectState)
  : collectState * result unit :=
  match inputs with
  | [] => (st, Ok tt)
  | input :: rest =>
      match applyExtensions collected input inputIndex extensions 0 st with
      | (st', Throw e) => (st', Throw e)
      | (st', Ok _) => applyInputs collected rest (S inputIndex) extensions st'
      end
  end.

(** [{ ...(working.types ?? {}) }]: the properties copied into [collected]. *)
Definition typesOf (h : heap) (working : loc) : obj :=
  match getField "types" (default [] (h !! working)) with
  | VRef types => default [] (h !! types)
  | VPrim _ => []
  end.

Definition cloneFailed : error :=
  TypeError "Converting circular structure to JSON".

(** [const baseService = config?.service ?? context.normalizedService
    ?? context.serviceDefinition] *)
Definition baseService (context : Context) (config : option NormalizerStageConfig)
  : option loc :=
  match config ≫= cfg_service with
  | Some s => Some s
  | None =>
      match normalizedService context with
      | Some s => Some s
      | None => serviceDefinition context
      end
  end.

(** [async execute(context, config?)]: the store and the context the stage
    leaves, and what it returns or throws. *)
Definition execute (context : Context) (config : option NormalizerStageConfig) (h : heap)
  : heap * Context * result (option NormalizerStageResult) :=
  if default false (config ≫= cfg_skip) then (h, context, Ok None)
  else
    match baseService context config with
    | None => (h, context, Ok None)
    | Some base =>
        match cloneService base h with
        | None => (h, context, Throw cloneFailed)
        | Some (h1, working) =>
            let transforms := ensureArray (config ≫= cfg_transforms) in
            match applyTransforms transforms 0 working [] h1 with
            | (h2, Throw e) => (h2, context, Throw e)
            | (h2, Ok (working, appliedTransforms)) =>
                let extensions := ensureArray (config ≫= cfg_extensions) in
                let inputs := ensureArray (config ≫= cfg_inputs) in
                let finish (h : heap) (working : loc) (normalizedTypes : option loc)
                           (appliedExtensions : list string) :=
                  (h,
                   {| normalizedService := Some working;
                      serviceDefinition := Some working |},
                   Ok (Some {| res_serviceDefinition := working;
                               res_normalizedTypes := normalizedTypes;
                               res_appliedTransforms :=
                                 match appliedTransforms with
                                 | [] => None
                                 | tags => Some tags
                                 end;
                               res_appliedExtensions :=
                                 match appliedExtensions with
                                 | [] => None
                                 | names => Some names
                                 end |})) in
                match extensions, inputs with
                | _ :: _, _ :: _ =>
                    let '(h3, collected) := alloc h2 (typesOf h2 working) in
                    match applyInputs collected inputs 0 extensions
                            (CollectState h3 [] false) with
                    | (st, Throw e) => (cs_heap st, context, Throw e)
                    | (st, Ok _) =>
                        if cs_changed st then
                          let '(h4, working') :=
                            alloc (cs_heap st)
                              (setField "types" (VRef collected)
                                 (default [] (cs_heap st !! working))) in
                          finish h4 working' (Some collected) (cs_applied st)
                        else finish (cs_heap st) working None (cs_applied st)
                    end
                | _, _ => finish h2 working None []
                end
            end
        end
    end.

End Normalizer.

(** ** Vocabulary of the statements

    Predicates and functions the theorems of Part II are stated with. *)

(** The guard of [isSwaggerLike] keeps [in] away from primitives: the test
    holds exactly of plain objects with a [paths] key. *)
Definition swaggerLike (v : Js.value) : bool :=
  match v with
  | Js.VObj fs => Js.hasField "paths" fs
  | _ => false
  end.

(** The strategies other than ["swagger"], ["openapi"] and a caller's
    function: no strategy at all, ["auto"], ["first"] and ["json-array"]. *)
Definition lenientStrategy (strategy : option Merge.MergeStrategy) : Prop :=
  strategy = None
  ∨ strategy = Some (Merge.StrategyName "auto")
  ∨ strategy = Some (Merge.StrategyName "first")
  ∨ strategy = Some (Merge.StrategyName "json-array").

(** The error the stage records for a source whose adapter threw [e]. *)
Definition sourceError {World} (source : Invoke.InvokeSourceConfig World) (e : error)
  : Invoke.InvokeSourceError :=
  {| Invoke.err_type := Invoke.src_type source;
     Invoke.err_name := Invoke.src_name source;
     Invoke.err_message := Invoke.messageOf e;
     Invoke.err_cause := Some e |}.

(** The document the stage records for a source parsed by [adapter]. *)
Definition sourceDocument {World} (adapter : Invoke.InvokeSourceAdapter World)
    (source : Invoke.InvokeSourceConfig World) (raw : Js.value)
    (definition : Types.ServiceDefinition) : Invoke.UnifiedInvokeDocument :=
  {| Invoke.doc_type := Invoke.adapter_type adapter;
     Invoke.doc_name :=
       Some (default (Invoke.adapter_type adapter) (Invoke.src_name source));
     Invoke.doc_rawDocument := raw;
     Invoke.doc_serviceDefinition := definition;
     Invoke.doc_metadata := Invoke.src_metadata source;
     Invoke.doc_adapter := Invoke.adapter_type adapter |}.

(** [x] is the first element of [l] that satisfies [p]. *)
Definition firstSuch {A} (p : A → bool) (l : list A) (x : A) : Prop :=
  ∃ before after, l = before ++ x :: after ∧ p x = true ∧ ∀ y, In y before → p y = false.

(** The [kind] the converter assigns to a non-empty type name. *)
Definition kindOfTypeName (name : Js.value) : Js.value :=
  if Js.strictEq name (Js.VStr "object") || Js.strictEq name (Js.VStr "array")
     || Js.strictEq name (Js.VStr "string") || Js.strictEq name (Js.VStr "number")
     || Js.strictEq name (Js.VStr "integer") || Js.strictEq name (Js.VStr "boolean")
     || Js.strictEq name (Js.VStr "null")
  then name else Js.VStr "unknown".








(** For the termination of the copy: the objects of [h0] are still there,
    and the memo records each copied object of [h0] once. *)
Definition cloneProgress (h0 h : Normalizer.heap) (m : Normalizer.memo) : Prop :=
  (∀ l o, h0 !! l = Some o → h !! l = Some o)
  ∧ List.NoDup (List.map fst m)
  ∧ (∀ old, In old (List.map fst m) → (old < length h0)%nat).

(** ** Example inputs

    Concrete documents, services, adapters and stores on which Part II
    evaluates the code. *)

Definition failingDiscovery : Fetch.DiscoverySource unit :=
  {| Fetch.discovery := Fetch.SrcString "https://example.test/discover";
     Fetch.resolveRequests := fun _ w => (Throw (Error "resolver failed"), w);
     Fetch.mergeStrategy := None |}.

Definition emptyService : Types.ServiceDefinition :=
  {| Types.svc_title := None; Types.svc_version := None; Types.svc_description := None;
     Types.svc_servers := None; Types.svc_types := None; Types.svc_endpoints := [];
     Types.svc_source := None |}.

(** Two adapters that both accept every source: the first rejects every
    payload when parsing, the second parses every payload. *)
Definition strictAdapter : Invoke.InvokeSourceAdapter unit :=
  {| Invoke.adapter_type := "strict";
     Invoke.canHandle := fun _ => Ok true;
     Invoke.fetch := fun source w => (Ok (Invoke.src_document source), w);
     Invoke.parse := fun _ _ w => (Throw (Error "Payload is not a strict document."), w) |}.

Definition lenientAdapter : Invoke.InvokeSourceAdapter unit :=
  {| Invoke.adapter_type := "lenient";
     Invoke.canHandle := fun _ => Ok true;
     Invoke.fetch := fun source w => (Ok (Invoke.src_document source), w);
     Invoke.parse := fun _ _ w => (Ok emptyService, w) |}.

Definition inlineSource : Invoke.InvokeSourceConfig unit :=
  {| Invoke.src_type := "custom"; Invoke.src_name := Some "inline";
     Invoke.src_request := None; Invoke.src_document := Js.VObj [];
     Invoke.src_options := Js.VUndefined; Invoke.src_metadata := Js.VUndefined |}.

Definition emptyContext : Invoke.DocSyncContext :=
  {| Invoke.rawDocument := Js.VUndefined; Invoke.serviceDefinition := None;
     Invoke.invokeResults := None; Invoke.normalizedService := None;
     Invoke.generatedBundle := None; Invoke.parserName := None |}.

Definition inlineConfig : Invoke.InvokeStageConfig unit :=
  {| Invoke.sources := [inlineSource]; Invoke.adapters := None;
     Invoke.continueOnError := None; Invoke.skip := None |}.

Definition postmanDocument : Invoke.UnifiedInvokeDocument :=
  {| Invoke.doc_type := "postman"; Invoke.doc_name := Some "collection";
     Invoke.doc_rawDocument := Js.VObj []; Invoke.doc_serviceDefinition := emptyService;
     Invoke.doc_metadata := Js.VObj [("primary", Js.VBool true)];
     Invoke.doc_adapter := "postman" |}.

Definition swaggerDocument : Invoke.UnifiedInvokeDocument :=
  {| Invoke.doc_type := "swagger"; Invoke.doc_name := Some "main";
     Invoke.doc_rawDocument := Js.VObj [("swagger", Js.VStr "2.0")];
     Invoke.doc_serviceDefinition :=
       {| Types.svc_title := Some "main"; Types.svc_version := None;
          Types.svc_description := None; Types.svc_servers := None;
          Types.svc_types := None; Types.svc_endpoints := []; Types.svc_source := None |};
     Invoke.doc_metadata := Js.VUndefined;
     Invoke.doc_adapter := "swagger" |}.

Definition namedSource (type : string) (name : option string) : Invoke.InvokeSourceConfig unit :=
  {| Invoke.src_type := type; Invoke.src_name := name;
     Invoke.src_request := None; Invoke.src_document := Js.VObj [];
     Invoke.src_options := Js.VUndefined; Invoke.src_metadata := Js.VUndefined |}.

Definition twoDocuments : Invoke.InvokeStageResult :=
  {| Invoke.documents := [postmanDocument; swaggerDocument]; Invoke.errors := None |}.

Definition twoSources : Invoke.InvokeStageConfig unit :=
  {| Invoke.sources := [namedSource "apifox" None; namedSource "openapi" (Some "main");
                        namedSource "postman" None];
     Invoke.adapters := None; Invoke.continueOnError := None; Invoke.skip := None |}.

Definition plainEndpoint (id path : string) (method : Types.HttpMethod)
  : Types.EndpointDefinition :=
  {| Types.ep_id := id; Types.ep_name := None; Types.ep_description := None;
     Types.ep_path := path; Types.ep_method := method; Types.ep_tags := None;
     Types.ep_parameters := None; Types.ep_body := None; Types.ep_responses := None |}.

Definition serviceOf (types : option (list (string * Types.Schema)))
    (endpoints : list Types.EndpointDefinition) : Types.ServiceDefinition :=
  {| Types.svc_title := None; Types.svc_version := None; Types.svc_description := None;
     Types.svc_servers := None; Types.svc_types := types;
     Types.svc_endpoints := endpoints; Types.svc_source := None |}.

Definition stringSchema : Types.Schema :=
  Types.PrimitiveSchema Types.KString None
    {| Types.description := None; Types.nullable := None; Types.title := None;
       Types.example := Js.VUndefined |}.

Definition widgetsService : Types.ServiceDefinition :=
  serviceOf None
    [plainEndpoint "getWidget" "/widgets/{id}" Types.GET;
     plainEndpoint "deleteWidget" "/widgets/{id}" Types.DELETE].

Definition petService : Types.ServiceDefinition :=
  serviceOf (Some [("Pet", stringSchema)]) [plainEndpoint "listPets" "/pets" Types.GET].

(** Two operations, [GET /user] and [GET /user/{user}], as an OpenAPI
    document with those two paths yields them. *)
Definition userService : Types.ServiceDefinition :=
  serviceOf None
    [plainEndpoint "getUsers" "/user" Types.GET;
     plainEndpoint "getUserByName" "/user/{user}" Types.GET].

(** A store with a service definition at location 0, its [types] map at 1
    and one schema at 2. *)
Definition petStore : Normalizer.heap :=
  [ [("title", Normalizer.VPrim (Normalizer.PStr "api")); ("types", Normalizer.VRef 1)];
    [("Pet", Normalizer.VRef 2)];
    [("kind", Normalizer.VPrim (Normalizer.PStr "string"))] ].








(** ** Further vocabulary *)

(** The adapter a list registers for a type: the first one of that type. *)
Definition registered {World} (type : string) (l : list (Invoke.InvokeSourceAdapter World))
  : option (Invoke.InvokeSourceAdapter World) :=
  List.find (fun a => String.eqb (Invoke.adapter_type a) type) l.

(** The search for an adapter returns for the source: it finds an adapter
    or finds none, and no [canHandle] it asks throws. *)
Definition selectionReturns {World} (adapters : list (Invoke.InvokeSourceAdapter World))
    (source : Invoke.InvokeSourceConfig World) : Prop :=
  ∃ found, Invoke.findAdapter adapters source = Ok found.

(** A parser gives a document up when its [canParse] declines it or throws,
    or when its parsing function throws. *)
Definition givesUp (parser : Parser.DocSourceParser) (raw : Js.value)
    (context : Parser.ParseContext) : Prop :=
  Parser.canParse parser raw = Ok false
  ∨ (∃ e, Parser.canParse parser raw = Throw e)
  ∨ (∃ e, Parser.parseOf parser raw context = Throw e).

(** A parser handles a document when its [canParse] accepts it and its
    parsing function returns a definition. *)
Definition handles (parser : Parser.DocSourceParser) (raw : Js.value)
    (context : Parser.ParseContext) (service : Types.ServiceDefinition) : Prop :=
  Parser.canParse parser raw = Ok true
  ∧ Parser.parseOf parser raw context = Ok service.

(** The parsers the stage consults: the configured list when it is not
    empty, the built-in list otherwise. *)
Definition configuredParsers (DEFAULT_PARSERS : list Parser.DocSourceParser)
    (config : Parser.ParserStageConfig) : list Parser.DocSourceParser :=
  match Parser.cfg_parsers config with
  | Some (parser :: rest) => parser :: rest
  | _ => DEFAULT_PARSERS
  end.



(** An object whose property names are pairwise distinct, as the properties
    of every JavaScript object are. *)
Definition distinctKeys (fs : Js.object) : Prop := List.NoDup (List.map fst fs).

(** The document lists the path [p]: [p] is a key of its [paths] object. *)
Definition listsPath (p : string) (doc : Js.value) : bool :=
  Js.hasField p (Js.ownEntries (Js.coalesce (Js.getOpt doc "paths") (Js.VObj []))).

(** The strings of a list are pairwise distinct. *)
Fixpoint distinct (l : list string) : bool :=
  match l with
  | [] => true
  | x :: xs => negb (existsb (String.eqb x) xs) && distinct xs
  end.

(** A value as [JSON.parse] yields it: at every depth, the property names
    of an object are pairwise distinct. *)
Fixpoint properValue (v : Js.value) : bool :=
  match v with
  | Js.VArr items => forallb properValue items
  | Js.VObj fields =>
      distinct (List.map fst fields)
      && forallb (fun kv : string * Js.value => let '(_, x) := kv in properValue x) fields
  | _ => true
  end.




(** The ten kinds of the internal schema model. *)
Definition schemaKinds : list Js.value :=
  List.map Js.VStr
    ["oneOf"; "enum"; "unknown"; "object"; "array";
     "string"; "number"; "integer"; "boolean"; "null"].

(** At every depth of [v], a truthy [oneOf] or [anyOf] property is an array. *)
Fixpoint variantsAreArrays (v : Js.value) : bool :=
  match v with
  | Js.VArr items => forallb variantsAreArrays items
  | Js.VObj fields =>
      forallb (fun kv : string * Js.value =>
                 let '(k, x) := kv in
                 (if String.eqb k "oneOf" || String.eqb k "anyOf"
                  then negb (Js.truthy x) || Js.isArray x else true)
                 && variantsAreArrays x) fields
  | _ => true
  end.

(** The two errors of [jsonSchemaToSchema]: [input.oneOf.map] or
    [input.anyOf.map] called on something that is not an array. *)
Definition onlyVariantErrors (e : error) : Prop :=
  e = Convert.notAFunction "input.oneOf" ∨ e = Convert.notAFunction "input.anyOf".

(** Every character of [s] is in the class [p]. *)
Fixpoint allChars (p : ascii → bool) (s : string) : bool :=
  match s with
  | EmptyString => true
  | String c rest => p c && allChars p rest
  end.

(** [\[A-Za-z0-9_\]], the characters of an identifier. *)
Definition isIdChar (c : ascii) : bool := Str.isAlnum c || Generator.isUnderscore c.

(** [\[a-z0-9-\]], the characters of a path slug. *)
Definition isSlugChar (c : ascii) : bool :=
  Str.isLower c || Str.isDigit c || (Str.code c =? 45)%nat.

(** A slug: a non-empty string of slug characters. *)
Definition isSlug (s : string) : Prop := s ≠ "" ∧ allChars isSlugChar s = true.

(** A string without a path separator. *)
Definition noSlash (s : string) : bool := allChars (fun c => negb (Path.isSlash c)) s.

(** A path segment that [path.join] keeps as it is: not empty, not [.] or
    [..], and without a separator. *)
Definition plainSegment (s : string) : Prop :=
  s ≠ "" ∧ s ≠ "." ∧ s ≠ ".." ∧ noSlash s = true.

(** ** Further example inputs *)

(** The inline source again, in fail-fast mode. *)
Definition strictConfig : Invoke.InvokeStageConfig unit :=
  {| Invoke.sources := [inlineSource]; Invoke.adapters := None;
     Invoke.continueOnError := Some false; Invoke.skip := None |}.

(** A custom adapter that takes the place of the built-in [strict] one. *)
Definition relaxedAdapter : Invoke.InvokeSourceAdapter unit :=
  {| Invoke.adapter_type := "strict";
     Invoke.canHandle := fun _ => Ok true;
     Invoke.fetch := fun source w => (Ok (Invoke.src_document source), w);
     Invoke.parse := fun _ _ w => (Ok emptyService, w) |}.

(** An adapter whose [canHandle] throws on every source. *)
Definition faultyAdapter : Invoke.InvokeSourceAdapter unit :=
  {| Invoke.adapter_type := "faulty";
     Invoke.canHandle := fun _ =>
       Throw (TypeError "Cannot read properties of undefined (reading 'type')");
     Invoke.fetch := fun source w => (Ok (Invoke.src_document source), w);
     Invoke.parse := fun _ _ w => (Ok emptyService, w) |}.

(** Three parsers: one whose [canParse] throws, one that accepts every
    document and fails to parse it, one that parses every document. *)
Definition brokenParser : Parser.DocSourceParser :=
  {| Parser.name := "broken";
     Parser.canParse := fun _ => Throw (TypeError "Cannot read properties of undefined");
     Parser.parse := fun _ => Ok emptyService;
     Parser.parseWithContext := None |}.

Definition pickyParser : Parser.DocSourceParser :=
  {| Parser.name := "picky";
     Parser.canParse := fun _ => Ok true;
     Parser.parse := fun _ => Throw (Error "Not an OpenAPI 3.x document");
     Parser.parseWithContext := None |}.

Definition anyParser : Parser.DocSourceParser :=
  {| Parser.name := "any";
     Parser.canParse := fun _ => Ok true;
     Parser.parse := fun _ => Ok emptyService;
     Parser.parseWithContext := None |}.

Definition parserConfig (parsers : list Parser.DocSourceParser) : Parser.ParserStageConfig :=
  {| Parser.cfg_source := Js.VObj [("openapi", Js.VStr "3.0.0")];
     Parser.cfg_prefer := None;
     Parser.cfg_parsers := Some parsers;
     Parser.cfg_context := None;
     Parser.cfg_service := None;
     Parser.cfg_skip := None |}.

(** A sorting function, for the examples that need one: the identity (no
    example below sets [prefer]). *)
Definition keepOrder (compare : Parser.DocSourceParser → Parser.DocSourceParser → Z)
    (l : list Parser.DocSourceParser) : list Parser.DocSourceParser := l.


(** * Part II: theorems *)

(** ** Exceptions: traversals with a callback that cannot throw *)

Section Traversals.

Context {A : Type}.

Lemma filterR_total (p : A → bool) (l : list A) :
  filterR (fun x => Ok (p x)) l = Ok (List.filter p l).
Proof.
  induction l as [|x xs IH]; simpl; [reflexivity|].
  rewrite IH. simpl. reflexivity.
Qed.

Lemma everyR_total (p : A → bool) (l : list A) :
  everyR (fun x => Ok (p x)) l = Ok (forallb p l).
Proof.
  induction l as [|x xs IH]; simpl; [reflexivity|].
  destruct (p x); simpl; [exact IH | reflexivity].
Qed.

Lemma forOf_returns {S : Type} (P : A → Prop) (body : S → A → result S) (l : list A) :
  (∀ s x, P x → ∃ s', body s x = Ok s') →
  Forall P l → ∀ s, ∃ s', forOf body l s = Ok s'.
Proof.
  intros Hbody Hl. induction Hl as [|x xs Hx _ IH]; intros s; simpl.
  - eauto.
  - destruct (Hbody s x Hx) as [s' ->]. simpl. apply IH.
Qed.

Lemma filter_all (p : A → bool) (l : list A) :
  forallb p l = true → List.filter p l = l.
Proof.
  induction l as [|x xs IH]; simpl; [reflexivity|].
  intros H. apply andb_prop in H as [-> Hxs]. f_equal. auto.
Qed.

Lemma filter_length_le (p : A → bool) (l : list A) :
  (length (List.filter p l) ≤ length l)%nat.
Proof.
  induction l as [|x xs IH]; simpl; [lia|]. destruct (p x); simpl; lia.
Qed.

Lemma filter_drops (p : A → bool) (l : list A) (x : A) :
  In x l → p x = false → (length (List.filter p l) < length l)%nat.
Proof.
  induction l as [|y ys IH]; simpl; [tauto|].
  intros [->|Hin] Hx.
  - rewrite Hx. pose proof (filter_length_le p ys). lia.
  - specialize (IH Hin Hx). destruct (p y); simpl; lia.
Qed.

End Traversals.

(** ** [merge.ts] *)

Section MergeFacts.
Import Js Merge.

Lemma isSwaggerLike_total (v : value) : isSwaggerLike v = Ok (swaggerLike v).
Proof.
  unfold isSwaggerLike. destruct v; simpl; rewrite ?andb_false_r; reflexivity.
Qed.

Lemma filter_isSwaggerLike (docs : list value) :
  filterR isSwaggerLike docs = Ok (List.filter swaggerLike docs).
Proof.
  rewrite <- filterR_total.
  induction docs as [|d ds IH]; simpl; [reflexivity|].
  rewrite isSwaggerLike_total, IH. reflexivity.
Qed.

Lemma every_isSwaggerLike (docs : list value) :
  everyR isSwaggerLike docs = Ok (forallb swaggerLike docs).
Proof.
  rewrite <- everyR_total.
  induction docs as [|d ds IH]; simpl; [reflexivity|].
  rewrite isSwaggerLike_total. simpl. destruct (swaggerLike d); [exact IH | reflexivity].
Qed.

Lemma swaggerLike_object (v : value) :
  swaggerLike v = true → ∃ fs, v = VObj fs.
Proof. destruct v; simpl; try discriminate. eauto. Qed.

Lemma collectKeyed_returns (key : string) (target : object) (source : value) :
  ∃ target', collectKeyed key target source = Ok target'.
Proof.
  unfold collectKeyed. destruct source; eauto.
  apply (forOf_returns (fun _ => True)); [|apply Forall_forall; auto].
  intros s entry _.
  destruct entry as [| |b|n|str|l|fs]; simpl; eauto.
  - destruct b; simpl; eauto.
  - destruct (negb (n =? 0)%Z); simpl; eauto.
  - destruct (negb (String.eqb str "")); simpl; eauto.
  - destruct (hasField key fs); simpl; eauto.
    destruct (default VUndefined (lookupField key fs)); eauto.
    destruct (lookupField s0 s); eauto.
    destruct (truthy v); eauto.
Qed.

Lemma mergeComponentSection_returns (target : object) (source : value) :
  ∃ target', mergeComponentSection target source = Ok target'.
Proof.
  unfold mergeComponentSection.
  destruct (truthy source) eqn:Ht; simpl; eauto.
  unfold objectEntries.
  assert (nullish source = false) as -> by (destruct source; simpl in *; congruence).
  simpl.
  apply (forOf_returns (fun _ => True)); [|apply Forall_forall; auto].
  intros s [k v] _.
  destruct (truthy _ && typeofObject _ && negb (isArray _)); eauto.
Qed.

Lemma mergeOne_returns (st : mergeState) (doc : value) :
  swaggerLike doc = true → ∃ st', mergeOne st doc = Ok st'.
Proof.
  intros [fs ->]%swaggerLike_object. unfold mergeOne. simpl.
  unfold objectEntries.
  assert (nullish (coalesce (default VUndefined (lookupField "paths" fs)) (VObj [])) = false)
    as ->.
  { unfold coalesce. destruct (default VUndefined (lookupField "paths" fs)); reflexivity. }
  simpl.
  destruct (mergeComponentSection_returns (ms_components st)
              (default VUndefined (lookupField "components" fs))) as [c ->].
  simpl.
  destruct (collectKeyed_returns "name" (ms_tagMap st)
              (default VUndefined (lookupField "tags" fs))) as [t Ht].
  unfold collectTags. rewrite Ht. simpl.
  destruct (collectKeyed_returns "url" (ms_serverMap st)
              (default VUndefined (lookupField "servers" fs))) as [s Hs].
  unfold collectServers. rewrite Hs. simpl. eauto.
Qed.

(** The deep merge returns on every non-empty list of OpenAPI-shaped
    documents. *)
Lemma mergeSwaggerDocuments_returns (docs : list value) :
  docs ≠ [] → forallb swaggerLike docs = true →
  ∃ merged, mergeSwaggerDocuments docs = Ok merged.
Proof.
  destruct docs as [|first rest]; [congruence|]. intros _ Hall.
  simpl in Hall. apply andb_prop in Hall as [Hfirst Hrest].
  apply swaggerLike_object in Hfirst as [fs ->].
  unfold mergeSwaggerDocuments. simpl.
  destruct (collectKeyed_returns "name" [] (default VUndefined (lookupField "tags" fs)))
    as [t Ht].
  unfold collectTags. rewrite Ht. simpl.
  destruct (collectKeyed_returns "url" [] (default VUndefined (lookupField "servers" fs)))
    as [s Hs].
  unfold collectServers. rewrite Hs. simpl.
  assert (Forall (fun d => swaggerLike d = true) rest) as Hforall.
  { apply Forall_forall. intros d Hd. apply (proj1 (forallb_forall _ _) Hrest).
    apply list_elem_of_In, Hd. }
  match goal with
  | |- context [forOf mergeOne rest ?st0] =>
      destruct (forOf_returns (fun d => swaggerLike d = true) mergeOne rest
                  mergeOne_returns Hforall st0) as [st ->]
  end.
  simpl. eauto.
Qed.

End MergeFacts.

(** C7.  Merging the one-element list [[doc]] under the ["auto"] strategy
    returns [doc] itself: with a single document the detected strategy is
    ["first"], whatever the document looks like. *)
Theorem mergeDocuments_single_auto (doc : Js.value) :
  Merge.mergeDocuments [doc] (Some (Merge.StrategyName "auto")) = Ok doc.
Proof.
  assert (Merge.detectMergeStrategy [doc] = Ok "first") as Hdetect by reflexivity.
  unfold Merge.mergeDocuments.
  cbn -[Merge.detectMergeStrategy]. rewrite Hdetect. reflexivity.
Qed.

Lemma nonempty_length {A} (l : list A) : l ≠ [] → (length l =? 0)%nat = false.
Proof. destruct l; [congruence | reflexivity]. Qed.

Lemma detectMergeStrategy_cases (docs : list Js.value) :
  Merge.detectMergeStrategy docs = Ok "first"
  ∨ (Merge.detectMergeStrategy docs = Ok "swagger" ∧ forallb swaggerLike docs = true)
  ∨ Merge.detectMergeStrategy docs = Ok "json-array".
Proof.
  unfold Merge.detectMergeStrategy.
  destruct (length docs =? 1)%nat; [left; reflexivity|].
  rewrite every_isSwaggerLike. simpl.
  destruct (forallb swaggerLike docs); [right; left; split; reflexivity|].
  right; right; reflexivity.
Qed.

(** What [mergeDocuments] does once the strategy has been detected. *)
Lemma mergeDocuments_auto_returns (docs : list Js.value) :
  docs ≠ [] →
  ∃ payload,
    (let! appliedStrategy := Merge.detectMergeStrategy docs in
     if String.eqb appliedStrategy "first" then Ok (hd Js.VUndefined docs)
     else if String.eqb appliedStrategy "json-array" then Ok (Js.VArr docs)
     else if String.eqb appliedStrategy "swagger" || String.eqb appliedStrategy "openapi" then
       let! swaggerDocs := filterR Merge.isSwaggerLike docs in
       if (length swaggerDocs =? 0)%nat || negb (length swaggerDocs =? length docs)%nat
       then Throw Merge.swaggerRequested
       else Merge.mergeSwaggerDocuments swaggerDocs
     else
       let! swaggerDocs := filterR Merge.isSwaggerLike docs in
       if (length swaggerDocs =? length docs)%nat && (0 <? length swaggerDocs)%nat
       then Merge.mergeSwaggerDocuments swaggerDocs
       else if (length docs =? 1)%nat then Ok (hd Js.VUndefined docs)
       else Ok (Js.VArr docs)) = Ok payload.
Proof.
  intros Hne.
  destruct (detectMergeStrategy_cases docs) as [-> | [[-> Hall] | ->]];
    cbn -[filterR length]; eauto.
  rewrite filter_isSwaggerLike. cbn -[length List.filter].
  rewrite (filter_all _ _ Hall), Nat.eqb_refl, (nonempty_length docs Hne).
  cbn. apply mergeSwaggerDocuments_returns; assumption.
Qed.

(** C8.  [mergeDocuments] throws on an empty list; it throws when
    ["swagger"] or ["openapi"] is requested and some document is not
    OpenAPI-shaped; and on a non-empty list it returns a payload under every
    other built-in strategy. *)
Theorem mergeDocuments_failures :
  (∀ strategy,
     Merge.mergeDocuments [] strategy = Throw (Error "No documents fetched to merge."))
  ∧ (∀ docs name doc,
       name = "swagger" ∨ name = "openapi" →
       In doc docs → Merge.isSwaggerLike doc = Ok false →
       Merge.mergeDocuments docs (Some (Merge.StrategyName name))
       = Throw Merge.swaggerRequested)
  ∧ (∀ docs strategy,
       docs ≠ [] → lenientStrategy strategy →
       ∃ payload, Merge.mergeDocuments docs strategy = Ok payload).
Proof.
  split; [|split].
  - intros [[name|fn]|]; reflexivity.
  - intros docs name doc Hname Hin Hdoc.
    rewrite isSwaggerLike_total in Hdoc. injection Hdoc as Hdoc.
    pose proof (filter_drops swaggerLike docs doc Hin Hdoc) as Hlt.
    assert (docs ≠ []) as Hne by (intros ->; destruct Hin).
    assert ((length (List.filter swaggerLike docs) =? length docs)%nat = false) as Hshort
      by (apply Nat.eqb_neq; lia).
    unfold Merge.mergeDocuments. rewrite (nonempty_length docs Hne).
    destruct Hname as [-> | ->]; cbn -[filterR length List.filter];
      rewrite filter_isSwaggerLike; cbn -[length List.filter];
      rewrite Hshort, orb_true_r; reflexivity.
  - intros docs strategy Hne Hlenient.
    destruct (mergeDocuments_auto_returns docs Hne) as [payload Hpayload].
    unfold Merge.mergeDocuments. rewrite (nonempty_length docs Hne).
    destruct Hlenient as [-> | [-> | [-> | ->]]];
      cbn -[Merge.detectMergeStrategy filterR length]; eauto.
Qed.

Lemma mergeDocuments_failures_witness :
  Merge.mergeDocuments [Js.VObj [("paths", Js.VObj [])]; Js.VNum 7]
    (Some (Merge.StrategyName "swagger")) = Throw Merge.swaggerRequested
  ∧ ∃ payload,
      Merge.mergeDocuments
        [Js.VObj [("paths", Js.VObj [("/a", Js.VObj [])])];
         Js.VObj [("paths", Js.VObj [("/b", Js.VObj [])])]]
        (Some (Merge.StrategyName "auto")) = Ok payload.
Proof.
  split.
  - apply (proj1 (proj2 mergeDocuments_failures)) with (doc := Js.VNum 7).
    + left; reflexivity.
    + right; left; reflexivity.
    + reflexivity.
  - apply (proj2 (proj2 mergeDocuments_failures)).
    + discriminate.
    + right; left; reflexivity.
Defined.

(** ** [fetch.ts] *)

(** C9.  For a discovery source whose bootstrap request succeeds and whose
    [resolveRequests] callback throws, [fetchApiDocumentation] fails with
    the callback's own error: no follow-up request is issued, no merge
    happens and no document is returned. *)
Theorem fetchApiDocumentation_resolver_failure
    (World : Type)
    (fetchHttp : Fetch.ApiDocRequest → Fetch.IO World Js.value)
    (parseJsonFile : string → Fetch.IO World Js.value)
    (fileURLToPath : string → string)
    (source : Fetch.DiscoverySource World)
    (w w1 w2 : World) (entry : Js.value) (e : error) :
  Fetch.fetchSingleDocument fetchHttp parseJsonFile fileURLToPath
    (Fetch.discovery World source) w = (Ok entry, w1) →
  Fetch.resolveRequests World source entry w1 = (Throw e, w2) →
  Fetch.fetchApiDocumentation fetchHttp parseJsonFile fileURLToPath
    (Fetch.Discovery source) w = (Throw e, w2).
Proof.
  intros Hentry Hresolve.
  unfold Fetch.fetchApiDocumentation, Fetch.bind.
  rewrite Hentry, Hresolve. reflexivity.
Qed.

Lemma fetchApiDocumentation_resolver_failure_witness :
  Fetch.fetchApiDocumentation
    (fun _ w => (Ok (Js.VObj [("services", Js.VArr [])]), w))
    (fun _ w => (Throw (Error "no such file"), w))
    (fun s => s)
    (Fetch.Discovery failingDiscovery) tt
  = (Throw (Error "resolver failed"), tt).
Proof.
  apply (fetchApiDocumentation_resolver_failure unit _ _ _ failingDiscovery tt tt tt
           (Js.VObj [("services", Js.VArr [])])); reflexivity.
Defined.

(** ** The invoke stage *)

Section InvokeFacts.
Import Invoke.

Context {World : Type}.

Lemma findAdapter_first (pre post : list (InvokeSourceAdapter World))
    (a : InvokeSourceAdapter World) (source : InvokeSourceConfig World) :
  (∀ x, In x pre → canHandle x source = Ok false) →
  canHandle a source = Ok true →
  findAdapter (pre ++ a :: post) source = Ok (Some a).
Proof.
  induction pre as [|x xs IH]; intros Hpre Ha; simpl.
  - rewrite Ha. reflexivity.
  - rewrite (Hpre x (or_introl eq_refl)). apply IH; [|exact Ha].
    intros y Hy. apply Hpre. right. exact Hy.
Qed.

End InvokeFacts.

(** C1, as the code has it.  For every source, the adapter used is the first
    one, in the resolved order, whose [canHandle] accepts the source, and it
    is the only one tried: when its [fetch] or its [parse] throws, the source
    fails at once with that error (recorded, or thrown when [continueOnError]
    is off) whatever adapters follow; when both succeed, its document is
    recorded. *)
Theorem processSource_first_accepting_adapter
    (World : Type)
    (pre post : list (Invoke.InvokeSourceAdapter World))
    (adapter : Invoke.InvokeSourceAdapter World)
    (source : Invoke.InvokeSourceConfig World)
    (continue : bool)
    (docs : list Invoke.UnifiedInvokeDocument) (errs : list Invoke.InvokeSourceError)
    (w : World) :
  (∀ x, In x pre → Invoke.canHandle x source = Ok false) →
  Invoke.canHandle adapter source = Ok true →
  let run := Invoke.processSource (pre ++ adapter :: post) continue (docs, errs) source w in
  let failed (e : error) (w' : World) :=
    if continue then (Ok (docs, errs ++ [sourceError source e]), w')
    else (Throw (Invoke.wrapError (Invoke.adapter_type adapter) (Invoke.messageOf e)), w') in
  (∀ e w1, Invoke.fetch adapter source w = (Throw e, w1) → run = failed e w1)
  ∧ (∀ raw w1 e w2,
       Invoke.fetch adapter source w = (Ok raw, w1) →
       Invoke.parse adapter raw source w1 = (Throw e, w2) →
       run = failed e w2)
  ∧ (∀ raw w1 definition w2,
       Invoke.fetch adapter source w = (Ok raw, w1) →
       Invoke.parse adapter raw source w1 = (Ok definition, w2) →
       run = (Ok (docs ++ [sourceDocument adapter source raw definition], errs), w2)).
Proof.
  intros Hpre Hadapter run failed. subst run failed.
  unfold Invoke.processSource.
  rewrite (findAdapter_first pre post adapter source Hpre Hadapter).
  unfold Fetch.bind, Fetch.ret.
  repeat split.
  - intros e w1 ->. destruct continue; reflexivity.
  - intros raw w1 e w2 -> ->. destruct continue; reflexivity.
  - intros raw w1 definition w2 -> ->. reflexivity.
Qed.

Lemma processSource_first_accepting_adapter_witness :
  Invoke.processSource [strictAdapter; lenientAdapter] true ([], []) inlineSource tt
  = (Ok ([], [sourceError inlineSource (Error "Payload is not a strict document.")]), tt).
Proof.
  refine (proj1 (proj2 (processSource_first_accepting_adapter unit [] [lenientAdapter]
            strictAdapter inlineSource true [] [] tt _ _)) (Js.VObj []) tt _ tt _ _);
    try reflexivity.
  intros x [].
Defined.

(** C1 as stated fails: the second adapter accepts the source and would
    parse it, yet after the first adapter's [parse] throws the stage records
    the source as failed and returns no document. *)
Lemma invoke_no_fall_through :
  Invoke.canHandle lenientAdapter inlineSource = Ok true
  ∧ Invoke.parse lenientAdapter (Js.VObj []) inlineSource tt = (Ok emptyService, tt)
  ∧ Invoke.execute [strictAdapter; lenientAdapter] emptyContext (Some inlineConfig) tt
    = (Ok (Some {| Invoke.documents := [];
                   Invoke.errors :=
                     Some [sourceError inlineSource
                             (Error "Payload is not a strict document.")] |},
           {| Invoke.rawDocument := Js.VUndefined; Invoke.serviceDefinition := None;
              Invoke.invokeResults :=
                Some {| Invoke.documents := [];
                        Invoke.errors :=
                          Some [sourceError inlineSource
                                  (Error "Payload is not a strict document.")] |};
              Invoke.normalizedService := None; Invoke.generatedBundle := None;
              Invoke.parserName := None |}), tt).
Proof. repeat split. Qed.

(** ** Primary-document selection *)

Section FirstSuch.

Context {A : Type}.

Lemma find_firstSuch (p : A → bool) (l : list A) (x : A) :
  firstSuch p l x → List.find p l = Some x.
Proof.
  intros (before & after & -> & Hx & Hbefore).
  induction before as [|y ys IH]; simpl.
  - rewrite Hx. reflexivity.
  - rewrite (Hbefore y (or_introl eq_refl)). apply IH.
    intros z Hz. apply Hbefore. right. exact Hz.
Qed.

Lemma find_nobody (p : A → bool) (l : list A) :
  (∀ y, In y l → p y = false) → List.find p l = None.
Proof.
  induction l as [|y ys IH]; intros H; simpl; [reflexivity|].
  rewrite (H y (or_introl eq_refl)). apply IH. intros z Hz. apply H. right. exact Hz.
Qed.

Lemma existsb_nobody (p : A → bool) (l : list A) :
  existsb p l = false → ∀ y, In y l → p y = false.
Proof.
  induction l as [|x xs IH]; simpl; [tauto|].
  intros H y [-> | Hy]; apply orb_false_elim in H as [Hx Hxs]; auto.
Qed.

End FirstSuch.

Section PipelineFacts.
Import Invoke.

Context {World : Type}.

(** The loop over the configured sources stops at the first source some
    document matches and yields the first document matching it. *)
Lemma firstMatch_first (srcs : list (InvokeSourceConfig World))
    (docs : list UnifiedInvokeDocument) (source : InvokeSourceConfig World)
    (doc : UnifiedInvokeDocument) :
  firstSuch (fun s => existsb (matchesSource s) docs) srcs source →
  firstSuch (matchesSource source) docs doc →
  firstMatch srcs docs = Some doc.
Proof.
  intros (before & after & -> & _ & Hbefore) Hdoc.
  induction before as [|s ss IH]; simpl.
  - rewrite (find_firstSuch _ _ _ Hdoc). reflexivity.
  - rewrite (find_nobody (matchesSource s) docs).
    + apply IH. intros y Hy. apply Hbefore. right. exact Hy.
    + apply existsb_nobody. apply Hbefore. left. reflexivity.
Qed.

Lemma firstMatch_nobody (srcs : list (InvokeSourceConfig World))
    (docs : list UnifiedInvokeDocument) :
  (∀ s, In s srcs → ∀ d, In d docs → matchesSource s d = false) →
  firstMatch srcs docs = None.
Proof.
  induction srcs as [|s ss IH]; intros H; simpl; [reflexivity|].
  rewrite (find_nobody (matchesSource s) docs) by (apply H; left; reflexivity).
  apply IH. intros s' Hs'. apply H. right. exact Hs'.
Qed.

End PipelineFacts.

(** C6.  With no service definition in the run context, the pipeline adopts
    the document [selectPrimaryDocument] picks from the invoke result, and
    the pick prefers, in this order: going through the configured sources in
    declaration order, the first document that matches (by name or type) the
    first source any document matches; else the first document marked
    [primary: true]; else the first parsed document. *)
Theorem selectPrimaryDocument_preference
    (World : Type)
    (result : Invoke.InvokeStageResult)
    (config : option (Invoke.InvokeStageConfig World))
    (context : Invoke.DocSyncContext)
    (stageResult : option Invoke.InvokeStageResult) :
  Invoke.documents result ≠ [] →
  let docs := Invoke.documents result in
  let srcs := default [] (Invoke.sources <$> config) in
  let chosen := Invoke.selectPrimaryDocument (Some result) config in
  let unmatched := ∀ s, In s srcs → ∀ d, In d docs → Invoke.matchesSource s d = false in
  (∀ source doc,
     firstSuch (fun s => existsb (Invoke.matchesSource s) docs) srcs source →
     firstSuch (Invoke.matchesSource source) docs doc →
     chosen = Some doc)
  ∧ (unmatched → ∀ doc, firstSuch Invoke.markedPrimary docs doc → chosen = Some doc)
  ∧ (unmatched → (∀ d, In d docs → Invoke.markedPrimary d = false) → chosen = head docs)
  ∧ (Invoke.serviceDefinition context = None →
     Invoke.invokeResults context = Some result ∨
       (Invoke.invokeResults context = None ∧ stageResult = Some result) →
     Invoke.serviceDefinition (Invoke.adoptPrimaryDocument context stageResult config)
     = Invoke.doc_serviceDefinition <$> chosen).
Proof.
  intros Hdocs docs srcs chosen unmatched. subst docs chosen unmatched.
  unfold Invoke.selectPrimaryDocument.
  destruct (Invoke.documents result) as [|first rest] eqn:Edocs; [congruence|].
  fold srcs.
  repeat split.
  - intros source doc Hsource Hdoc.
    rewrite (firstMatch_first srcs (first :: rest) source doc Hsource Hdoc). reflexivity.
  - intros Hun doc Hdoc.
    rewrite (firstMatch_nobody srcs (first :: rest) Hun).
    rewrite (find_firstSuch _ _ _ Hdoc). reflexivity.
  - intros Hun Hnone.
    rewrite (firstMatch_nobody srcs (first :: rest) Hun).
    rewrite (find_nobody Invoke.markedPrimary (first :: rest) Hnone). reflexivity.
  - intros Hctx Hresult.
    unfold Invoke.adoptPrimaryDocument. rewrite Hctx.
    assert (match Invoke.invokeResults context with
            | Some r => Some r
            | None => stageResult
            end = Some result) as ->.
    { destruct Hresult as [-> | [-> ->]]; reflexivity. }
    unfold Invoke.selectPrimaryDocument. rewrite Edocs. fold srcs.
    destruct (Invoke.firstMatch srcs (first :: rest)); [reflexivity|].
    destruct (List.find Invoke.markedPrimary (first :: rest)); reflexivity.
Qed.

(** The source declared second is the first one a document matches, and it
    decides: the pick is the Swagger document, although the Postman document
    was parsed first, is marked primary and matches the third source. *)
Lemma selectPrimaryDocument_preference_witness :
  Invoke.selectPrimaryDocument (Some twoDocuments) (Some twoSources) = Some swaggerDocument.
Proof.
  refine (proj1 (selectPrimaryDocument_preference unit twoDocuments (Some twoSources)
                   emptyContext None _) (namedSource "openapi" (Some "main")) swaggerDocument _ _).
  - discriminate.
  - exists [namedSource "apifox" None], [namedSource "postman" None].
    repeat split. intros y [<- | []]. reflexivity.
  - exists [postmanDocument], []. repeat split. intros y [<- | []]. reflexivity.
Defined.

(** ** [jsonSchemaToSchema] *)

Section ConvertFacts.
Import Js Convert.

Lemma typeStrOf_nullable_array (ts : list value) (m : value) :
  In (VStr "null") ts →
  List.find (fun t => negb (isNullName t)) ts = Some m →
  truthy m = true →
  typeStrOf (VArr ts) = m.
Proof.
  intros Hnull Hfind Hm. unfold typeStrOf.
  assert (existsb isNullName ts = true) as ->.
  { apply existsb_exists. exists (VStr "null"). split; [exact Hnull | reflexivity]. }
  rewrite Hfind. simpl. unfold orElse. rewrite Hm. reflexivity.
Qed.

Lemma bindR_inv {A B} (m : result A) (k : A → result B) (b : B) :
  bindR m k = Ok b → ∃ a, m = Ok a ∧ k a = Ok b.
Proof. destruct m; simpl; [eauto | discriminate]. Qed.

End ConvertFacts.

(** C3, as the code has it.  For a descriptor whose [type] is an array that
    contains ["null"] and whose first other member [m] is truthy, the
    converter derives the kind from [m]; the [nullable] flag of the result is
    the truthiness of the descriptor's own [nullable] property, and the
    ["null"] in the array does not set it.  The conversion can only throw
    from inside a nested descriptor of an object or array type. *)
Theorem jsonSchemaToSchema_type_array
    (fs : Js.object) (ts : list Js.value) (m : Js.value) :
  Convert.field fs "type" = Js.VArr ts →
  In (Js.VStr "null") ts →
  List.find (fun t => negb (Convert.isNullName t)) ts = Some m →
  Js.truthy m = true →
  match Convert.jsonSchemaToSchema (Js.VObj fs) with
  | Ok schema =>
      Js.getOpt schema "kind" = kindOfTypeName m
      ∧ Js.getOpt schema "nullable" = Js.VBool (Js.truthy (Convert.field fs "nullable"))
  | Throw _ => m = Js.VStr "object" ∨ m = Js.VStr "array"
  end.
Proof.
  intros Htype Hnull Hfind Hm.
  pose proof (typeStrOf_nullable_array ts m Hnull Hfind Hm) as Hstr.
  unfold Convert.jsonSchemaToSchema; fold Convert.jsonSchemaToSchema.
  rewrite Htype, Hstr, Hm. cbv [negb]. cbv iota.
  unfold kindOfTypeName.
  destruct (Js.strictEq m (Js.VStr "object")) eqn:Hobject.
  { assert (m = Js.VStr "object") as ->.
    { destruct m; simpl in Hobject; try discriminate.
      apply String.eqb_eq in Hobject. congruence. }
    match goal with |- match ?c with _ => _ end => destruct c eqn:Hc end; [|auto].
    apply bindR_inv in Hc as (properties & _ & Hc).
    apply bindR_inv in Hc as (additional & _ & Hc).
    injection Hc as <-. split; reflexivity. }
  destruct (Js.strictEq m (Js.VStr "array")) eqn:Harray.
  { assert (m = Js.VStr "array") as ->.
    { destruct m; simpl in Harray; try discriminate.
      apply String.eqb_eq in Harray. congruence. }
    match goal with |- match ?c with _ => _ end => destruct c eqn:Hc end; [|auto].
    apply bindR_inv in Hc as (element & _ & Hc).
    injection Hc as <-. split; reflexivity. }
  cbn [orb].
  match goal with
  | |- context [if ?c then Ok _ else Ok _] => destruct c
  end; split; reflexivity.
Qed.

Lemma jsonSchemaToSchema_type_array_witness :
  match Convert.jsonSchemaToSchema
          (Js.VObj [("type", Js.VArr [Js.VStr "null"; Js.VStr "integer"]);
                    ("nullable", Js.VBool true)]) with
  | Ok schema =>
      Js.getOpt schema "kind" = kindOfTypeName (Js.VStr "integer")
      ∧ Js.getOpt schema "nullable" = Js.VBool true
  | Throw _ => Js.VStr "integer" = Js.VStr "object" ∨ Js.VStr "integer" = Js.VStr "array"
  end.
Proof.
  apply (jsonSchemaToSchema_type_array
           [("type", Js.VArr [Js.VStr "null"; Js.VStr "integer"]); ("nullable", Js.VBool true)]
           [Js.VStr "null"; Js.VStr "integer"] (Js.VStr "integer")).
  - reflexivity.
  - left; reflexivity.
  - reflexivity.
  - reflexivity.
Defined.

(** C3 as stated fails: for [{ type: ["string", "null"] }] the kind is
    [string], derived from the non-null member, but [nullable] is [false]. *)
Lemma jsonSchemaToSchema_null_member_not_nullable :
  Convert.jsonSchemaToSchema (Js.VObj [("type", Js.VArr [Js.VStr "string"; Js.VStr "null"])])
  = Ok (Js.VObj [("kind", Js.VStr "string"); ("format", Js.VUndefined);
                 ("nullable", Js.VBool false); ("description", Js.VUndefined);
                 ("title", Js.VUndefined); ("example", Js.VUndefined)]).
Proof. reflexivity. Qed.

(** ** The generator *)

Section IncludesFacts.

Lemma prefix_append (n s q : string) :
  String.prefix n s = true → String.prefix n (s +:+ q) = true.
Proof.
  revert s. induction n as [|c n IH]; intros s H; [destruct (s +:+ q); reflexivity|].
  destruct s as [|d s]; simpl in *; [discriminate|].
  destruct (ascii_dec c d); [apply IH; exact H | discriminate].
Qed.

Lemma prefix_self (n : string) : String.prefix n n = true.
Proof.
  induction n as [|c n IH]; simpl; [reflexivity|].
  destruct (ascii_dec c c); [exact IH | congruence].
Qed.

Lemma includes_prefix (s n : string) : String.prefix n s = true → Str.includes s n = true.
Proof. intros H. destruct s; cbn [Str.includes]; rewrite H; reflexivity. Qed.

Lemma includes_append_r (s q n : string) :
  Str.includes s n = true → Str.includes (s +:+ q) n = true.
Proof.
  induction s as [|c s IH]; cbn [Str.includes]; intros H.
  - rewrite orb_false_r in H. apply includes_prefix.
    apply (prefix_append n "" q H).
  - apply orb_prop in H as [H | H].
    + change (String c s +:+ q) with (String c (s +:+ q)). cbn [Str.includes].
      change (String c (s +:+ q)) with (String c s +:+ q).
      rewrite (prefix_append n (String c s) q H). reflexivity.
    + change (String c s +:+ q) with (String c (s +:+ q)). cbn [Str.includes].
      rewrite (IH H). apply orb_true_r.
Qed.

Lemma includes_append_l (p s n : string) :
  Str.includes s n = true → Str.includes (p +:+ s) n = true.
Proof.
  intros H. induction p as [|c p IH]; [exact H|].
  change (String c p +:+ s) with (String c (p +:+ s)). cbn [Str.includes].
  rewrite IH. apply orb_true_r.
Qed.

Lemma includes_join (sep : string) (parts : list string) (x n : string) :
  In x parts → Str.includes x n = true → Str.includes (Str.join sep parts) n = true.
Proof.
  unfold Str.join. induction parts as [|y ys IH]; intros Hin Hx; [destruct Hin|].
  simpl. destruct ys as [|z zs].
  - destruct Hin as [-> | []]. exact Hx.
  - destruct Hin as [-> | Hin].
    + apply includes_append_r. exact Hx.
    + apply includes_append_l, includes_append_l. apply IH; assumption.
Qed.

End IncludesFacts.

Section GeneratorFacts.
Import Types Generator.

(** Every endpoint file carries its signature line. *)
Lemma renderEndpointFile_signature (endpoint : EndpointDefinition)
    (target transportImportPath : string) :
  Str.includes (content (renderEndpointFile endpoint target transportImportPath))
               (signature endpoint) = true.
Proof.
  unfold renderEndpointFile. cbn [content].
  apply includes_join with (x := " * " +:+ signature endpoint).
  - right; left; reflexivity.
  - apply includes_append_l, includes_prefix, prefix_self.
Qed.

Lemma widgets_segments (fallbackBase : string) (index : nat) :
  extractPathSegments "/widgets/{id}" fallbackBase index = ["widgets"; "id"].
Proof. reflexivity. Qed.

Lemma endpointFiles_in_bundle (service : ServiceDefinition) (options : option CodegenOptions)
    (file : GeneratedFile) :
  In file (endpointFiles service) → In file (files (generateClientSource service options)).
Proof.
  intros Hin. unfold generateClientSource. cbn [files].
  destruct (renderTypesFile service); simpl; auto.
Qed.

End GeneratorFacts.

(** C5.  Two endpoints on the path [/widgets/{id}], one [GET] and one
    [DELETE], get the two distinct file names [widgets/id-get.ts] and
    [widgets/id-delete.ts], and each file contains the signature of its own
    endpoint. *)
Theorem generateClientSource_path_collision
    (service : Types.ServiceDefinition) (options : option Generator.CodegenOptions)
    (e1 e2 : Types.EndpointDefinition) :
  Types.svc_endpoints service = [e1; e2] →
  Types.ep_path e1 = "/widgets/{id}" → Types.ep_method e1 = Types.GET →
  Types.ep_path e2 = "/widgets/{id}" → Types.ep_method e2 = Types.DELETE →
  ∃ f1 f2,
    Generator.endpointFiles service = [f1; f2]
    ∧ In f1 (Generator.files (Generator.generateClientSource service options))
    ∧ In f2 (Generator.files (Generator.generateClientSource service options))
    ∧ Generator.filename f1 = "widgets/id-get.ts"
    ∧ Generator.filename f2 = "widgets/id-delete.ts"
    ∧ Generator.filename f1 ≠ Generator.filename f2
    ∧ Str.includes (Generator.content f1) "Auto-generated for GET /widgets/{id}" = true
    ∧ Str.includes (Generator.content f2) "Auto-generated for DELETE /widgets/{id}" = true.
Proof.
  intros Hendpoints Hpath1 Hmethod1 Hpath2 Hmethod2.
  assert (Generator.endpointInfos service
          = [ {| Generator.info_endpoint := e1; Generator.info_segments := ["widgets"; "id"] |};
              {| Generator.info_endpoint := e2; Generator.info_segments := ["widgets"; "id"] |} ])
    as Hinfos.
  { unfold Generator.endpointInfos. rewrite Hendpoints. cbn [Generator.mapi].
    rewrite Hpath1, Hpath2, !widgets_segments. reflexivity. }
  assert (Generator.endpointFiles service
          = [ Generator.renderEndpointFile e1 "widgets/id-get.ts"
                (Generator.computeRelativeModulePath "widgets/id-get.ts" "transport.ts");
              Generator.renderEndpointFile e2 "widgets/id-delete.ts"
                (Generator.computeRelativeModulePath "widgets/id-delete.ts" "transport.ts") ])
    as Hfiles.
  { unfold Generator.endpointFiles. rewrite Hinfos. cbn [List.map].
    assert (Generator.pathUsageCounts
              [ {| Generator.info_endpoint := e1; Generator.info_segments := ["widgets"; "id"] |};
                {| Generator.info_endpoint := e2; Generator.info_segments := ["widgets"; "id"] |} ]
            !! "widgets/id" = Some 2) as Hcount.
    { unfold Generator.pathUsageCounts, Generator.pathKey.
      cbn [fold_left Generator.info_segments].
      change (Str.join "/" ["widgets"; "id"]) with "widgets/id".
      rewrite lookup_empty. cbn [default].
      rewrite !lookup_insert_eq. reflexivity. }
    unfold Generator.endpointFilename, Generator.pathKey.
    cbn [Generator.info_segments Generator.info_endpoint].
    change (Str.join "/" ["widgets"; "id"]) with "widgets/id".
    rewrite Hcount, Hmethod1, Hmethod2. reflexivity. }
  eexists _, _. split; [exact Hfiles|].
  split; [apply endpointFiles_in_bundle; rewrite Hfiles; left; reflexivity|].
  split; [apply endpointFiles_in_bundle; rewrite Hfiles; right; left; reflexivity|].
  split; [reflexivity|]. split; [reflexivity|]. split; [discriminate|].
  split.
  - pose proof (renderEndpointFile_signature e1 "widgets/id-get.ts"
                  (Generator.computeRelativeModulePath "widgets/id-get.ts" "transport.ts")) as H.
    unfold Generator.signature in H. rewrite Hpath1, Hmethod1 in H. exact H.
  - pose proof (renderEndpointFile_signature e2 "widgets/id-delete.ts"
                  (Generator.computeRelativeModulePath "widgets/id-delete.ts" "transport.ts")) as H.
    unfold Generator.signature in H. rewrite Hpath2, Hmethod2 in H. exact H.
Qed.

Lemma generateClientSource_path_collision_witness :
  ∃ f1 f2,
    Generator.endpointFiles widgetsService = [f1; f2]
    ∧ In f1 (Generator.files (Generator.generateClientSource widgetsService None))
    ∧ In f2 (Generator.files (Generator.generateClientSource widgetsService None))
    ∧ Generator.filename f1 = "widgets/id-get.ts"
    ∧ Generator.filename f2 = "widgets/id-delete.ts"
    ∧ Generator.filename f1 ≠ Generator.filename f2
    ∧ Str.includes (Generator.content f1) "Auto-generated for GET /widgets/{id}" = true
    ∧ Str.includes (Generator.content f2) "Auto-generated for DELETE /widgets/{id}" = true.
Proof.
  apply (generateClientSource_path_collision widgetsService None
           (plainEndpoint "getWidget" "/widgets/{id}" Types.GET)
           (plainEndpoint "deleteWidget" "/widgets/{id}" Types.DELETE)); reflexivity.
Defined.

(** C2, as the code has it.  When the service has custom types, the entry
    file is the first file of the bundle and re-exports every generated
    module in this order: the transport file first, then the types file,
    then one line per endpoint file in endpoint order. *)
Theorem generateClientSource_entry_exports
    (service : Types.ServiceDefinition) (options : option Generator.CodegenOptions)
    (type : string * Types.Schema) (types : list (string * Types.Schema)) :
  Types.svc_types service = Some (type :: types) →
  ∃ entry rest,
    Generator.files (Generator.generateClientSource service options) = entry :: rest
    ∧ Generator.filename entry
      = Generator.entrypoint (Generator.generateClientSource service options)
    ∧ Generator.content entry
      = Str.join Str.nl
          ("export * from './transport';"
           :: "export * from './types';"
           :: List.map (fun file => Generator.exportLine (Generator.filename file))
                (Generator.endpointFiles service))
        +:+ Str.nl.
Proof.
  intros Htypes.
  unfold Generator.generateClientSource, Generator.renderTypesFile.
  rewrite Htypes. cbn [default Generator.files Generator.entrypoint].
  eexists _, _. split; [reflexivity|]. split; reflexivity.
Qed.

Lemma generateClientSource_entry_exports_witness :
  ∃ entry rest,
    Generator.files (Generator.generateClientSource petService None) = entry :: rest
    ∧ Generator.filename entry
      = Generator.entrypoint (Generator.generateClientSource petService None)
    ∧ Generator.content entry
      = Str.join Str.nl
          ("export * from './transport';"
           :: "export * from './types';"
           :: List.map (fun file => Generator.exportLine (Generator.filename file))
                (Generator.endpointFiles petService))
        +:+ Str.nl.
Proof.
  apply (generateClientSource_entry_exports petService None ("Pet", stringSchema) []).
  reflexivity.
Defined.

(** C2 as stated fails: with a types file in the bundle, the first export
    line of the entry file is the transport's, and the types file's line
    comes second. *)
Lemma generateClientSource_transport_exported_first :
  Generator.content
    (hd Generator.renderTransportFile
        (Generator.files (Generator.generateClientSource petService None)))
  = "export * from './transport';" +:+ Str.nl
      +:+ "export * from './types';" +:+ Str.nl
      +:+ "export * from './pets/pets';" +:+ Str.nl.
Proof. vm_compute. reflexivity. Qed.

(** C4, where the code breaks it.  [GET /user] has the single segment
    [user] and is written to [user/user.ts]; [GET /user/{user}] has the
    segments [user/user] and is written to [user/user.ts] as well.  The two
    segment paths differ, so no method suffix is appended, and the bundle
    holds two files of the same name. *)
Theorem generateClientSource_duplicate_filenames :
  List.map Generator.filename
    (Generator.files (Generator.generateClientSource userService None))
  = ["index.ts"; "transport.ts"; "user/user.ts"; "user/user.ts"].
Proof. vm_compute. reflexivity. Qed.

Section EndpointCoverage.
Import Types Generator.

Lemma mapi_length {A B} (f : A → nat → B) (l : list A) (i : nat) :
  length (mapi f i l) = length l.
Proof. revert i. induction l as [|x xs IH]; intros i; simpl; [reflexivity | rewrite IH; reflexivity]. Qed.

Lemma mapi_In {A B} (f : A → nat → B) (l : list A) (i : nat) (x : A) :
  In x l → ∃ j, In (f x j) (mapi f i l).
Proof.
  revert i. induction l as [|y ys IH]; intros i; [intros []|].
  intros [-> | Hin]; simpl.
  - exists i. left. reflexivity.
  - destruct (IH (S i) Hin) as [j Hj]. exists j. right. exact Hj.
Qed.

End EndpointCoverage.

(** X2.  The bundle holds one endpoint file per endpoint of the service, and
    for every endpoint some file of the bundle contains that endpoint's
    signature [Auto-generated for <METHOD> <path>]. *)
Theorem generateClientSource_covers_endpoints
    (service : Types.ServiceDefinition) (options : option Generator.CodegenOptions)
    (endpoint : Types.EndpointDefinition) :
  In endpoint (Types.svc_endpoints service) →
  length (Generator.endpointFiles service) = length (Types.svc_endpoints service)
  ∧ ∃ file,
      In file (Generator.files (Generator.generateClientSource service options))
      ∧ Str.includes (Generator.content file) (Generator.signature endpoint) = true.
Proof.
  intros Hin. split.
  - unfold Generator.endpointFiles, Generator.endpointInfos.
    rewrite length_map. apply mapi_length.
  - destruct (mapi_In
                (fun endpoint index =>
                   {| Generator.info_endpoint := endpoint;
                      Generator.info_segments :=
                        Generator.extractPathSegments (Types.ep_path endpoint)
                          (Types.orString (Types.ep_name endpoint) (Types.ep_id endpoint))
                          index |})
                (Types.svc_endpoints service) 0 endpoint Hin) as [j Hj].
    eexists. split.
    + apply endpointFiles_in_bundle. unfold Generator.endpointFiles.
      apply in_map_iff. eexists. split; [reflexivity | exact Hj].
    + apply renderEndpointFile_signature.
Qed.

Lemma generateClientSource_covers_endpoints_witness :
  length (Generator.endpointFiles userService) = 2
  ∧ ∃ file,
      In file (Generator.files (Generator.generateClientSource userService None))
      ∧ Str.includes (Generator.content file) "Auto-generated for GET /user/{user}" = true.
Proof.
  apply (generateClientSource_covers_endpoints userService None
           (plainEndpoint "getUserByName" "/user/{user}" Types.GET)).
  right; left; reflexivity.
Defined.

(** ** The normalizer stage: the original definition is left alone *)

Section StoreFacts.
Import Normalizer.
Open Scope nat_scope.








Lemma wellFormed_lookup (h : heap) (l : loc) (o : obj) (k : string) (l' : loc) :
  wellFormed h = true → h !! l = Some o → In (k, VRef l') o → l' < length h.
Proof.
  intros Hwf Hl Hin. unfold wellFormed in Hwf.
  rewrite forallb_forall in Hwf.
  assert (In o h) as Ho by (apply list_elem_of_In, list_elem_of_lookup; eauto).
  specialize (Hwf o Ho). rewrite forallb_forall in Hwf.
  specialize (Hwf (k, VRef l') Hin). simpl in Hwf.
  apply Nat.ltb_lt. exact Hwf.
Qed.


End StoreFacts.

(** *** The copy made by [cloneService] is fresh *)

Section CloneFacts.
Import Normalizer.
Open Scope nat_scope.

(** [h0] is the store at the time of the call. *)
Variable h0 : heap.





End CloneFacts.

(** *** [cloneService] returns: the fuel it is given suffices *)

Section CloneTotal.
Import Normalizer.
Open Scope nat_scope.

Variable h0 : heap.
Hypothesis h0_wellFormed : wellFormed h0 = true.

Lemma copyOf_None (l : loc) (m : memo) : copyOf l m = None → ¬ In l (List.map fst m).
Proof.
  induction m as [|[old new] rest IH]; simpl; [tauto|].
  destruct (Nat.eqb_spec old l) as [-> | Hne]; [discriminate|].
  intros H [Heq | Hin]; [congruence | exact (IH H Hin)].
Qed.

Lemma memo_room (l : loc) (m : memo) :
  List.NoDup (List.map fst m) → (∀ old, In old (List.map fst m) → old < length h0) →
  l < length h0 → ¬ In l (List.map fst m) → length m < length h0.
Proof.
  intros Hnodup Hbound Hl Hnew.
  assert (List.NoDup (l :: List.map fst m)) as Hnodup' by (constructor; assumption).
  assert (incl (l :: List.map fst m) (seq 0 (length h0))) as Hincl.
  { intros x [<- | Hx]; apply in_seq; [lia | specialize (Hbound x Hx); lia]. }
  pose proof (List.NoDup_incl_length Hnodup' Hincl) as Hlen.
  simpl in Hlen. rewrite length_map, length_seq in Hlen. lia.
Qed.

Lemma cloneFields_total (clone : val → heap → memo → option (val * heap * memo)) (budget : nat) :
  (∀ v h m,
     cloneProgress h0 h m → (∀ l, v = VRef l → l < length h0) →
     length h0 < budget + length m →
     ∃ v' h' m', clone v h m = Some (v', h', m')
                 ∧ cloneProgress h0 h' m' ∧ length m ≤ length m') →
  ∀ fields h m,
    cloneProgress h0 h m → (∀ k l, In (k, VRef l) fields → l < length h0) →
    length h0 < budget + length m →
    ∃ o' h' m', cloneFields clone fields h m = Some (o', h', m')
                ∧ cloneProgress h0 h' m' ∧ length m ≤ length m'.
Proof.
  intros Hclone. induction fields as [|[k v] rest IH]; intros h m Hprog Hrefs Hbudget.
  - exists [], h, m. repeat split; try apply Hprog. lia.
  - destruct (Hclone v h m Hprog) as (v1 & h1 & m1 & Hv & Hprog1 & Hgrow1);
      [intros l ->; eapply Hrefs; left; reflexivity | exact Hbudget |].
    destruct (IH h1 m1 Hprog1) as (rest' & h2 & m2 & Hrest & Hprog2 & Hgrow2);
      [intros k' l Hin; eapply Hrefs; right; exact Hin | lia |].
    exists ((k, v1) :: rest'), h2, m2. simpl. rewrite Hv, Hrest.
    repeat split; try apply Hprog2. lia.
Qed.

Lemma cloneVal_total (fuel : nat) :
  ∀ v h m,
    cloneProgress h0 h m → (∀ l, v = VRef l → l < length h0) →
    length h0 < fuel + length m →
    ∃ v' h' m', cloneVal fuel v h m = Some (v', h', m')
                ∧ cloneProgress h0 h' m' ∧ length m ≤ length m'.
Proof.
  induction fuel as [|fuel IH]; intros v h m Hprog Hv Hbudget;
    (destruct v as [p | l]; [exists (VPrim p), h, m; simpl; repeat split;
                               try apply Hprog; lia|]);
    simpl; destruct (copyOf l m) as [l'|] eqn:Hcopy;
    try (exists (VRef l'), h, m; repeat split; try apply Hprog; lia);
    destruct Hprog as (Hold & Hnodup & Hbound);
    pose proof (memo_room l m Hnodup Hbound (Hv l eq_refl) (copyOf_None l m Hcopy)) as Hroom.
  - simpl in Hbudget. lia.
  - assert (is_Some (h0 !! l)) as [o Ho] by (apply lookup_lt_is_Some, Hv; reflexivity).
    rewrite (Hold l o Ho).
    destruct (cloneFields_total (cloneVal fuel) fuel IH o (h ++ [[]]) ((l, length h) :: m))
      as (o' & h2 & m2 & Hfields & (Hold2 & Hnodup2 & Hbound2) & Hgrow).
    + repeat split.
      * intros l1 o1 H1. apply lookup_app_l_Some, Hold, H1.
      * simpl. constructor; [apply copyOf_None, Hcopy | exact Hnodup].
      * simpl. intros old [<- | Hin]; [apply Hv; reflexivity | apply Hbound, Hin].
    + intros k l1 Hin. eapply wellFormed_lookup; eauto.
    + simpl. lia.
    + rewrite Hfields. eexists _, _, _. split; [reflexivity|].
      simpl in Hgrow. repeat split; [|exact Hnodup2 | exact Hbound2 | lia].
      intros l1 o1 H1. rewrite list_lookup_insert_ne; [apply Hold2, H1|].
      apply Hold, lookup_lt_Some in H1. lia.
Qed.

(** X1.  In a well-formed store [cloneService] returns a copy of every
    allocated definition: the depth bound it descends with is never
    exhausted. *)
Lemma cloneService_total (service : loc) :
  service < length h0 → ∃ h' working, cloneService service h0 = Some (h', working).
Proof.
  intros Hservice. unfold cloneService.
  destruct (cloneVal_total (S (length h0)) (VRef service) h0 [])
    as (v' & h' & m' & Hclone & _).
  - repeat split; [auto | constructor | intros old []].
  - intros l [= <-]. exact Hservice.
  - simpl. lia.
  - rewrite Hclone.
    simpl in Hclone. destruct (h0 !! service); [|discriminate].
    destruct (cloneFields _ _ _ _) as [[[o' h2] m2]|]; [|discriminate].
    injection Hclone as <- _ _. eauto.
Qed.

End CloneTotal.

(** The copy of the example definition: three new objects behind the three
    original ones, which stay as they were. *)
Lemma cloneService_total_witness :
  ∃ h' working, Normalizer.cloneService 0 petStore = Some (h', working).
Proof.
  apply (cloneService_total petStore); [reflexivity | simpl; lia].
Defined.

(** *** The loops of the stage keep a protected region as it is *)

Section StageFacts.
Import Normalizer.
Open Scope nat_scope.

Variable P : loc → Prop.





End StageFacts.

Section ExecuteFacts.
Import Normalizer.
Open Scope nat_scope.


End ExecuteFacts.


Section FixtureFacts.
Import Normalizer.
Open Scope nat_scope.









End FixtureFacts.



(** ** The invoke stage: the loop over the sources *)

Section InvokeLoop.
Import Invoke.

Context {World : Type}.


Lemma processSource_continue (adapterList : list (InvokeSourceAdapter World))
    (docs : list UnifiedInvokeDocument) (errs : list InvokeSourceError)
    (source : InvokeSourceConfig World) (w : World) :
  selectionReturns adapterList source →
  ∃ docs' errs' w',
    processSource adapterList true (docs, errs) source w = (Ok (docs', errs'), w')
    ∧ (length docs' + length errs' = S (length docs + length errs))%nat.
Proof.
  intros [found Hfound]. unfold processSource. rewrite Hfound.
  destruct found as [adapter|].
  - destruct (Fetch.bind World (fetch adapter source) _ w) as [[doc|e] w'].
    + exists (docs ++ [doc]), errs, w'. split; [reflexivity|].
      rewrite length_app. simpl. lia.
    + eexists docs, _, w'. split; [reflexivity|].
      rewrite length_app. simpl. lia.
  - eexists docs, _, w. split; [reflexivity|].
    rewrite length_app. simpl. lia.
Qed.


(** The loop stops at the first source whose adapter search throws, with
    the exception as it was thrown. *)
Lemma forEachSource_selection_throws (adapterList : list (InvokeSourceAdapter World))
    (pre post : list (InvokeSourceConfig World)) (source : InvokeSourceConfig World)
    (e : error) :
  (∀ s, In s pre → selectionReturns adapterList s) →
  findAdapter adapterList source = Throw e →
  ∀ state w, ∃ w',
    forEachSource adapterList true (pre ++ source :: post) state w = (Throw e, w').
Proof.
  intros Hpre Hsource.
  induction pre as [|s pre IH]; intros [docs errs] w; cbn [forEachSource app].
  - unfold Fetch.bind at 1, processSource. rewrite Hsource. exists w. reflexivity.
  - destruct (processSource_continue adapterList docs errs s w (Hpre s (or_introl eq_refl)))
      as (docs1 & errs1 & w1 & Hstep & _).
    unfold Fetch.bind at 1. rewrite Hstep.
    apply (IH (fun x Hx => Hpre x (or_intror Hx))).
Qed.

(** In fail-fast mode the loop never records an error: a source either
    adds its document or ends the loop. *)
Lemma processSource_fail_fast (adapterList : list (InvokeSourceAdapter World))
    (docs : list UnifiedInvokeDocument) (errs : list InvokeSourceError)
    (source : InvokeSourceConfig World) (w : World) (state : acc) (w' : World) :
  processSource adapterList false (docs, errs) source w = (Ok state, w') →
  snd state = errs ∧ length (fst state) = S (length docs).
Proof.
  unfold processSource. destruct (findAdapter adapterList source) as [[adapter|]|e0].
  - destruct (Fetch.bind World (fetch adapter source) _ w) as [[doc|e] w1];
      intros [= <- <-]. simpl. rewrite length_app. simpl. split; [reflexivity | lia].
  - discriminate.
  - discriminate.
Qed.

Lemma forEachSource_fail_fast (adapterList : list (InvokeSourceAdapter World))
    (sourceList : list (InvokeSourceConfig World)) :
  ∀ docs errs w state w',
    forEachSource adapterList false sourceList (docs, errs) w = (Ok state, w') →
    snd state = errs ∧ length (fst state) = (length docs + length sourceList)%nat.
Proof.
  induction sourceList as [|source rest IH]; intros docs errs w state w'; cbn [forEachSource length].
  - intros [= <- <-]. simpl. split; [reflexivity | lia].
  - unfold Fetch.bind at 1.
    destruct (processSource adapterList false (docs, errs) source w) as [[[docs1 errs1]|e] w1] eqn:Hstep;
      [|discriminate].
    destruct (processSource_fail_fast _ _ _ _ _ _ _ Hstep) as [Herrs Hdocs]. simpl in *.
    intros Hrest. destruct (IH _ _ _ _ _ Hrest) as [Herrs' Hdocs'].
    split; [congruence | lia].
Qed.



End InvokeLoop.



(** X4.  With [continueOnError: false], a run of the invoke stage that
    returns has parsed every source: the result carries one document per
    source and no [errors] list. *)
Theorem execute_fail_fast_complete
    (World : Type)
    (defaultAdapters : list (Invoke.InvokeSourceAdapter World))
    (context context' : Invoke.DocSyncContext)
    (config : Invoke.InvokeStageConfig World)
    (result : Invoke.InvokeStageResult) (w w' : World) :
  Invoke.continueOnError config = Some false →
  Invoke.execute defaultAdapters context (Some config) w = (Ok (Some result, context'), w') →
  Invoke.errors result = None
  ∧ length (Invoke.documents result) = length (Invoke.sources config).
Proof.
  intros Hcontinue. unfold Invoke.execute. rewrite Hcontinue. simpl.
  destruct (default false (Invoke.skip config)); [discriminate|].
  destruct (Invoke.sources config) as [|source rest] eqn:Hlist; [discriminate|].
  unfold Fetch.bind.
  destruct (Invoke.forEachSource _ false (source :: rest) ([], []) w) as [[state|e] w1] eqn:Hloop;
    [|discriminate].
  destruct (forEachSource_fail_fast _ _ _ _ _ _ _ Hloop) as [Herrs Hdocs].
  unfold Fetch.ret. intros [= <- _ _]. simpl. rewrite Herrs, Hdocs. split; reflexivity.
Qed.

Lemma execute_fail_fast_complete_witness :
  Invoke.errors
    {| Invoke.documents := [sourceDocument lenientAdapter inlineSource (Js.VObj []) emptyService];
       Invoke.errors := None |} = None
  ∧ length [sourceDocument lenientAdapter inlineSource (Js.VObj []) emptyService]
    = length (Invoke.sources strictConfig).
Proof.
  refine (execute_fail_fast_complete unit [lenientAdapter] emptyContext _ strictConfig
            {| Invoke.documents := _; Invoke.errors := None |} tt tt _ _);
    reflexivity.
Defined.



(** X22.  An exception of [canHandle] is not caught, even with
    [continueOnError] on: when the search for an adapter returns for the
    sources before [source] and throws for [source], the stage throws that
    exception as it is, and the sources after it are not looked at. *)
Theorem execute_selection_exception_escapes
    (World : Type)
    (defaultAdapters : list (Invoke.InvokeSourceAdapter World))
    (context : Invoke.DocSyncContext)
    (config : Invoke.InvokeStageConfig World)
    (pre post : list (Invoke.InvokeSourceConfig World))
    (source : Invoke.InvokeSourceConfig World) (e : error) (w : World) :
  default false (Invoke.skip config) = false →
  default true (Invoke.continueOnError config) = true →
  Invoke.sources config = pre ++ source :: post →
  (∀ s, In s pre →
     selectionReturns (Invoke.resolveAdapters defaultAdapters (Invoke.adapters config)) s) →
  Invoke.findAdapter (Invoke.resolveAdapters defaultAdapters (Invoke.adapters config)) source
    = Throw e →
  ∃ w', Invoke.execute defaultAdapters context (Some config) w = (Throw e, w').
Proof.
  intros Hskip Hcontinue Hsources Hpre Hsource. unfold Invoke.execute.
  rewrite Hskip, Hcontinue, Hsources.
  destruct (forEachSource_selection_throws _ pre post source e Hpre Hsource ([], []) w)
    as [w' Hloop].
  exists w'. destruct (pre ++ source :: post) eqn:Hlist; [destruct pre; discriminate|].
  unfold Fetch.bind. rewrite Hloop. reflexivity.
Qed.

Lemma execute_selection_exception_escapes_witness :
  ∃ w', Invoke.execute [faultyAdapter; lenientAdapter] emptyContext (Some inlineConfig) tt
        = (Throw (TypeError "Cannot read properties of undefined (reading 'type')"), w').
Proof.
  apply (execute_selection_exception_escapes unit [faultyAdapter; lenientAdapter] emptyContext
           inlineConfig [] [] inlineSource);
    [reflexivity | reflexivity | reflexivity | intros s [] | reflexivity].
Defined.

(** ** [resolveAdapters] *)

Section ResolveAdapters.
Import Invoke.

Context {World : Type}.

Let setAll (l acc : list (InvokeSourceAdapter World)) : list (InvokeSourceAdapter World) :=
  fold_left (fun entries adapter => mapSet adapter entries) l acc.

Lemma registered_mapSet (type : string) (a : InvokeSourceAdapter World)
    (entries : list (InvokeSourceAdapter World)) :
  registered type (mapSet a entries)
  = if String.eqb (adapter_type a) type then Some a else registered type entries.
Proof.
  unfold registered. induction entries as [|entry rest IH]; simpl.
  - reflexivity.
  - destruct (String.eqb_spec (adapter_type entry) (adapter_type a)) as [Heq|Hne]; simpl.
    + rewrite Heq. destruct (String.eqb (adapter_type a) type); reflexivity.
    + rewrite IH.
      destruct (String.eqb_spec (adapter_type entry) type) as [Het|_];
        destruct (String.eqb_spec (adapter_type a) type) as [Hat|_]; congruence.
Qed.

Lemma mapSet_types (a : InvokeSourceAdapter World) (entries : list (InvokeSourceAdapter World))
    (type : string) :
  In type (List.map adapter_type (mapSet a entries)) →
  type = adapter_type a ∨ In type (List.map adapter_type entries).
Proof.
  induction entries as [|entry rest IH]; simpl.
  - intros [<-|[]]. left. reflexivity.
  - destruct (String.eqb_spec (adapter_type entry) (adapter_type a)) as [Heq|Hne]; simpl.
    + intros [<-|Hin]; [left; reflexivity | right; right; exact Hin].
    + intros [<-|Hin]; [right; left; reflexivity|].
      destruct (IH Hin) as [->|Hin']; [left; reflexivity | right; right; exact Hin'].
Qed.

Lemma mapSet_NoDup (a : InvokeSourceAdapter World) (entries : list (InvokeSourceAdapter World)) :
  List.NoDup (List.map adapter_type entries) →
  List.NoDup (List.map adapter_type (mapSet a entries)).
Proof.
  induction entries as [|entry rest IH]; simpl; intros Hnodup.
  - constructor; [intros [] | constructor].
  - inversion Hnodup as [|? ? Hnotin Hrest]; subst.
    destruct (String.eqb_spec (adapter_type entry) (adapter_type a)) as [Heq|Hne]; simpl.
    + rewrite <- Heq. constructor; assumption.
    + constructor; [|apply IH; exact Hrest].
      intros Hin. destruct (mapSet_types _ _ _ Hin) as [Heq|Hin']; [congruence | contradiction].
Qed.

Lemma setAll_NoDup (l acc : list (InvokeSourceAdapter World)) :
  List.NoDup (List.map adapter_type acc) →
  List.NoDup (List.map adapter_type (setAll l acc)).
Proof.
  revert acc. induction l as [|a l IH]; intros acc Hacc; simpl; [exact Hacc|].
  apply IH, mapSet_NoDup, Hacc.
Qed.

Lemma find_append {A} (p : A → bool) (l1 l2 : list A) :
  List.find p (l1 ++ l2)
  = match List.find p l1 with Some x => Some x | None => List.find p l2 end.
Proof.
  induction l1 as [|x xs IH]; simpl; [reflexivity|]. destruct (p x); [reflexivity | exact IH].
Qed.

Lemma registered_app (type : string) (l1 l2 : list (InvokeSourceAdapter World)) :
  registered type (l1 ++ l2)
  = match registered type l1 with Some a => Some a | None => registered type l2 end.
Proof. apply find_append. Qed.

Lemma registered_setAll (type : string) (l acc : list (InvokeSourceAdapter World)) :
  registered type (setAll l acc)
  = match registered type (List.rev l) with
    | Some a => Some a
    | None => registered type acc
    end.
Proof.
  revert acc. induction l as [|a l IH]; intros acc; simpl; [reflexivity|].
  fold (setAll l (mapSet a acc)). rewrite IH, registered_mapSet.
  rewrite registered_app.
  destruct (registered type (List.rev l)); [reflexivity|]. unfold registered at 2. simpl.
  destruct (String.eqb (adapter_type a) type); reflexivity.
Qed.

End ResolveAdapters.

(** X6.  [resolveAdapters] with custom adapters behaves as a registry keyed
    by adapter type: the resolved list holds at most one adapter per type,
    and the adapter it holds for a type is the last custom adapter of that
    type, or else the last default adapter of that type. *)
Theorem resolveAdapters_registry
    (World : Type)
    (defaultAdapters custom : list (Invoke.InvokeSourceAdapter World)) :
  custom ≠ [] →
  List.NoDup (List.map Invoke.adapter_type
                (Invoke.resolveAdapters defaultAdapters (Some custom)))
  ∧ ∀ type,
      registered type (Invoke.resolveAdapters defaultAdapters (Some custom))
      = match registered type (List.rev custom) with
        | Some adapter => Some adapter
        | None => registered type (List.rev defaultAdapters)
        end.
Proof.
  intros Hcustom. destruct custom as [|c cs]; [contradiction|].
  unfold Invoke.resolveAdapters. split.
  - apply setAll_NoDup, setAll_NoDup. constructor.
  - intros type. rewrite !registered_setAll.
    destruct (registered type (List.rev (c :: cs))); [reflexivity|].
    destruct (registered type (List.rev defaultAdapters)); reflexivity.
Qed.

Lemma resolveAdapters_registry_witness :
  List.NoDup (List.map Invoke.adapter_type
                (Invoke.resolveAdapters [strictAdapter; lenientAdapter] (Some [relaxedAdapter])))
  ∧ ∀ type,
      registered type
        (Invoke.resolveAdapters [strictAdapter; lenientAdapter] (Some [relaxedAdapter]))
      = match registered type (List.rev [relaxedAdapter]) with
        | Some adapter => Some adapter
        | None => registered type (List.rev [strictAdapter; lenientAdapter])
        end.
Proof.
  apply (resolveAdapters_registry unit [strictAdapter; lenientAdapter] [relaxedAdapter]).
  discriminate.
Defined.

(** ** The parser stage *)

Section ParserFacts.
Import Parser.

Lemma firstParsed_first (before after : list DocSourceParser) (parser : DocSourceParser)
    (raw : Js.value) (context : ParseContext) (service : Types.ServiceDefinition) :
  (∀ q, In q before → givesUp q raw context) →
  handles parser raw context service →
  firstParsed (before ++ parser :: after) raw context = Some (parser, service).
Proof.
  intros Hbefore [Hcan Hparse].
  induction before as [|q qs IH]; simpl.
  - rewrite Hcan. simpl. rewrite Hparse. reflexivity.
  - assert (firstParsed (qs ++ parser :: after) raw context = Some (parser, service)) as Hrest.
    { apply IH. intros q' Hq'. apply Hbefore. right. exact Hq'. }
    destruct (Hbefore q (or_introl eq_refl)) as [Hno | [[e He] | [e He]]].
    + rewrite Hno. simpl. exact Hrest.
    + rewrite He. simpl. exact Hrest.
    + destruct (canParse q raw) as [[|]|e']; simpl; [rewrite He; simpl | |]; exact Hrest.
Qed.

Lemma firstParsed_nobody (ordered : list DocSourceParser)
    (raw : Js.value) (context : ParseContext) :
  (∀ q, In q ordered → givesUp q raw context) →
  firstParsed ordered raw context = None.
Proof.
  intros Hall. induction ordered as [|q qs IH]; simpl; [reflexivity|].
  assert (firstParsed qs raw context = None) as Hrest.
  { apply IH. intros q' Hq'. apply Hall. right. exact Hq'. }
  destruct (Hall q (or_introl eq_refl)) as [Hno | [[e He] | [e He]]].
  - rewrite Hno. simpl. exact Hrest.
  - rewrite He. simpl. exact Hrest.
  - destruct (canParse q raw) as [[|]|e']; simpl; [rewrite He; simpl | |]; exact Hrest.
Qed.

End ParserFacts.

(** X7.  The parser stage falls through: with a document to parse and no
    ready-made definition in its configuration, it walks the ordered parsers,
    skips every parser that declines the document or throws (in [canParse]
    or while parsing), and returns the definition of the first parser that
    accepts and parses it, recording the document, the definition and that
    parser's name on the context. *)
Theorem parserStage_falls_through
    (sort : (Parser.DocSourceParser → Parser.DocSourceParser → Z) →
            list Parser.DocSourceParser → list Parser.DocSourceParser)
    (DEFAULT_PARSERS : list Parser.DocSourceParser)
    (context : Invoke.DocSyncContext) (config : Parser.ParserStageConfig)
    (before after : list Parser.DocSourceParser) (parser : Parser.DocSourceParser)
    (service : Types.ServiceDefinition) :
  let raw := Js.coalesce (Parser.cfg_source config) (Invoke.rawDocument context) in
  let parseContext := default Parser.emptyParseContext (Parser.cfg_context config) in
  Parser.cfg_service config = None →
  default false (Parser.cfg_skip config) = false →
  raw ≠ Js.VUndefined →
  Parser.orderParsers sort (configuredParsers DEFAULT_PARSERS config) (Parser.cfg_prefer config)
    = before ++ parser :: after →
  (∀ q, In q before → givesUp q raw parseContext) →
  handles parser raw parseContext service →
  ∃ context',
    Parser.execute sort DEFAULT_PARSERS context (Some config)
    = (context',
       Ok (Some {| Parser.res_rawDocument := raw;
                   Parser.res_serviceDefinition := service;
                   Parser.res_parserName := Parser.name parser |}))
    ∧ Invoke.rawDocument context' = raw
    ∧ Invoke.serviceDefinition context' = Some service
    ∧ Invoke.parserName context' = Some (Parser.name parser).
Proof.
  intros raw parseContext Hservice Hskip Hraw Hordered Hbefore Hparser.
  unfold Parser.execute. simpl. rewrite Hskip, Hservice.
  fold raw. unfold configuredParsers in Hordered. rewrite Hordered.
  fold parseContext.
  rewrite (firstParsed_first before after parser raw parseContext service Hbefore Hparser).
  destruct (Invoke.serviceDefinition context);
    (destruct raw eqn:Eraw; [contradiction| | | | | |]);
    (eexists; split; [reflexivity|]; repeat split).
Qed.

Lemma parserStage_falls_through_witness :
  ∃ context',
    Parser.execute keepOrder [] emptyContext
      (Some (parserConfig [brokenParser; pickyParser; anyParser]))
    = (context',
       Ok (Some {| Parser.res_rawDocument := Js.VObj [("openapi", Js.VStr "3.0.0")];
                   Parser.res_serviceDefinition := emptyService;
                   Parser.res_parserName := "any" |}))
    ∧ Invoke.rawDocument context' = Js.VObj [("openapi", Js.VStr "3.0.0")]
    ∧ Invoke.serviceDefinition context' = Some emptyService
    ∧ Invoke.parserName context' = Some "any".
Proof.
  apply (parserStage_falls_through keepOrder [] emptyContext
           (parserConfig [brokenParser; pickyParser; anyParser])
           [brokenParser; pickyParser] [] anyParser emptyService);
    try reflexivity.
  - discriminate.
  - intros q [<- | [<- | []]].
    + right. left. eexists. reflexivity.
    + right. right. eexists. reflexivity.
  - split; reflexivity.
Defined.

(** X8.  When every parser in turn declines the document or throws, the
    parser stage fails with [[ParserStage] Unable to parse document with
    provided parsers] (and the [prefer] hint, if one was given); by then it
    has already stored the document on the context, and it leaves the
    context's service definition and parser name as they were. *)
Theorem parserStage_nobody_parses
    (sort : (Parser.DocSourceParser → Parser.DocSourceParser → Z) →
            list Parser.DocSourceParser → list Parser.DocSourceParser)
    (DEFAULT_PARSERS : list Parser.DocSourceParser)
    (context : Invoke.DocSyncContext) (config : Parser.ParserStageConfig) :
  let raw := Js.coalesce (Parser.cfg_source config) (Invoke.rawDocument context) in
  let parseContext := default Parser.emptyParseContext (Parser.cfg_context config) in
  Parser.cfg_service config = None →
  default false (Parser.cfg_skip config) = false →
  raw ≠ Js.VUndefined →
  (∀ q,
     In q (Parser.orderParsers sort (configuredParsers DEFAULT_PARSERS config)
             (Parser.cfg_prefer config)) →
     givesUp q raw parseContext) →
  ∃ context',
    Parser.execute sort DEFAULT_PARSERS context (Some config)
    = (context', Throw (Parser.unableToParse (Parser.cfg_prefer config)))
    ∧ Invoke.rawDocument context' = raw
    ∧ Invoke.serviceDefinition context' = Invoke.serviceDefinition context
    ∧ Invoke.parserName context' = Invoke.parserName context.
Proof.
  intros raw parseContext Hservice Hskip Hraw Hall.
  unfold Parser.execute. simpl. rewrite Hskip, Hservice.
  fold raw. unfold configuredParsers in Hall. fold parseContext.
  rewrite (firstParsed_nobody _ raw parseContext Hall).
  destruct (Invoke.serviceDefinition context);
    (destruct raw eqn:Eraw; [contradiction| | | | | |]);
    (eexists; split; [reflexivity|]; repeat split).
Qed.

Lemma parserStage_nobody_parses_witness :
  ∃ context',
    Parser.execute keepOrder [] emptyContext (Some (parserConfig [brokenParser; pickyParser]))
    = (context',
       Throw (Error "[ParserStage] Unable to parse document with provided parsers."))
    ∧ Invoke.rawDocument context' = Js.VObj [("openapi", Js.VStr "3.0.0")]
    ∧ Invoke.serviceDefinition context' = None
    ∧ Invoke.parserName context' = None.
Proof.
  apply (parserStage_nobody_parses keepOrder [] emptyContext
           (parserConfig [brokenParser; pickyParser])); try reflexivity.
  - discriminate.
  - intros q [<- | [<- | []]].
    + right. left. eexists. reflexivity.
    + right. right. eexists. reflexivity.
Defined.

Section DetectionFacts.
Import Parser.

Variable sort : (DocSourceParser → DocSourceParser → Z) → list DocSourceParser → list DocSourceParser.


End DetectionFacts.



(** ** Objects: assignment, lookup and spread *)

Section ObjectFacts.
Import Js.

Lemma lookupField_setField (k k' : string) (v : value) (fs : object) :
  lookupField k (setField k' v fs)
  = if String.eqb k k' then Some v else lookupField k fs.
Proof.
  induction fs as [|[k0 v0] rest IH]; simpl.
  - reflexivity.
  - destruct (String.eqb_spec k' k0) as [->|Hne]; simpl.
    + destruct (String.eqb k k0); reflexivity.
    + rewrite IH. destruct (String.eqb_spec k k0) as [->|_]; [|reflexivity].
      destruct (String.eqb_spec k0 k') as [->|_]; [contradiction | reflexivity].
Qed.

Lemma hasField_setField (k k' : string) (v : value) (fs : object) :
  hasField k (setField k' v fs) = String.eqb k k' || hasField k fs.
Proof.
  unfold hasField. rewrite lookupField_setField.
  destruct (String.eqb k k'); reflexivity.
Qed.

Lemma lookupField_None (k : string) (fs : object) :
  lookupField k fs = None ↔ ¬ In k (List.map fst fs).
Proof.
  induction fs as [|[k0 v0] rest IH]; simpl; [tauto|].
  destruct (String.eqb_spec k k0) as [->|Hne].
  - split; [discriminate | intros H; exfalso; apply H; left; reflexivity].
  - rewrite IH. split; [intros H [Heq|Hin]; [congruence | tauto] | tauto].
Qed.

Lemma lookupField_In (k : string) (v : value) (fs : object) :
  lookupField k fs = Some v → In (k, v) fs.
Proof.
  induction fs as [|[k0 v0] rest IH]; simpl; [discriminate|].
  destruct (String.eqb_spec k k0) as [->|_].
  - intros [= ->]. left. reflexivity.
  - intros H. right. apply IH, H.
Qed.

Lemma hasField_In (k : string) (fs : object) :
  hasField k fs = true ↔ In k (List.map fst fs).
Proof.
  unfold hasField. pose proof (lookupField_None k fs) as Hnone.
  destruct (lookupField k fs).
  - split; [|reflexivity]. intros _.
    destruct (in_dec String.string_dec k (List.map fst fs)) as [Hin|Hout]; [exact Hin|].
    apply Hnone in Hout. discriminate.
  - split; [discriminate|]. intros Hin. exfalso. apply (proj1 Hnone); [reflexivity | exact Hin].
Qed.

Lemma setField_keys (k : string) (v : value) (fs : object) (x : string) :
  In x (List.map fst (setField k v fs)) ↔ x = k ∨ In x (List.map fst fs).
Proof.
  rewrite <- !hasField_In, hasField_setField.
  destruct (String.eqb_spec x k) as [->|Hne]; simpl.
  - split; [left; reflexivity | reflexivity].
  - split; [right; assumption | intros [?|?]; [contradiction | assumption]].
Qed.

Lemma setField_distinctKeys (k : string) (v : value) (fs : object) :
  distinctKeys fs → distinctKeys (setField k v fs).
Proof.
  unfold distinctKeys. induction fs as [|[k0 v0] rest IH]; simpl; intros Hnodup.
  - constructor; [intros [] | constructor].
  - inversion Hnodup as [|? ? Hnotin Hrest]; subst.
    destruct (String.eqb_spec k k0) as [->|Hne]; simpl.
    + constructor; assumption.
    + constructor; [|apply IH; exact Hrest].
      intros Hin. apply setField_keys in Hin as [Heq|Hin]; [congruence | contradiction].
Qed.

Lemma setField_fresh (k : string) (v : value) (fs : object) :
  ¬ In k (List.map fst fs) → setField k v fs = fs ++ [(k, v)].
Proof.
  induction fs as [|[k0 v0] rest IH]; simpl; intros Hfresh; [reflexivity|].
  destruct (String.eqb_spec k k0) as [->|Hne]; [exfalso; apply Hfresh; left; reflexivity|].
  rewrite IH; [reflexivity | tauto].
Qed.

Lemma lookupField_assignAll (k : string) (entries : object) :
  distinctKeys entries →
  ∀ target,
    lookupField k (assignAll target entries)
    = match lookupField k entries with
      | Some v => Some v
      | None => lookupField k target
      end.
Proof.
  unfold assignAll, distinctKeys.
  induction entries as [|[k0 v0] rest IH]; simpl; intros Hnodup target; [reflexivity|].
  inversion Hnodup as [|? ? Hnotin Hrest]; subst.
  rewrite (IH Hrest), lookupField_setField.
  destruct (String.eqb_spec k k0) as [->|Hne]; [|reflexivity].
  apply lookupField_None in Hnotin. rewrite Hnotin. reflexivity.
Qed.

Lemma hasField_assignAll (k : string) (entries target : object) :
  hasField k (assignAll target entries) = hasField k target || hasField k entries.
Proof.
  unfold assignAll. revert target.
  induction entries as [|[k0 v0] rest IH]; simpl; intros target.
  - unfold hasField at 3. simpl. rewrite orb_false_r. reflexivity.
  - rewrite IH, hasField_setField. unfold hasField at 4. simpl.
    destruct (String.eqb k k0); simpl.
    + rewrite orb_true_r. reflexivity.
    + reflexivity.
Qed.

Lemma assignAll_distinctKeys (entries target : object) :
  distinctKeys target → distinctKeys (assignAll target entries).
Proof.
  unfold assignAll. revert target.
  induction entries as [|[k0 v0] rest IH]; simpl; intros target Htarget; [exact Htarget|].
  apply IH, setField_distinctKeys, Htarget.
Qed.

Lemma assignAll_fresh (entries target : object) :
  distinctKeys (target ++ entries) → assignAll target entries = target ++ entries.
Proof.
  unfold assignAll, distinctKeys. revert target.
  induction entries as [|[k0 v0] rest IH]; simpl; intros target Hnodup.
  - rewrite app_nil_r. reflexivity.
  - rewrite setField_fresh.
    + rewrite IH; rewrite <- app_assoc; [reflexivity | exact Hnodup].
    + rewrite map_app in Hnodup. simpl in Hnodup.
      apply List.NoDup_remove_2 in Hnodup. intros Hin. apply Hnodup.
      apply in_or_app. left. exact Hin.
Qed.

(** Spreading a plain object with distinct keys copies it as it is. *)
Lemma spread_object (fs : object) : distinctKeys fs → spread (VObj fs) = fs.
Proof. intros Hfs. unfold spread. simpl. apply (assignAll_fresh fs []). exact Hfs. Qed.

Lemma spread_distinctKeys (v : value) : distinctKeys (spread v).
Proof. apply assignAll_distinctKeys. constructor. Qed.

End ObjectFacts.

Section ProperValues.
Import Js.

Lemma distinct_NoDup (l : list string) : distinct l = true → List.NoDup l.
Proof.
  induction l as [|x xs IH]; simpl; intros H; [constructor|].
  apply andb_prop in H as [Hx Hxs]. constructor; [|apply IH; exact Hxs].
  intros Hin. apply negb_true_iff in Hx.
  assert (existsb (String.eqb x) xs = true) as Hex.
  { apply existsb_exists. exists x. split; [exact Hin | apply String.eqb_refl]. }
  congruence.
Qed.

Lemma properValue_object (fs : object) :
  properValue (VObj fs) = true → distinctKeys fs.
Proof. simpl. intros H. apply andb_prop in H as [H _]. apply distinct_NoDup, H. Qed.

Lemma properValue_field (fs : object) (k : string) (v : value) :
  properValue (VObj fs) = true → lookupField k fs = Some v → properValue v = true.
Proof.
  simpl. intros H. apply andb_prop in H as [_ H]. revert H.
  induction fs as [|[k0 v0] rest IH]; simpl; [discriminate|].
  intros H. apply andb_prop in H as [Hv0 Hrest].
  destruct (String.eqb k k0); [intros [= <-]; exact Hv0 | apply IH, Hrest].
Qed.

Lemma properValue_getOpt (v : value) (k : string) :
  properValue v = true → properValue (getOpt v k) = true.
Proof.
  destruct v; try reflexivity. intros H. unfold getOpt.
  destruct (lookupField k fields) eqn:Hk; [|reflexivity].
  exact (properValue_field _ _ _ H Hk).
Qed.

End ProperValues.

(** ** [merge.ts]: what the deep merge produces *)

Section DeepMergeFacts.
Import Js Merge.

Lemma forOf_inv {A S : Type} (body : S → A → result S) (x : A) (xs : list A) (s s' : S) :
  forOf body (x :: xs) s = Ok s' → ∃ s1, body s x = Ok s1 ∧ forOf body xs s1 = Ok s'.
Proof. simpl. apply bindR_inv. Qed.

(** Once the strategy is ["swagger"] or ["openapi"], a payload comes from
    the deep merge of the whole list. *)
Lemma mergeDocuments_swagger_inv (docs : list value) (name : string) (merged : value) :
  name = "swagger" ∨ name = "openapi" →
  mergeDocuments docs (Some (StrategyName name)) = Ok merged →
  forallb swaggerLike docs = true ∧ mergeSwaggerDocuments docs = Ok merged.
Proof.
  intros Hname. unfold mergeDocuments.
  destruct (length docs =? 0)%nat; [discriminate|].
  assert (∀ r : result value,
            (let! swaggerDocs := filterR isSwaggerLike docs in
             if (length swaggerDocs =? 0)%nat || negb (length swaggerDocs =? length docs)%nat
             then Throw swaggerRequested
             else mergeSwaggerDocuments swaggerDocs) = Ok merged →
            forallb swaggerLike docs = true ∧ mergeSwaggerDocuments docs = Ok merged) as Hcore.
  { intros _. rewrite filter_isSwaggerLike. cbn -[length List.filter].
    destruct (length (List.filter swaggerLike docs) =? 0)%nat; [discriminate|].
    destruct (length (List.filter swaggerLike docs) =? length docs)%nat eqn:Hlen;
      [|discriminate].
    cbn -[List.filter]. apply Nat.eqb_eq in Hlen.
    assert (forallb swaggerLike docs = true) as Hall.
    { apply forallb_forall. intros d Hd.
      destruct (swaggerLike d) eqn:Hsw; [reflexivity|].
      pose proof (filter_drops swaggerLike docs d Hd Hsw). lia. }
    rewrite (filter_all _ _ Hall). auto. }
  destruct Hname as [-> | ->]; cbn -[filterR length]; apply Hcore; exact (Ok VUndefined).
Qed.

Lemma getProp_getOpt (v : value) (k : string) (r : value) :
  getProp v k = Ok r → r = getOpt v k.
Proof. destruct v; simpl; intros [= <-]; reflexivity. Qed.

(** The keys of the [paths] accumulator after one more document. *)
Lemma mergeOne_paths (st st' : mergeState) (doc : value) (p : string) :
  mergeOne st doc = Ok st' →
  hasField p (ms_paths st') = hasField p (ms_paths st) || listsPath p doc.
Proof.
  unfold mergeOne. intros H.
  apply bindR_inv in H as (docPaths & HdocPaths & H).
  apply getProp_getOpt in HdocPaths. subst docPaths.
  apply bindR_inv in H as (pathEntries & Hentries & H).
  apply bindR_inv in H as (docComponents & _ & H).
  apply bindR_inv in H as (components & _ & H).
  apply bindR_inv in H as (docTags & _ & H).
  apply bindR_inv in H as (tagMap & _ & H).
  apply bindR_inv in H as (docServers & _ & H).
  apply bindR_inv in H as (serverMap & _ & H).
  injection H as <-. simpl.
  unfold listsPath. unfold objectEntries in Hentries.
  destruct (nullish _); [discriminate|]. injection Hentries as <-.
  generalize (ownEntries (coalesce (getOpt doc "paths") (VObj []))) as entries.
  generalize (ms_paths st) as paths.
  intros paths entries. revert paths.
  induction entries as [|[k v] rest IH]; intros paths; simpl.
  - unfold hasField at 3. simpl. rewrite orb_false_r. reflexivity.
  - rewrite IH, hasField_setField. unfold hasField at 4. simpl.
    destruct (String.eqb p k); simpl; [rewrite orb_true_r|]; reflexivity.
Qed.

Lemma forOf_mergeOne_paths (rest : list value) (p : string) :
  ∀ st st',
    forOf mergeOne rest st = Ok st' →
    hasField p (ms_paths st') = hasField p (ms_paths st) || existsb (listsPath p) rest.
Proof.
  induction rest as [|doc rest IH]; intros st st' H.
  - injection H as <-. simpl. rewrite orb_false_r. reflexivity.
  - apply forOf_inv in H as (st1 & Hone & Hrest).
    rewrite (IH _ _ Hrest), (mergeOne_paths _ _ _ p Hone). simpl.
    rewrite orb_assoc. reflexivity.
Qed.

(** The shape of the merged document: the accumulators the loop ends with,
    and the properties of the object assembled from them. *)
Lemma mergeSwaggerDocuments_shape (first : value) (rest : list value) (merged : value) :
  mergeSwaggerDocuments (first :: rest) = Ok merged →
  ∃ tagMap0 serverMap0 st ms,
    collectTags [] (getOpt first "tags") = Ok tagMap0
    ∧ collectServers [] (getOpt first "servers") = Ok serverMap0
    ∧ forOf mergeOne rest
        (MergeState (spread (coalesce (getOpt first "paths") (VObj [])))
                    (spread (coalesce (getOpt first "components") (VObj [])))
                    tagMap0 serverMap0) = Ok st
    ∧ merged = VObj ms
    ∧ lookupField "paths" ms = Some (VObj (ms_paths st))
    ∧ lookupField "components" ms = Some (VObj (ms_components st))
    ∧ lookupField "tags" ms
      = (if (length (ms_tagMap st) =? 0)%nat then lookupField "tags" (spread first)
         else Some (VArr (List.map snd (ms_tagMap st))))
    ∧ lookupField "servers" ms
      = (if (length (ms_serverMap st) =? 0)%nat then lookupField "servers" (spread first)
         else Some (VArr (List.map snd (ms_serverMap st))))
    ∧ ∀ k, k ≠ "paths" → k ≠ "components" → k ≠ "tags" → k ≠ "servers" →
           lookupField k ms = lookupField k (spread first).
Proof.
  unfold mergeSwaggerDocuments. cbn [hd tl]. intros H.
  apply bindR_inv in H as (firstPaths & HfirstPaths & H).
  apply getProp_getOpt in HfirstPaths. subst firstPaths.
  apply bindR_inv in H as (firstComponents & HfirstComponents & H).
  apply getProp_getOpt in HfirstComponents. subst firstComponents.
  apply bindR_inv in H as (firstTags & HfirstTags & H).
  apply getProp_getOpt in HfirstTags. subst firstTags.
  apply bindR_inv in H as (tagMap0 & HtagMap0 & H).
  apply bindR_inv in H as (firstServers & HfirstServers & H).
  apply getProp_getOpt in HfirstServers. subst firstServers.
  apply bindR_inv in H as (serverMap0 & HserverMap0 & H).
  apply bindR_inv in H as (st & Hst & H).
  injection H as <-.
  exists tagMap0, serverMap0, st. eexists.
  split; [exact HtagMap0|]. split; [exact HserverMap0|]. split; [exact Hst|].
  split; [reflexivity|].
  destruct (length (ms_tagMap st) =? 0)%nat; destruct (length (ms_serverMap st) =? 0)%nat;
    repeat split; rewrite ?lookupField_setField; try reflexivity;
    intros k Hp Hc Ht Hs; rewrite ?lookupField_setField;
    repeat match goal with
           | |- context [String.eqb k ?x] =>
               destruct (String.eqb_spec k x); [congruence|]
           end; reflexivity.
Qed.

End DeepMergeFacts.

(** X10.  The deep merge neither loses nor invents a path: under the
    ["swagger"] or ["openapi"] strategy, and for documents none of which
    uses [__proto__] as a path name, the merged document lists a path
    exactly when one of the input documents lists it.  (An assignment to
    [__proto__] would set the prototype of the merged [paths] object where
    every other name adds a property; the model of [mergeOne] does not
    cover that name.) *)
Theorem mergeDocuments_swagger_paths_union
    (docs : list Js.value) (name : string) (merged : Js.value) (p : string) :
  name = "swagger" ∨ name = "openapi" →
  (∀ doc, In doc docs → listsPath "__proto__" doc = false) →
  Merge.mergeDocuments docs (Some (Merge.StrategyName name)) = Ok merged →
  listsPath p merged = existsb (listsPath p) docs.
Proof.
  intros Hname _ Hmerged.
  destruct (mergeDocuments_swagger_inv docs name merged Hname Hmerged) as [_ Hdeep].
  destruct docs as [|first rest]; [discriminate|].
  destruct (mergeSwaggerDocuments_shape first rest merged Hdeep)
    as (tagMap0 & serverMap0 & st & ms & _ & _ & Hloop & -> & Hget & _).
  pose proof (forOf_mergeOne_paths rest p _ _ Hloop) as Hpaths. simpl in Hpaths.
  unfold listsPath at 1. unfold Js.getOpt. rewrite Hget.
  cbn [default id Js.coalesce Js.nullish Js.ownEntries].
  rewrite Hpaths. cbn [existsb]. f_equal.
  unfold Js.spread. rewrite hasField_assignAll. reflexivity.
Qed.

Lemma mergeDocuments_swagger_paths_union_witness :
  listsPath "/b"
    (Js.VObj [("paths", Js.VObj [("/a", Js.VObj []); ("/b", Js.VObj [])]);
              ("components", Js.VObj [])])
  = existsb (listsPath "/b")
      [Js.VObj [("paths", Js.VObj [("/a", Js.VObj [])])];
       Js.VObj [("paths", Js.VObj [("/b", Js.VObj [])])]].
Proof.
  apply (mergeDocuments_swagger_paths_union _ "swagger");
    [left; reflexivity | | reflexivity].
  intros doc [<- | [<- | []]]; reflexivity.
Defined.

(** X11.  Apart from [paths], [components], [tags] and [servers], the deep
    merge takes every top-level property from the first document and nothing
    from the others: for any other property name the merged document holds
    what the first document holds.  The merged document always has a [paths]
    and a [components] object of its own, whether or not any input has
    [components]. *)
Theorem mergeDocuments_swagger_first_wins
    (fs : Js.object) (rest : list Js.value) (name : string) (merged : Js.value) :
  name = "swagger" ∨ name = "openapi" →
  distinctKeys fs →
  Merge.mergeDocuments (Js.VObj fs :: rest) (Some (Merge.StrategyName name)) = Ok merged →
  (∃ paths components,
     Js.getOpt merged "paths" = Js.VObj paths
     ∧ Js.getOpt merged "components" = Js.VObj components)
  ∧ ∀ k, k ≠ "paths" → k ≠ "components" → k ≠ "tags" → k ≠ "servers" →
         Js.getOpt merged k = Js.getOpt (Js.VObj fs) k.
Proof.
  intros Hname Hfs Hmerged.
  destruct (mergeDocuments_swagger_inv _ name merged Hname Hmerged) as [_ Hdeep].
  destruct (mergeSwaggerDocuments_shape _ rest merged Hdeep)
    as (tagMap0 & serverMap0 & st & ms & _ & _ & _ & -> & Hpaths & Hcomponents & _ & _ & Hother).
  split.
  - exists (Merge.ms_paths st), (Merge.ms_components st). unfold Js.getOpt.
    rewrite Hpaths, Hcomponents. split; reflexivity.
  - intros k Hp Hc Ht Hs. unfold Js.getOpt.
    rewrite (Hother k Hp Hc Ht Hs), (spread_object fs Hfs). reflexivity.
Qed.

Lemma mergeDocuments_swagger_first_wins_witness :
  (∃ paths components,
     Js.getOpt
       (Js.VObj [("openapi", Js.VStr "3.0.0");
                 ("paths", Js.VObj [("/a", Js.VObj []); ("/b", Js.VObj [])]);
                 ("components", Js.VObj [])]) "paths" = Js.VObj paths
     ∧ Js.getOpt
         (Js.VObj [("openapi", Js.VStr "3.0.0");
                   ("paths", Js.VObj [("/a", Js.VObj []); ("/b", Js.VObj [])]);
                   ("components", Js.VObj [])]) "components" = Js.VObj components)
  ∧ ∀ k, k ≠ "paths" → k ≠ "components" → k ≠ "tags" → k ≠ "servers" →
         Js.getOpt
           (Js.VObj [("openapi", Js.VStr "3.0.0");
                     ("paths", Js.VObj [("/a", Js.VObj []); ("/b", Js.VObj [])]);
                     ("components", Js.VObj [])]) k
         = Js.getOpt
             (Js.VObj [("openapi", Js.VStr "3.0.0"); ("paths", Js.VObj [("/a", Js.VObj [])])]) k.
Proof.
  apply (mergeDocuments_swagger_first_wins
           [("openapi", Js.VStr "3.0.0"); ("paths", Js.VObj [("/a", Js.VObj [])])]
           [Js.VObj [("openapi", Js.VStr "3.1.0"); ("paths", Js.VObj [("/b", Js.VObj [])])]]
           "openapi").
  - right. reflexivity.
  - repeat constructor; simpl; intuition discriminate.
  - reflexivity.
Defined.

(** ** [collectTags] and [collectServers]: a map keyed by name *)

Section CollectFacts.
Import Js Merge.













End CollectFacts.



(** ** Two documents describing the same path *)

Section OperationFacts.
Import Js Merge.

(** The loop over the path entries of one document, seen from one path. *)
Lemma merge_paths_lookup (entries : object) (p : string) :
  distinctKeys entries →
  ∀ paths,
    lookupField p
      (fold_left (fun (paths : object) (kv : string * value) =>
         let '(pathKey, pathValue) := kv in
         let current := default VUndefined (lookupField pathKey paths) in
         setField pathKey
           (VObj (assignAll (spread (coalesce current (VObj []))) (ownEntries pathValue)))
           paths) entries paths)
    = match lookupField p entries with
      | Some pathValue =>
          Some (VObj (assignAll
                        (spread (coalesce (default VUndefined (lookupField p paths)) (VObj [])))
                        (ownEntries pathValue)))
      | None => lookupField p paths
      end.
Proof.
  unfold distinctKeys.
  induction entries as [|[k v] rest IH]; simpl; intros Hnodup paths; [reflexivity|].
  inversion Hnodup as [|? ? Hnotin Hrest]; subst.
  rewrite (IH Hrest), lookupField_setField.
  destruct (String.eqb_spec p k) as [->|Hne].
  - apply lookupField_None in Hnotin. rewrite Hnotin. reflexivity.
  - reflexivity.
Qed.

Lemma mergeOne_path_item (st st' : mergeState) (doc : value) (pb : object) (p : string) :
  distinctKeys pb →
  getOpt doc "paths" = VObj pb →
  mergeOne st doc = Ok st' →
  lookupField p (ms_paths st')
  = match lookupField p pb with
    | Some pathValue =>
        Some (VObj (assignAll
                      (spread (coalesce (default VUndefined (lookupField p (ms_paths st)))
                                        (VObj [])))
                      (ownEntries pathValue)))
    | None => lookupField p (ms_paths st)
    end.
Proof.
  intros Hpb Hpaths H. unfold mergeOne in H.
  apply bindR_inv in H as (docPaths & HdocPaths & H).
  apply getProp_getOpt in HdocPaths. subst docPaths. rewrite Hpaths in H.
  cbn [coalesce nullish objectEntries ownEntries bindR] in H.
  apply bindR_inv in H as (docComponents & _ & H).
  apply bindR_inv in H as (components & _ & H).
  apply bindR_inv in H as (docTags & _ & H).
  apply bindR_inv in H as (tagMap & _ & H).
  apply bindR_inv in H as (docServers & _ & H).
  apply bindR_inv in H as (serverMap & _ & H).
  injection H as <-. cbn [ms_paths].
  apply merge_paths_lookup, Hpb.
Qed.

End OperationFacts.

(** X13.  Merging two documents that describe the same path merges the path
    item operation by operation, the second document winning: under the
    merged path, a method the second document defines carries the second
    document's operation, and any other method carries what the first
    document has there (nothing, if the first does not list the path). *)
Theorem mergeDocuments_swagger_operations
    (a b merged : Js.value) (name : string) (pa pb ib : Js.object) (p m : string) :
  name = "swagger" ∨ name = "openapi" →
  properValue a = true → properValue b = true →
  Js.getOpt a "paths" = Js.VObj pa →
  Js.getOpt b "paths" = Js.VObj pb →
  Js.lookupField p pb = Some (Js.VObj ib) →
  (Js.lookupField p pa = None ∨ ∃ ia, Js.lookupField p pa = Some (Js.VObj ia)) →
  Merge.mergeDocuments [a; b] (Some (Merge.StrategyName name)) = Ok merged →
  Js.getOpt (Js.getOpt (Js.getOpt merged "paths") p) m
  = match Js.lookupField m ib with
    | Some operation => operation
    | None => Js.getOpt (Js.getOpt (Js.getOpt a "paths") p) m
    end.
Proof.
  intros Hname Ha Hb Hpa Hpb Hib Hia Hmerged.
  destruct (mergeDocuments_swagger_inv _ name merged Hname Hmerged) as [_ Hdeep].
  destruct (mergeSwaggerDocuments_shape a [b] merged Hdeep)
    as (tagMap0 & serverMap0 & st & ms & _ & _ & Hloop & -> & Hget & _).
  apply forOf_inv in Hloop as (st1 & Hone & Hdone). injection Hdone as ->.
  pose proof (properValue_getOpt a "paths" Ha) as Hpa_proper. rewrite Hpa in Hpa_proper.
  pose proof (properValue_getOpt b "paths" Hb) as Hpb_proper. rewrite Hpb in Hpb_proper.
  pose proof (mergeOne_path_item _ _ b pb p (properValue_object pb Hpb_proper) Hpb Hone)
    as Hitem.
  rewrite Hib in Hitem. cbn [Merge.ms_paths] in Hitem.
  rewrite Hpa in Hitem. cbn [Js.coalesce Js.nullish] in Hitem.
  rewrite (spread_object pa (properValue_object pa Hpa_proper)) in Hitem.
  pose proof (properValue_field pb p (Js.VObj ib) Hpb_proper Hib) as Hib_proper.
  unfold Js.getOpt at 3. rewrite Hget. cbn [default id].
  unfold Js.getOpt at 2. rewrite Hitem. cbn [default id Js.ownEntries].
  unfold Js.getOpt at 1.
  rewrite (lookupField_assignAll m ib (properValue_object ib Hib_proper)).
  destruct (Js.lookupField m ib) as [operation|]; [reflexivity|].
  rewrite Hpa. unfold Js.getOpt at 2.
  destruct Hia as [Hnone | [ia Hsome]].
  - rewrite Hnone. reflexivity.
  - rewrite Hsome. cbn [default id Js.coalesce Js.nullish].
    pose proof (properValue_field pa p (Js.VObj ia) Hpa_proper Hsome) as Hia_proper.
    rewrite (spread_object ia (properValue_object ia Hia_proper)). reflexivity.
Qed.

Lemma mergeDocuments_swagger_operations_witness :
  Js.getOpt
    (Js.getOpt
       (Js.getOpt
          (Js.VObj [("paths",
                     Js.VObj [("/pets", Js.VObj [("get", Js.VStr "list v1");
                                                 ("post", Js.VStr "create v2")])]);
                    ("components", Js.VObj [])]) "paths") "/pets") "get"
  = match Js.lookupField "get" [("post", Js.VStr "create v2")] with
    | Some operation => operation
    | None =>
        Js.getOpt
          (Js.getOpt
             (Js.getOpt
                (Js.VObj [("paths", Js.VObj [("/pets", Js.VObj [("get", Js.VStr "list v1")])])])
                "paths") "/pets") "get"
    end.
Proof.
  apply (mergeDocuments_swagger_operations
           (Js.VObj [("paths", Js.VObj [("/pets", Js.VObj [("get", Js.VStr "list v1")])])])
           (Js.VObj [("paths", Js.VObj [("/pets", Js.VObj [("post", Js.VStr "create v2")])])])
           _ "swagger"
           [("/pets", Js.VObj [("get", Js.VStr "list v1")])]
           [("/pets", Js.VObj [("post", Js.VStr "create v2")])]
           [("post", Js.VStr "create v2")] "/pets" "get");
    try reflexivity.
  - left. reflexivity.
  - right. eexists. reflexivity.
Defined.

(** ** [jsonSchemaToSchema]: results and failures *)

Section ValueInduction.
Import Js.

(** Induction over raw values, with the elements of an array and the
    property values of an object as immediate parts. *)
Lemma value_rect' (P : value → Prop) :
  P VUndefined → P VNull → (∀ b, P (VBool b)) → (∀ n, P (VNum n)) → (∀ s, P (VStr s)) →
  (∀ items, Forall P items → P (VArr items)) →
  (∀ fields, Forall (fun kv => P (snd kv)) fields → P (VObj fields)) →
  ∀ v, P v.
Proof.
  intros Hu Hn Hb Hz Hs Ha Ho.
  fix IH 1. intros [| |b|n|s|items|fields];
    [exact Hu | exact Hn | apply Hb | apply Hz | apply Hs | |].
  - apply Ha. induction items as [|x xs IHxs]; constructor; [apply IH | exact IHxs].
  - apply Ho. induction fields as [|[k x] rest IHrest]; constructor; [apply IH | exact IHrest].
Qed.

End ValueInduction.

Section ConvertMoreFacts.
Import Js Convert.

Lemma strictEq_VStr (v : value) (s : string) : strictEq v (VStr s) = true → v = VStr s.
Proof. destruct v; simpl; try discriminate. intros H. apply String.eqb_eq in H. congruence. Qed.

Lemma bindR_throws {A B} (m : result A) (k : A → result B) (e : error) :
  bindR m k = Throw e → m = Throw e ∨ ∃ a, m = Ok a ∧ k a = Throw e.
Proof. destruct m; simpl; [right; eauto | intros [= <-]; left; reflexivity]. Qed.

Lemma onField_cases {A} (k : string) (f : value → A) (absent : A) (fs : object) :
  onField k f absent fs = absent ∨ ∃ v, In (k, v) fs ∧ onField k f absent fs = f v.
Proof.
  induction fs as [|[k' v] rest IH]; simpl; [left; reflexivity|].
  destruct (String.eqb_spec k k') as [->|_].
  - right. exists v. split; [left; reflexivity | reflexivity].
  - destruct IH as [->|(v' & Hin & ->)]; [left; reflexivity|].
    right. exists v'. split; [right; exact Hin | reflexivity].
Qed.

Lemma onField_field {A} (k : string) (f : value → A) (absent : A) (fs : object) :
  onField k f absent fs
  = match lookupField k fs with Some v => f v | None => absent end.
Proof.
  induction fs as [|[k' v] rest IH]; simpl; [reflexivity|].
  destruct (String.eqb k k'); [reflexivity | exact IH].
Qed.

Lemma mapR_throws {A B} (f : A → result B) (l : list A) (e : error) :
  mapR f l = Throw e → ∃ x, In x l ∧ f x = Throw e.
Proof.
  induction l as [|x xs IH]; simpl; [discriminate|].
  intros H. apply bindR_throws in H as [H|(y & _ & H)].
  - exists x. split; [left; reflexivity | exact H].
  - apply bindR_throws in H as [H|(ys & _ & H)]; [|discriminate].
    destruct (IH H) as (x' & Hin & Hx'). exists x'. split; [right; exact Hin | exact Hx'].
Qed.

Lemma convertEach_throws (f : value → result value) (entries : object) (e : error) :
  ∀ properties,
    convertEach f entries properties = Throw e → ∃ k v, In (k, v) entries ∧ f v = Throw e.
Proof.
  induction entries as [|[k v] rest IH]; simpl; intros properties; [discriminate|].
  intros H. apply bindR_throws in H as [H|(child & _ & H)].
  - exists k, v. split; [left; reflexivity | exact H].
  - destruct (IH _ H) as (k' & v' & Hin & Hv'). exists k', v'. split; [right; exact Hin | exact Hv'].
Qed.

Lemma convertItems_throws (f : value → result value) (items : list value) (e : error) :
  ∀ i properties,
    convertItems f i items properties = Throw e → ∃ v, In v items ∧ f v = Throw e.
Proof.
  induction items as [|v rest IH]; simpl; intros i properties; [discriminate|].
  intros H. apply bindR_throws in H as [H|(child & _ & H)].
  - exists v. split; [left; reflexivity | exact H].
  - destruct (IH _ _ H) as (v' & Hin & Hv'). exists v'. split; [right; exact Hin | exact Hv'].
Qed.

Lemma variantsOf_throws (f : value → result value) (what : string) (variants : value)
    (e : error) :
  variantsOf f what variants = Throw e →
  e = notAFunction what ∨ ∃ items x, variants = VArr items ∧ In x items ∧ f x = Throw e.
Proof.
  destruct variants; simpl; try (intros [= <-]; left; reflexivity).
  intros H. apply bindR_throws in H as [H|(converted & _ & H)]; [|discriminate].
  apply mapR_throws in H as (x & Hin & Hx). right. eauto.
Qed.

(** The statement of the failure theorem for a value and for its immediate
    parts. *)
Let failsOnVariants (v : value) : Prop :=
  ∀ e, jsonSchemaToSchema v = Throw e → onlyVariantErrors e.

Let failsOnVariantsDeep (v : value) : Prop :=
  failsOnVariants v
  ∧ match v with
    | VArr items => Forall failsOnVariants items
    | VObj fields => Forall (fun kv => failsOnVariants (snd kv)) fields
    | _ => True
    end.

Lemma jsonSchemaToSchema_throws_deep (v : value) : failsOnVariantsDeep v.
Proof.
  induction v as [| | | | |items IH|fields IH] using value_rect';
    try (split; [intros e; discriminate | exact I]).
  - split; [intros e; discriminate|].
    eapply Forall_impl; [exact IH|]. intros x [Hx _]. exact Hx.
  - assert (Forall (fun kv => failsOnVariants (snd kv)) fields) as Hparts.
    { eapply Forall_impl; [exact IH|]. intros kv [Hx _]. exact Hx. }
    split; [|exact Hparts].
    rewrite Forall_forall in IH, Hparts.
    assert (∀ k x, In (k, x) fields → failsOnVariantsDeep x) as Hdeep.
    { intros k x Hin. apply (IH (k, x)), list_elem_of_In, Hin. }
    assert (∀ what k e,
              what = "input.oneOf" ∨ what = "input.anyOf" →
              onField k (variantsOf jsonSchemaToSchema what)
                (Throw (notAFunction what)) fields = Throw e →
              onlyVariantErrors e) as Hvariants.
    { intros what k e Hwhat H.
      assert (onlyVariantErrors (notAFunction what)) as Hown
        by (destruct Hwhat as [-> | ->]; [left | right]; reflexivity).
      destruct (onField_cases k (variantsOf jsonSchemaToSchema what)
                  (Throw (notAFunction what)) fields) as [Habs|(v & Hin & Hv)].
      - rewrite Habs in H. injection H as <-. exact Hown.
      - rewrite Hv in H. apply variantsOf_throws in H as [-> | (items & x & -> & Hx & H)];
          [exact Hown|].
        destruct (Hdeep _ _ Hin) as [_ Hitems]. rewrite Forall_forall in Hitems.
        apply (Hitems x); [apply list_elem_of_In, Hx | exact H]. }
    intros e. cbn [jsonSchemaToSchema].
    destruct (negb (truthy (typeStrOf (field fields "type")))).
    { destruct (truthy (field fields "oneOf")).
      { intros H. apply bindR_throws in H as [H|(? & _ & H)]; [|discriminate].
        apply (Hvariants "input.oneOf" "oneOf"); [left; reflexivity | exact H]. }
      destruct (truthy (field fields "anyOf")).
      { intros H. apply bindR_throws in H as [H|(? & _ & H)]; [|discriminate].
        apply (Hvariants "input.anyOf" "anyOf"); [right; reflexivity | exact H]. }
      destruct (truthy (field fields "enum")); discriminate. }
    destruct (strictEq (typeStrOf (field fields "type")) (VStr "object")).
    { intros H. apply bindR_throws in H as [H|(properties & _ & H)].
      - rewrite onField_field in H.
        destruct (lookupField "properties" fields) as [props|] eqn:Hprops; [|discriminate].
        pose proof (lookupField_In _ _ _ Hprops) as Hin.
        destruct (Hdeep _ _ Hin) as [_ Hinner].
        destruct props as [| | | | |items|entries]; try discriminate.
        + apply convertItems_throws in H as (v & Hv & H).
          rewrite Forall_forall in Hinner.
          apply (Hinner v); [apply list_elem_of_In, Hv | exact H].
        + apply convertEach_throws in H as (k & v & Hv & H).
          rewrite Forall_forall in Hinner.
          apply (Hinner (k, v)); [apply list_elem_of_In, Hv | exact H].
      - apply bindR_throws in H as [H|(? & _ & H)]; [|discriminate].
        destruct (onField_cases "additionalProperties"
                    (fun additional =>
                       if typeofBoolean additional then Ok additional
                       else if truthy additional && typeofObject additional
                            then jsonSchemaToSchema additional
                            else Ok VUndefined) (Ok VUndefined) fields)
          as [Habs|(v & Hin & Hv)]; rewrite ?Habs, ?Hv in H; [discriminate|].
        destruct (typeofBoolean v); [discriminate|].
        destruct (truthy v && typeofObject v); [|discriminate].
        apply (Hparts ("additionalProperties", v)); [apply list_elem_of_In, Hin | exact H]. }
    destruct (strictEq (typeStrOf (field fields "type")) (VStr "array")).
    { intros H. apply bindR_throws in H as [H|(? & _ & H)]; [|discriminate].
      destruct (onField_cases "items" jsonSchemaToSchema (Ok VUndefined) fields)
        as [Habs|(v & Hin & Hv)]; rewrite ?Habs, ?Hv in H; [discriminate|].
      apply (Hparts ("items", v)); [apply list_elem_of_In, Hin | exact H]. }
    destruct (_ || _); discriminate.
Qed.

End ConvertMoreFacts.

(** X14.  What [jsonSchemaToSchema] can throw: nothing but the [TypeError]
    of calling [.map] on an [oneOf] or [anyOf] that is not an array, at the
    top or in a nested descriptor.  No other input makes the conversion
    fail. *)
Theorem jsonSchemaToSchema_only_variant_errors (input : Js.value) (e : error) :
  Convert.jsonSchemaToSchema input = Throw e → onlyVariantErrors e.
Proof.
  intros H. destruct (jsonSchemaToSchema_throws_deep input) as [Htop _].
  exact (Htop e H).
Qed.

Lemma jsonSchemaToSchema_only_variant_errors_witness :
  onlyVariantErrors (TypeError "input.anyOf.map is not a function").
Proof.
  apply (jsonSchemaToSchema_only_variant_errors
           (Js.VObj [("type", Js.VStr "array");
                     ("items", Js.VObj [("anyOf", Js.VStr "string | number")])])).
  reflexivity.
Defined.

(** X15.  What [jsonSchemaToSchema] returns.  For an input that is not an
    object (a primitive, [null], [undefined]) it returns [undefined]; for
    every object or array it returns a schema object whose [kind] is one of
    the ten kinds of the model (a [type] the converter does not know
    becomes ["unknown"], never the raw type name) and whose [nullable] is a
    boolean. *)
Theorem jsonSchemaToSchema_result_shape (input result : Js.value) :
  Convert.jsonSchemaToSchema input = Ok result →
  if Js.truthy input && Js.typeofObject input
  then ∃ fs, result = Js.VObj fs
             ∧ In (Convert.field fs "kind") schemaKinds
             ∧ ∃ b, Convert.field fs "nullable" = Js.VBool b
  else result = Js.VUndefined.
Proof.
  destruct input as [| |b|n|s|items|fields]; cbn [Convert.jsonSchemaToSchema];
    try (intros [= <-]; cbn; try destruct b; try destruct (negb _); reflexivity).
  - intros [= <-]. cbn. eexists. split; [reflexivity|]. split; [|eexists; reflexivity].
    cbn. tauto.
  - cbn [Js.truthy Js.typeofObject andb].
    assert (∀ kind rest,
              In kind schemaKinds →
              (∀ k, In k (List.map fst rest) → k ≠ "kind" ∧ k ≠ "nullable") →
              ∃ fs, Js.VObj (("kind", kind) :: rest ++ Convert.baseOf fields) = Js.VObj fs
                    ∧ In (Convert.field fs "kind") schemaKinds
                    ∧ ∃ b, Convert.field fs "nullable" = Js.VBool b) as Hshape.
    { intros kind rest Hkind Hrest. eexists. split; [reflexivity|].
      split; [exact Hkind|]. unfold Convert.field. cbn [Js.lookupField].
      change (String.eqb "nullable" "kind") with false. cbv iota.
      assert (∀ target,
                Js.lookupField "nullable" target = Some (Js.VBool
                  (Js.truthy (Convert.field fields "nullable"))) →
                Js.lookupField "nullable" (rest ++ target)
                = Some (Js.VBool (Js.truthy (Convert.field fields "nullable")))) as Hskip.
      { intros target Htarget. induction rest as [|[k v] rest IHrest]; [exact Htarget|].
        cbn [app Js.lookupField].
        destruct (String.eqb_spec "nullable" k) as [<-|_].
        - exfalso. apply (proj2 (Hrest "nullable" (or_introl eq_refl))). reflexivity.
        - apply IHrest. intros k' Hk'. apply Hrest. right. exact Hk'. }
      rewrite Hskip; [eexists; reflexivity | reflexivity]. }
    assert (∀ s, In s ["oneOf"; "enum"; "unknown"; "object"; "array";
                       "string"; "number"; "integer"; "boolean"; "null"] →
                 In (Js.VStr s) schemaKinds) as Hkinds.
    { intros s Hs. unfold schemaKinds. apply in_map. exact Hs. }
    destruct (negb (Js.truthy (Convert.typeStrOf (Convert.field fields "type")))).
    { destruct (Js.truthy (Convert.field fields "oneOf")).
      { intros H. apply bindR_inv in H as (variants & _ & [= <-]).
        apply (Hshape _ [("variants", variants)]); [apply Hkinds; cbn; tauto|].
        intros k [<-|[]]. split; discriminate. }
      destruct (Js.truthy (Convert.field fields "anyOf")).
      { intros H. apply bindR_inv in H as (variants & _ & [= <-]).
        apply (Hshape _ [("variants", variants)]); [apply Hkinds; cbn; tauto|].
        intros k [<-|[]]. split; discriminate. }
      destruct (Js.truthy (Convert.field fields "enum")); intros [= <-].
      - apply (Hshape _ [("values", _)]); [apply Hkinds; cbn; tauto|].
        intros k [<-|[]]. split; discriminate.
      - apply (Hshape _ []); [apply Hkinds; cbn; tauto | intros k []]. }
    destruct (Js.strictEq (Convert.typeStrOf (Convert.field fields "type")) (Js.VStr "object")).
    { intros H. apply bindR_inv in H as (properties & _ & H).
      apply bindR_inv in H as (additional & _ & [= <-]).
      apply (Hshape _ [("properties", _); ("required", _); ("additionalProperties", _)]);
        [apply Hkinds; cbn; tauto|].
      intros k [<-|[<-|[<-|[]]]]; split; discriminate. }
    destruct (Js.strictEq (Convert.typeStrOf (Convert.field fields "type")) (Js.VStr "array")).
    { intros H. apply bindR_inv in H as (element & _ & [= <-]).
      apply (Hshape _ [("element", _); ("minItems", _); ("maxItems", _)]);
        [apply Hkinds; cbn; tauto|].
      intros k [<-|[<-|[<-|[]]]]; split; discriminate. }
    destruct (Js.strictEq _ (Js.VStr "string")) eqn:Hstring;
      [apply strictEq_VStr in Hstring|];
      [|destruct (Js.strictEq _ (Js.VStr "number")) eqn:Hnumber;
        [apply strictEq_VStr in Hnumber|];
        [|destruct (Js.strictEq _ (Js.VStr "integer")) eqn:Hinteger;
          [apply strictEq_VStr in Hinteger|];
          [|destruct (Js.strictEq _ (Js.VStr "boolean")) eqn:Hboolean;
            [apply strictEq_VStr in Hboolean|];
            [|destruct (Js.strictEq _ (Js.VStr "null")) eqn:Hnull;
              [apply strictEq_VStr in Hnull|]]]]];
      cbn [orb]; intros [= <-];
      try (apply (Hshape _ [("format", _)]);
           [match goal with H : _ = Js.VStr _ |- _ => rewrite H end; apply Hkinds; cbn; tauto
           | intros k [<-|[]]; split; discriminate]).
    apply (Hshape _ []); [apply Hkinds; cbn; tauto | intros k []].
Qed.

Lemma jsonSchemaToSchema_result_shape_witness :
  ∃ fs,
    Js.VObj [("kind", Js.VStr "unknown"); ("nullable", Js.VBool false);
             ("description", Js.VUndefined); ("title", Js.VUndefined);
             ("example", Js.VUndefined)] = Js.VObj fs
    ∧ In (Convert.field fs "kind") schemaKinds
    ∧ ∃ b, Convert.field fs "nullable" = Js.VBool b.
Proof.
  apply (jsonSchemaToSchema_result_shape (Js.VObj [("type", Js.VStr "file")])).
  reflexivity.
Defined.

Section ConvertTotal.
Import Js Convert.

Lemma mapR_returns {A B} (f : A → result B) (l : list A) :
  Forall (fun x => ∃ y, f x = Ok y) l → ∃ ys, mapR f l = Ok ys.
Proof.
  induction 1 as [|x xs [y Hy] _ [ys Hys]]; simpl; [eauto|].
  rewrite Hy. simpl. rewrite Hys. simpl. eauto.
Qed.

Lemma convertEach_returns (f : value → result value) (entries : object) :
  Forall (fun kv => ∃ y, f (snd kv) = Ok y) entries →
  ∀ properties, ∃ properties', convertEach f entries properties = Ok properties'.
Proof.
  induction 1 as [|[k v] rest [y Hy] _ IH]; simpl; intros properties; [eauto|].
  simpl in Hy. rewrite Hy. simpl. apply IH.
Qed.

Lemma convertItems_returns (f : value → result value) (items : list value) :
  Forall (fun x => ∃ y, f x = Ok y) items →
  ∀ i properties, ∃ properties', convertItems f i items properties = Ok properties'.
Proof.
  induction 1 as [|v rest [y Hy] _ IH]; simpl; intros i properties; [eauto|].
  rewrite Hy. simpl. apply IH.
Qed.

Let returnsOn (v : value) : Prop :=
  variantsAreArrays v = true → ∃ r, jsonSchemaToSchema v = Ok r.

Let returnsOnDeep (v : value) : Prop :=
  returnsOn v
  ∧ match v with
    | VArr items => Forall returnsOn items
    | VObj fields => Forall (fun kv => returnsOn (snd kv)) fields
    | _ => True
    end.

Lemma variantsAreArrays_field (fields : object) (k : string) (v : value) :
  variantsAreArrays (VObj fields) = true → In (k, v) fields →
  variantsAreArrays v = true
  ∧ (k = "oneOf" ∨ k = "anyOf" → truthy v = true → ∃ items, v = VArr items).
Proof.
  cbn [variantsAreArrays]. intros Hall Hin.
  rewrite forallb_forall in Hall. specialize (Hall (k, v) Hin). cbn beta iota in Hall.
  apply andb_prop in Hall as [Hkey Hv]. split; [exact Hv|].
  intros Hk Htruthy.
  assert (String.eqb k "oneOf" || String.eqb k "anyOf" = true) as Hmatch.
  { destruct Hk as [-> | ->]; reflexivity. }
  rewrite Hmatch, Htruthy in Hkey. destruct v; try discriminate. eauto.
Qed.

Lemma jsonSchemaToSchema_returns_deep (v : value) : returnsOnDeep v.
Proof.
  induction v as [| | | | |items IH|fields IH] using value_rect';
    try (split; [intros _; eexists; reflexivity | exact I]).
  - split; [intros _; eexists; reflexivity|].
    eapply Forall_impl; [exact IH|]. intros x [Hx _]. exact Hx.
  - assert (Forall (fun kv => returnsOn (snd kv)) fields) as Hparts.
    { eapply Forall_impl; [exact IH|]. intros kv [Hx _]. exact Hx. }
    split; [|exact Hparts].
    rewrite Forall_forall in IH, Hparts.
    intros Hwf.
    assert (∀ k x, In (k, x) fields → returnsOnDeep x ∧ variantsAreArrays x = true) as Hdeep.
    { intros k x Hin. split.
      - apply (IH (k, x)), list_elem_of_In, Hin.
      - apply (variantsAreArrays_field fields k x Hwf Hin). }
    assert (∀ what k,
              k = "oneOf" ∨ k = "anyOf" →
              truthy (field fields k) = true →
              ∃ variants,
                onField k (variantsOf jsonSchemaToSchema what)
                  (Throw (notAFunction what)) fields = Ok variants) as Hvariants.
    { intros what k Hk Htruthy. rewrite onField_field. unfold field in Htruthy.
      destruct (lookupField k fields) as [v|] eqn:Hlookup; [|discriminate].
      cbn [default id] in Htruthy.
      pose proof (lookupField_In _ _ _ Hlookup) as Hin.
      destruct (proj2 (variantsAreArrays_field fields k v Hwf Hin) Hk Htruthy) as [items ->].
      destruct (Hdeep _ _ Hin) as [[_ Hitems] Hwfitems]. cbn [variantsAreArrays] in Hwfitems.
      rewrite forallb_forall in Hwfitems. rewrite Forall_forall in Hitems.
      cbn [variantsOf].
      destruct (mapR_returns jsonSchemaToSchema items) as [ys ->]; [|cbn; eauto].
      apply Forall_forall. intros x Hx. apply (Hitems x Hx), Hwfitems, list_elem_of_In, Hx. }
    cbn [jsonSchemaToSchema].
    destruct (negb (truthy (typeStrOf (field fields "type")))).
    { destruct (truthy (field fields "oneOf")) eqn:HoneOf.
      { destruct (Hvariants "input.oneOf" "oneOf" (or_introl eq_refl) HoneOf) as [variants ->].
        cbn. eauto. }
      destruct (truthy (field fields "anyOf")) eqn:HanyOf.
      { destruct (Hvariants "input.anyOf" "anyOf" (or_intror eq_refl) HanyOf) as [variants ->].
        cbn. eauto. }
      destruct (truthy (field fields "enum")); eauto. }
    destruct (strictEq (typeStrOf (field fields "type")) (VStr "object")).
    { assert (∃ properties,
                onField "properties"
                  (fun props =>
                     match props with
                     | VObj entries => convertEach jsonSchemaToSchema entries []
                     | VArr items => convertItems jsonSchemaToSchema 0 items []
                     | _ => Ok []
                     end) (Ok []) fields = Ok properties) as [properties ->].
      { rewrite onField_field.
        destruct (lookupField "properties" fields) as [props|] eqn:Hprops; [|eauto].
        pose proof (lookupField_In _ _ _ Hprops) as Hin.
        destruct (Hdeep _ _ Hin) as [[_ Hinner] Hwfinner].
        destruct props as [| | | | |items|entries]; eauto.
        - cbn [variantsAreArrays] in Hwfinner. rewrite forallb_forall in Hwfinner.
          rewrite Forall_forall in Hinner.
          apply convertItems_returns, Forall_forall.
          intros x Hx. apply (Hinner x Hx), Hwfinner, list_elem_of_In, Hx.
        - rewrite Forall_forall in Hinner.
          apply convertEach_returns, Forall_forall.
          intros [k x] Hx. apply (Hinner (k, x) Hx).
          apply (variantsAreArrays_field entries k x Hwfinner), list_elem_of_In, Hx. }
      cbn [bindR].
      assert (∃ additional,
                onField "additionalProperties"
                  (fun additional =>
                     if typeofBoolean additional then Ok additional
                     else if truthy additional && typeofObject additional
                          then jsonSchemaToSchema additional
                          else Ok VUndefined) (Ok VUndefined) fields = Ok additional)
        as [additional ->].
      { rewrite onField_field.
        destruct (lookupField "additionalProperties" fields) as [v|] eqn:Hlookup; [|eauto].
        pose proof (lookupField_In _ _ _ Hlookup) as Hin.
        destruct (typeofBoolean v); [eauto|].
        destruct (truthy v && typeofObject v); [|eauto].
        destruct (Hdeep _ _ Hin) as [[Hv _] Hwfv]. exact (Hv Hwfv). }
      cbn. eauto. }
    destruct (strictEq (typeStrOf (field fields "type")) (VStr "array")).
    { assert (∃ element, onField "items" jsonSchemaToSchema (Ok VUndefined) fields = Ok element)
        as [element ->].
      { rewrite onField_field.
        destruct (lookupField "items" fields) as [v|] eqn:Hlookup; [|eauto].
        pose proof (lookupField_In _ _ _ Hlookup) as Hin.
        destruct (Hdeep _ _ Hin) as [[Hv _] Hwfv]. exact (Hv Hwfv). }
      cbn. eauto. }
    destruct (_ || _); eauto.
Qed.

End ConvertTotal.

(** X16.  On a descriptor in which every truthy [oneOf] and [anyOf], at
    whatever depth, is an array, [jsonSchemaToSchema] returns: recursion
    through [properties], [additionalProperties], [items] and the variants
    never fails on such input. *)
Theorem jsonSchemaToSchema_returns (input : Js.value) :
  variantsAreArrays input = true →
  ∃ result, Convert.jsonSchemaToSchema input = Ok result.
Proof.
  intros Hwf. destruct (jsonSchemaToSchema_returns_deep input) as [Htop _].
  exact (Htop Hwf).
Qed.

Lemma jsonSchemaToSchema_returns_witness :
  ∃ result,
    Convert.jsonSchemaToSchema
      (Js.VObj [("type", Js.VStr "object");
                ("properties",
                 Js.VObj [("id", Js.VObj [("type", Js.VStr "integer")]);
                          ("owner", Js.VObj [("anyOf", Js.VArr [Js.VObj [("type", Js.VStr "string")];
                                                               Js.VObj [("type", Js.VStr "null")]])])])])
    = Ok result.
Proof.
  apply jsonSchemaToSchema_returns. reflexivity.
Defined.

(** ** [fetch.ts]: a multi-endpoint source with a single request *)

(** X17.  A multi-endpoint source that lists one request, under no merge
    strategy, ["auto"] or ["first"], behaves exactly as that request given
    as a single source: the same payload or the same error, and the same
    effect on the outside world. *)
Theorem fetchApiDocumentation_single_request
    (World : Type)
    (fetchHttp : Fetch.ApiDocRequest → Fetch.IO World Js.value)
    (parseJsonFile : string → Fetch.IO World Js.value)
    (fileURLToPath : string → string)
    (request : Fetch.DocSourceSingle)
    (strategy : option Merge.MergeStrategy) (w : World) :
  strategy = None
  ∨ strategy = Some (Merge.StrategyName "auto")
  ∨ strategy = Some (Merge.StrategyName "first") →
  Fetch.fetchApiDocumentation fetchHttp parseJsonFile fileURLToPath
    (Fetch.MultiEndpoint
       {| Fetch.requests := [request]; Fetch.multiMergeStrategy := strategy |}) w
  = Fetch.fetchApiDocumentation fetchHttp parseJsonFile fileURLToPath
      (Fetch.Single request) w.
Proof.
  intros Hstrategy.
  unfold Fetch.fetchApiDocumentation. cbn [Fetch.requests Fetch.multiMergeStrategy length Nat.eqb].
  cbn [Fetch.mapIO]. unfold Fetch.bind, Fetch.ret, Fetch.lift.
  destruct (Fetch.fetchSingleDocument fetchHttp parseJsonFile fileURLToPath request w)
    as [[doc|e] w']; [|reflexivity].
  destruct Hstrategy as [-> | [-> | ->]]; reflexivity.
Qed.

Lemma fetchApiDocumentation_single_request_witness :
  Fetch.fetchApiDocumentation
    (fun request w => (Ok (Js.VStr (Fetch.url request)), S w))
    (fun _ w => (Throw (Error "no such file"), w))
    (fun s => s)
    (Fetch.MultiEndpoint
       {| Fetch.requests := [Fetch.SrcString "https://example.test/openapi.json"];
          Fetch.multiMergeStrategy := Some (Merge.StrategyName "auto") |}) 0%nat
  = Fetch.fetchApiDocumentation
      (fun request w => (Ok (Js.VStr (Fetch.url request)), S w))
      (fun _ w => (Throw (Error "no such file"), w))
      (fun s => s)
      (Fetch.Single (Fetch.SrcString "https://example.test/openapi.json")) 0%nat.
Proof.
  apply (fetchApiDocumentation_single_request nat).
  right. left. reflexivity.
Defined.

(** ** Strings: character classes, splitting and joining *)

Section CharFacts.

Lemma toUpperChar_alnum (c : ascii) :
  Str.isAlnum c = true → Str.isAlnum (Str.toUpperChar c) = true.
Proof. destruct c as [[] [] [] [] [] [] [] []]; vm_compute; congruence. Qed.

Lemma toLowerChar_slug (c : ascii) :
  Str.isAlnum c || (Str.code c =? 45)%nat = true → isSlugChar (Str.toLowerChar c) = true.
Proof. destruct c as [[] [] [] [] [] [] [] []]; vm_compute; congruence. Qed.

Lemma idChar_alnum (c : ascii) :
  isIdChar c && negb (Generator.isUnderscore c || Str.isSpace c) = true → Str.isAlnum c = true.
Proof. destruct c as [[] [] [] [] [] [] [] []]; vm_compute; congruence. Qed.

Lemma slugChar_plain (c : ascii) :
  isSlugChar c = true → Path.isSlash c = false ∧ (Str.code c =? 46)%nat = false.
Proof. destruct c as [[] [] [] [] [] [] [] []]; vm_compute; intuition congruence. Qed.

Lemma digitChar_digit (d : nat) : (d < 10)%nat → Str.isDigit (digitChar d) = true.
Proof.
  intros Hd. do 10 (destruct d as [|d]; [reflexivity|]). lia.
Qed.

End CharFacts.

Section AllChars.

Lemma allChars_append (p : ascii → bool) (a b : string) :
  allChars p (a +:+ b) = allChars p a && allChars p b.
Proof.
  induction a as [|c a IH]; simpl; [reflexivity|]. rewrite IH, andb_assoc. reflexivity.
Qed.

Lemma allChars_impl (p q : ascii → bool) (s : string) :
  (∀ c, p c = true → q c = true) → allChars p s = true → allChars q s = true.
Proof.
  intros Hpq. induction s as [|c s IH]; simpl; [reflexivity|].
  intros H. apply andb_prop in H as [Hc Hs]. rewrite (Hpq c Hc), (IH Hs). reflexivity.
Qed.

Lemma allChars_mapChars (p : ascii → bool) (f : ascii → ascii) (s : string) :
  (∀ c, p (f c) = true) → allChars p (Str.mapChars f s) = true.
Proof.
  intros Hf. induction s as [|c s IH]; simpl; [reflexivity|]. rewrite Hf, IH. reflexivity.
Qed.

Lemma allChars_mapChars_from (p q : ascii → bool) (f : ascii → ascii) (s : string) :
  (∀ c, p c = true → q (f c) = true) →
  allChars p s = true → allChars q (Str.mapChars f s) = true.
Proof.
  intros Hf. induction s as [|c s IH]; simpl; [reflexivity|].
  intros H. apply andb_prop in H as [Hc Hs]. rewrite (Hf c Hc), (IH Hs). reflexivity.
Qed.

Lemma allChars_join (p : ascii → bool) (sep : string) (parts : list string) :
  allChars p sep = true → Forall (fun part => allChars p part = true) parts →
  allChars p (Str.join sep parts) = true.
Proof.
  intros Hsep Hparts. unfold Str.join.
  induction Hparts as [|part rest Hpart Hrest IH]; [reflexivity|].
  destruct rest as [|next rest]; simpl; [exact Hpart|].
  rewrite !allChars_append, Hpart, Hsep. exact IH.
Qed.

Lemma allChars_splitRunsFrom (p sep : ascii → bool) (s : string) :
  allChars p s = true →
  ∀ inRun,
    Forall (fun piece => allChars (fun c => p c && negb (sep c)) piece = true)
      (Str.splitRunsFrom sep inRun s).
Proof.
  induction s as [|c s IH]; intros H inRun; simpl.
  - repeat constructor.
  - simpl in H. apply andb_prop in H as [Hc Hs].
    destruct (sep c) eqn:Hsep.
    + destruct inRun; [apply IH, Hs|]. constructor; [reflexivity | apply IH, Hs].
    + specialize (IH Hs false).
      destruct (Str.splitRunsFrom sep false s) as [|piece pieces].
      * repeat constructor. simpl. rewrite Hc, Hsep. reflexivity.
      * inversion IH as [|? ? Hpiece Hpieces]; subst. constructor; [|exact Hpieces].
        simpl. rewrite Hc, Hsep, Hpiece. reflexivity.
Qed.

Lemma allChars_replaceRunsFrom (p cls : ascii → bool) (r s : string) :
  allChars p r = true → allChars p s = true →
  ∀ inRun, allChars p (Str.replaceRunsFrom cls r inRun s) = true.
Proof.
  intros Hr. induction s as [|c s IH]; intros H inRun; simpl; [reflexivity|].
  simpl in H. apply andb_prop in H as [Hc Hs].
  destruct (cls c).
  - destruct inRun; [apply IH, Hs|]. rewrite allChars_append, Hr. apply IH, Hs.
  - simpl. rewrite Hc. apply IH, Hs.
Qed.

Lemma allChars_natToDigits (fuel n : nat) (acc : string) :
  allChars Str.isDigit acc = true → allChars Str.isDigit (natToDigits fuel n acc) = true.
Proof.
  revert n acc. induction fuel as [|fuel IH]; intros n acc Hacc; cbn [natToDigits]; [exact Hacc|].
  assert (allChars Str.isDigit (String (digitChar (n mod 10)) acc) = true) as Hstep.
  { cbn [allChars]. rewrite Hacc, digitChar_digit; [reflexivity|].
    apply Nat.mod_upper_bound. discriminate. }
  destruct (n / 10 =? 0)%nat; [exact Hstep | apply IH, Hstep].
Qed.

Lemma natToDigits_nonempty (fuel n : nat) (acc : string) :
  acc ≠ "" → natToDigits fuel n acc ≠ "".
Proof.
  revert n acc. induction fuel as [|fuel IH]; intros n acc Hacc; cbn [natToDigits]; [exact Hacc|].
  destruct (n / 10 =? 0)%nat; [discriminate | apply IH; discriminate].
Qed.

Lemma natToString_digits (n : nat) :
  natToString n ≠ "" ∧ allChars Str.isDigit (natToString n) = true.
Proof.
  unfold natToString. split.
  - cbn [natToDigits].
    destruct (n / 10 =? 0)%nat; [discriminate | apply natToDigits_nonempty; discriminate].
  - apply allChars_natToDigits. reflexivity.
Qed.

End AllChars.

(** ** [path.join] on plain segments *)

Section PathFacts.

Lemma eqb_slash (c : ascii) : Ascii.eqb c Path.slash = Path.isSlash c.
Proof. destruct c as [[] [] [] [] [] [] [] []]; reflexivity. Qed.

Lemma isSlash_slash (c : ascii) : Path.isSlash c = false → c ≠ "/"%char.
Proof. intros H ->. discriminate. Qed.

Lemma append_cons (c : ascii) (a b : string) : String c a +:+ b = String c (a +:+ b).
Proof. reflexivity. Qed.

Lemma append_assoc (a b c : string) : (a +:+ b) +:+ c = a +:+ (b +:+ c).
Proof. induction a as [|x a IH]; [reflexivity|]. rewrite !append_cons, IH. reflexivity. Qed.

Lemma append_cancel (a x y : string) : a +:+ x = a +:+ y → x = y.
Proof.
  induction a as [|c a IH]; [exact (fun H => H)|].
  rewrite !append_cons. intros [= H]. exact (IH H).
Qed.

Lemma splitChar_plain (s : string) : noSlash s = true → Str.splitChar Path.slash s = [s].
Proof.
  unfold noSlash. induction s as [|c s IH]; simpl; [reflexivity|].
  intros H. apply andb_prop in H as [Hc Hs]. rewrite eqb_slash.
  apply negb_true_iff in Hc. rewrite Hc, (IH Hs). reflexivity.
Qed.

Lemma splitChar_append (a b : string) :
  noSlash a = true →
  Str.splitChar Path.slash (a +:+ String Path.slash b) = a :: Str.splitChar Path.slash b.
Proof.
  unfold noSlash. induction a as [|c a IH]; simpl.
  - intros _. reflexivity.
  - intros H. apply andb_prop in H as [Hc Ha]. rewrite eqb_slash.
    apply negb_true_iff in Hc. rewrite Hc, (IH Ha). reflexivity.
Qed.

Lemma join_cons (x y : string) (rest : list string) :
  Str.join "/" (x :: y :: rest) = x +:+ String Path.slash (Str.join "/" (y :: rest)).
Proof. reflexivity. Qed.

Lemma splitChar_join (parts : list string) :
  parts ≠ [] → Forall (fun part => noSlash part = true) parts →
  Str.splitChar Path.slash (Str.join "/" parts) = parts.
Proof.
  intros Hne Hparts. induction Hparts as [|x rest Hx Hrest IH]; [contradiction|].
  destruct rest as [|y rest].
  - apply splitChar_plain, Hx.
  - rewrite join_cons, (splitChar_append _ _ Hx), IH; [reflexivity | discriminate].
Qed.

Lemma pushSegment_plain (allowAboveRoot : bool) (stack : list string) (seg : string) :
  plainSegment seg → Path.pushSegment allowAboveRoot stack seg = seg :: stack.
Proof.
  intros (Hempty & Hdot & Hdots & _). unfold Path.pushSegment.
  destruct seg as [|c seg]; [contradiction|]. cbn [Str.isEmpty orb].
  destruct (String.eqb_spec (String c seg) ".") as [?|_]; [contradiction|].
  destruct (String.eqb_spec (String c seg) "..") as [?|_]; [contradiction|].
  reflexivity.
Qed.

Lemma normalizeSegments_plain (allowAboveRoot : bool) (segs : list string) :
  Forall plainSegment segs → Path.normalizeSegments allowAboveRoot segs = segs.
Proof.
  intros Hsegs. unfold Path.normalizeSegments.
  assert (∀ stack, fold_left (Path.pushSegment allowAboveRoot) segs stack
                   = List.rev segs ++ stack) as Hfold.
  { induction Hsegs as [|seg rest Hseg _ IH]; intros stack; simpl; [reflexivity|].
    rewrite (pushSegment_plain _ _ _ Hseg), IH, <- app_assoc. reflexivity. }
  rewrite Hfold, app_nil_r. apply rev_involutive.
Qed.

Lemma rev_go_append (a b acc : string) :
  (fix go (s acc : string) : string :=
     match s with
     | EmptyString => acc
     | String c rest => go rest (String c acc)
     end) (a +:+ b) acc
  = (fix go (s acc : string) : string :=
       match s with
       | EmptyString => acc
       | String c rest => go rest (String c acc)
       end) b
      ((fix go (s acc : string) : string :=
          match s with
          | EmptyString => acc
          | String c rest => go rest (String c acc)
          end) a acc).
Proof. revert acc. induction a as [|c a IH]; intros acc; simpl; [reflexivity | apply IH]. Qed.

Lemma rev_snoc (s : string) (c : ascii) :
  Str.rev (s +:+ String c "") = String c (Str.rev s).
Proof. unfold Str.rev. rewrite rev_go_append. reflexivity. Qed.

Lemma string_last (p : ascii → bool) (s : string) :
  s ≠ "" → allChars p s = true → ∃ z c, s = z +:+ String c "" ∧ p c = true.
Proof.
  induction s as [|c s IH]; [contradiction|]. intros _ H.
  simpl in H. apply andb_prop in H as [Hc Hs].
  destruct s as [|d s].
  - exists "", c. split; [reflexivity | exact Hc].
  - destruct (IH ltac:(discriminate) Hs) as (z & e & Hz & He).
    exists (String c z), e. split; [rewrite append_cons, <- Hz; reflexivity | exact He].
Qed.

(** A joined path starts with the first character of its first segment and
    ends with the last character of its last segment. *)
Lemma join_ends (parts : list string) :
  parts ≠ [] → Forall plainSegment parts →
  (∃ c rest, Str.join "/" parts = String c rest ∧ Path.isSlash c = false)
  ∧ (∃ z c, Str.join "/" parts = z +:+ String c "" ∧ Path.isSlash c = false).
Proof.
  intros Hne Hparts. induction Hparts as [|x rest Hx Hrest IH]; [contradiction|].
  destruct Hx as (Hxne & _ & _ & Hxslash).
  assert (∃ c x', x = String c x' ∧ Path.isSlash c = false) as (c & x' & -> & Hc).
  { destruct x as [|c x']; [contradiction|]. exists c, x'. split; [reflexivity|].
    unfold noSlash in Hxslash. simpl in Hxslash. apply andb_prop in Hxslash as [Hc _].
    apply negb_true_iff, Hc. }
  destruct rest as [|y rest].
  - split; [exists c, x'; split; [reflexivity | exact Hc]|].
    destruct (string_last _ (String c x') Hxne Hxslash) as (z & e & Hz & He).
    exists z, e. split; [exact Hz | apply negb_true_iff, He].
  - rewrite join_cons. split; [exists c; eexists; split; [reflexivity | exact Hc]|].
    destruct IH as [_ (z & e & Hz & He)]; [discriminate|].
    exists (String c x' +:+ String Path.slash z), e. split; [|exact He].
    rewrite Hz, append_assoc. reflexivity.
Qed.

Lemma prefix_slash (c : ascii) (rest : string) :
  Path.isSlash c = false → String.prefix "/" (String c rest) = false.
Proof.
  intros Hc. cbn [String.prefix].
  destruct (ascii_dec "/"%char c) as [<-|_]; [discriminate Hc | reflexivity].
Qed.

Lemma normalize_plain (parts : list string) :
  parts ≠ [] → Forall plainSegment parts →
  Path.normalize (Str.join "/" parts) = Str.join "/" parts.
Proof.
  intros Hne Hparts.
  destruct (join_ends parts Hne Hparts) as [(c & rest & Hhead & Hc) (z & e & Hlast & He)].
  unfold Path.normalize.
  assert (Str.isEmpty (Str.join "/" parts) = false) as -> by (rewrite Hhead; reflexivity).
  assert (Str.startsWith (Str.join "/" parts) "/" = false) as ->.
  { unfold Str.startsWith. rewrite Hhead. apply prefix_slash, Hc. }
  assert (Str.endsWith (Str.join "/" parts) "/" = false) as ->.
  { unfold Str.endsWith. rewrite Hlast, rev_snoc. apply prefix_slash, He. }
  cbn [negb].
  rewrite splitChar_join; [|exact Hne|].
  - rewrite (normalizeSegments_plain true parts Hparts), Hhead. reflexivity.
  - eapply Forall_impl; [exact Hparts|]. intros part (_ & _ & _ & H). exact H.
Qed.

Lemma join_plain (parts : list string) :
  parts ≠ [] → Forall plainSegment parts → Path.join parts = Str.join "/" parts.
Proof.
  intros Hne Hparts. unfold Path.join.
  assert (List.filter Str.nonEmpty parts = parts) as ->.
  { apply filter_all, forallb_forall. intros part Hpart.
    rewrite Forall_forall in Hparts.
    destruct (Hparts part (proj2 (list_elem_of_In _ _) Hpart)) as (Hpne & _).
    destruct part; [contradiction | reflexivity]. }
  destruct parts as [|x rest]; [contradiction|].
  apply normalize_plain; assumption.
Qed.

End PathFacts.

(** ** [generator.ts]: identifiers and path slugs *)

Section IdentifierFacts.
Import Generator.

Let clean (c : ascii) : ascii :=
  if Str.isAlnum c || isUnderscore c then c else underscore.

Lemma clean_idChar (c : ascii) : isIdChar (clean c) = true.
Proof.
  unfold clean, isIdChar. destruct (Str.isAlnum c || isUnderscore c) eqn:H; [exact H | reflexivity].
Qed.

Lemma clean_fixed (c : ascii) : isIdChar c = true → clean c = c.
Proof. unfold clean, isIdChar. intros ->. reflexivity. Qed.

Lemma mapChars_fixed (f : ascii → ascii) (p : ascii → bool) (s : string) :
  (∀ c, p c = true → f c = c) → allChars p s = true → Str.mapChars f s = s.
Proof.
  intros Hf. induction s as [|c s IH]; simpl; [reflexivity|].
  intros H. apply andb_prop in H as [Hc Hs]. rewrite (Hf c Hc), (IH Hs). reflexivity.
Qed.

Lemma safeId_chars (id : string) : allChars isIdChar (safeId id) = true.
Proof.
  unfold safeId. fold clean.
  pose proof (allChars_mapChars isIdChar clean id clean_idChar) as Hclean.
  destruct (Str.mapChars clean id) as [|c rest]; [reflexivity|].
  destruct (Str.isDigit c); [|exact Hclean].
  rewrite allChars_append, Hclean. reflexivity.
Qed.

Lemma safeId_head (id : string) (c : ascii) (rest : string) :
  safeId id = String c rest → Str.isDigit c = false.
Proof.
  unfold safeId. fold clean.
  destruct (Str.mapChars clean id) as [|c0 rest0]; [discriminate|].
  destruct (Str.isDigit c0) eqn:Hdigit.
  - intros [= <- _]. reflexivity.
  - intros [= <- _]. exact Hdigit.
Qed.

(** An identifier that is already safe is left alone. *)
Lemma safeId_fixed (s : string) :
  allChars isIdChar s = true →
  (∀ c rest, s = String c rest → Str.isDigit c = false) →
  safeId s = s.
Proof.
  intros Hchars Hhead. unfold safeId. fold clean.
  rewrite (mapChars_fixed clean isIdChar s clean_fixed Hchars).
  destruct s as [|c rest]; [reflexivity|].
  rewrite (Hhead c rest eq_refl). reflexivity.
Qed.

End IdentifierFacts.

(** X18.  [safeId] always yields an identifier-safe string: every character
    of the result is a letter, a digit or an underscore, and the result never
    starts with a digit.  It is idempotent: cleaning a cleaned identifier
    changes nothing. *)
Theorem safeId_identifier (id : string) :
  allChars isIdChar (Generator.safeId id) = true
  ∧ (∀ c rest, Generator.safeId id = String c rest → Str.isDigit c = false)
  ∧ Generator.safeId (Generator.safeId id) = Generator.safeId id.
Proof.
  split; [apply safeId_chars|]. split; [apply safeId_head|].
  apply safeId_fixed; [apply safeId_chars | apply safeId_head].
Qed.

Section SlugFacts.
Import Generator.

Let hyphenOr (p : ascii → bool) (c : ascii) : bool := p c || (Str.code c =? 45)%nat.

Lemma capitalize_alnum (part : string) :
  allChars Str.isAlnum part = true → allChars Str.isAlnum (capitalize part) = true.
Proof.
  destruct part as [|c rest]; simpl; [reflexivity|].
  intros H. apply andb_prop in H as [Hc Hrest].
  rewrite (toUpperChar_alnum c Hc), Hrest. reflexivity.
Qed.

Lemma toPascalCase_alnum (value : string) :
  allChars Str.isAlnum (toPascalCase value) = true.
Proof.
  unfold toPascalCase. apply allChars_join; [reflexivity|].
  apply Forall_forall. intros part Hpart. apply list_elem_of_In in Hpart.
  apply in_map_iff in Hpart as (piece & <- & Hpiece).
  apply filter_In in Hpiece as [Hpiece _].
  apply capitalize_alnum.
  pose proof (allChars_splitRunsFrom isIdChar (fun c => isUnderscore c || Str.isSpace c)
                (safeId value) (safeId_chars value) false) as Hpieces.
  rewrite Forall_forall in Hpieces.
  specialize (Hpieces piece (proj2 (list_elem_of_In _ _) Hpiece)).
  revert Hpieces. apply allChars_impl. intros c. apply idChar_alnum.
Qed.

Lemma hyphenate_step (a b : ascii) (rest : string) :
  hyphenate (String a (String b rest))
  = if (Str.isLower a || Str.isDigit a) && Str.isUpper b
    then String a (String (ascii_of_nat 45) (String b (hyphenate rest)))
    else String a (hyphenate (String b rest)).
Proof. reflexivity. Qed.

Lemma hyphenate_chars (p : ascii → bool) (s : string) :
  p (ascii_of_nat 45) = true → allChars p s = true → allChars p (hyphenate s) = true.
Proof.
  intros Hhyphen.
  assert (∀ n s, (String.length s ≤ n)%nat →
                 allChars p s = true → allChars p (hyphenate s) = true) as Hall.
  { clear s. induction n as [|n IH]; intros s Hlen Hs.
    - destruct s; [reflexivity | simpl in Hlen; lia].
    - destruct s as [|a [|b rest]]; [reflexivity | exact Hs |].
      rewrite hyphenate_step.
      cbn [allChars String.length] in Hs, Hlen.
      apply andb_prop in Hs as [Ha Hs].
      assert (allChars p (String b rest) = true) as Htail by exact Hs.
      apply andb_prop in Hs as [Hb Hrest].
      destruct ((Str.isLower a || Str.isDigit a) && Str.isUpper b).
      + assert (allChars p (hyphenate rest) = true) as Hrec by (apply IH; [lia | exact Hrest]).
        cbn [allChars]. rewrite Ha, Hhyphen, Hb, Hrec. reflexivity.
      + assert (allChars p (hyphenate (String b rest)) = true) as Hrec
          by (apply IH; [cbn [String.length]; lia | exact Htail]).
        change (allChars p (String a (hyphenate (String b rest))))
          with (p a && allChars p (hyphenate (String b rest))).
        rewrite Ha, Hrec. reflexivity. }
  apply (Hall (String.length s)). lia.
Qed.

Lemma toKebabCase_slug (value : string) :
  allChars isSlugChar (toKebabCase value) = true.
Proof.
  unfold toKebabCase, Str.toLowerCase.
  apply (allChars_mapChars_from (hyphenOr Str.isAlnum)); [exact toLowerChar_slug|].
  apply allChars_replaceRunsFrom; [reflexivity|].
  apply hyphenate_chars; [reflexivity|].
  pose proof (toPascalCase_alnum value) as H. revert H.
  apply allChars_impl. intros c Hc. unfold hyphenOr. rewrite Hc. reflexivity.
Qed.

Lemma numbered_slug (prefix : string) (n : nat) :
  isSlug prefix → isSlug (prefix +:+ natToString n).
Proof.
  intros [Hne Hchars]. split.
  - destruct prefix; [congruence | discriminate].
  - rewrite allChars_append, Hchars.
    destruct (natToString_digits n) as [_ Hdigits]. revert Hdigits.
    apply allChars_impl. intros c Hc. unfold isSlugChar. rewrite Hc, orb_true_r. reflexivity.
Qed.

Lemma nonEmpty_slug (s : string) :
  Str.nonEmpty s = true → allChars isSlugChar s = true → isSlug s.
Proof. intros Hne Hchars. split; [destruct s; [discriminate | discriminate] | exact Hchars]. Qed.

Lemma normalizePathSegment_slug (segment : string) (index : nat) :
  isSlug (normalizePathSegment segment index).
Proof.
  assert (isSlug (partName index)) as Hpart.
  { apply numbered_slug. split; [discriminate | reflexivity]. }
  unfold normalizePathSegment. cbv zeta.
  match goal with |- context [Str.isEmpty ?u] => destruct (Str.isEmpty u) end;
    [exact Hpart|].
  match goal with
  | |- context [if Str.nonEmpty ?cleaned then toKebabCase ?cleaned else ""] =>
      destruct (Str.nonEmpty cleaned)
  end.
  - match goal with
    | |- context [Str.nonEmpty (toKebabCase ?x)] =>
        destruct (Str.nonEmpty (toKebabCase x)) eqn:Hkebab
    end; [|exact Hpart].
    apply nonEmpty_slug; [exact Hkebab | apply toKebabCase_slug].
  - exact Hpart.
Qed.

Lemma mapi_Forall {A B} (P : B → Prop) (f : A → nat → B) (l : list A) :
  (∀ x i, P (f x i)) → ∀ i, Forall P (mapi f i l).
Proof.
  intros Hf. induction l as [|x xs IH]; intros i; simpl; constructor; [apply Hf | apply IH].
Qed.

Lemma extractPathSegments_slugs (pathValue fallbackBase : string) (fallbackIndex : nat) :
  extractPathSegments pathValue fallbackBase fallbackIndex ≠ []
  ∧ Forall isSlug (extractPathSegments pathValue fallbackBase fallbackIndex).
Proof.
  unfold extractPathSegments.
  match goal with
  | |- context [mapi normalizePathSegment 0 ?raw] =>
      pose proof (mapi_Forall isSlug normalizePathSegment raw normalizePathSegment_slug 0)
        as Hnormalized;
      destruct (mapi normalizePathSegment 0 raw) as [|first rest]
  end.
  - split; [discriminate|]. constructor; [|constructor].
    destruct (Str.nonEmpty (toKebabCase fallbackBase)) eqn:Hkebab.
    + apply nonEmpty_slug; [exact Hkebab | apply toKebabCase_slug].
    + apply numbered_slug. split; [discriminate | reflexivity].
  - split; [discriminate | exact Hnormalized].
Qed.

End SlugFacts.

(** X19.  The path segments computed for an endpoint are never empty and
    are all slugs: for every path, fallback name and index,
    [extractPathSegments] returns at least one segment, and each segment is a
    non-empty string of lower-case letters, digits and hyphens, whatever
    characters the path contains. *)
Theorem extractPathSegments_slug_segments
    (pathValue fallbackBase : string) (fallbackIndex : nat) :
  Generator.extractPathSegments pathValue fallbackBase fallbackIndex ≠ []
  ∧ Forall isSlug (Generator.extractPathSegments pathValue fallbackBase fallbackIndex).
Proof. apply extractPathSegments_slugs. Qed.

(** ** File names of the bundle *)

Section FilenameFacts.
Import Types Generator.

Lemma slug_plain (s : string) : isSlug s → plainSegment s.
Proof.
  intros [Hne Hchars]. repeat split.
  - exact Hne.
  - intros ->. discriminate.
  - intros ->. discriminate.
  - unfold noSlash. revert Hchars. apply allChars_impl.
    intros c Hc. destruct (slugChar_plain c Hc) as [-> _]. reflexivity.
Qed.

Lemma slug_file (s : string) : isSlug s → plainSegment (s +:+ ".ts").
Proof.
  intros [Hne Hchars]. destruct s as [|c s]; [contradiction|].
  simpl in Hchars. apply andb_prop in Hchars as [Hc Hs].
  destruct (slugChar_plain c Hc) as [Hslash Hdot].
  assert (c ≠ "."%char) as Hc' by (intros ->; discriminate).
  repeat split.
  - discriminate.
  - simpl. intros [= ? _]. contradiction.
  - simpl. intros [= ? _]. contradiction.
  - unfold noSlash. rewrite allChars_append. cbn [allChars]. rewrite Hslash. cbn [negb andb].
    apply andb_true_intro. split; [|reflexivity]. revert Hs. apply allChars_impl.
    intros d Hd. destruct (slugChar_plain d Hd) as [-> _]. reflexivity.
Qed.

Lemma method_slug (m : HttpMethod) : isSlug (Str.toLowerCase (methodName m)).
Proof. destruct m; split; (discriminate || reflexivity). Qed.

Lemma suffixed_slug (base suffix : string) :
  isSlug base → isSlug suffix → isSlug (base +:+ "-" +:+ suffix).
Proof.
  intros [Hne Hbase] [_ Hsuffix]. split.
  - destruct base; [contradiction | discriminate].
  - rewrite !allChars_append, Hbase, Hsuffix. reflexivity.
Qed.

Lemma last_Forall {A} (P : A → Prop) (l : list A) (d : A) :
  l ≠ [] → Forall P l → P (List.last l d).
Proof.
  intros Hne Hl. induction Hl as [|x rest Hx Hrest IH]; [contradiction|].
  destruct rest as [|y rest]; [exact Hx|]. apply IH. discriminate.
Qed.

Lemma removelast_Forall {A} (P : A → Prop) (l : list A) :
  Forall P l → Forall P (removelast l).
Proof.
  intros Hl. induction Hl as [|x rest Hx Hrest IH]; [constructor|].
  destruct rest as [|y rest]; [constructor|]. simpl. constructor; [exact Hx | exact IH].
Qed.

(** The directory part and the base name the generator derives from an
    endpoint's segments. *)
Lemma dirSegments_slugs (segments : list string) :
  segments ≠ [] → Forall isSlug segments →
  let dirSegments := if (1 <? length segments)%nat then removelast segments else segments in
  dirSegments ≠ [] ∧ Forall isSlug dirSegments.
Proof.
  intros Hne Hslugs. cbv zeta.
  destruct segments as [|a [|b rest]]; [contradiction| |].
  - split; [discriminate | exact Hslugs].
  - split; [discriminate|]. apply (removelast_Forall isSlug (a :: b :: rest)), Hslugs.
Qed.

Lemma fileBase_slug (counts : gmap string nat) (info : EndpointInfo) :
  info_segments info ≠ [] → Forall isSlug (info_segments info) →
  isSlug (if (1 <? default 0 (counts !! pathKey info))%nat
          then List.last (info_segments info) "endpoint" +:+ "-"
                 +:+ Str.toLowerCase (methodName (ep_method (info_endpoint info)))
          else List.last (info_segments info) "endpoint").
Proof.
  intros Hne Hslugs.
  pose proof (last_Forall isSlug _ "endpoint" Hne Hslugs) as Hlast.
  destruct (1 <? _)%nat; [|exact Hlast].
  apply suffixed_slug; [exact Hlast | apply method_slug].
Qed.

Lemma endpointFilename_joined (counts : gmap string nat) (info : EndpointInfo) :
  info_segments info ≠ [] → Forall isSlug (info_segments info) →
  endpointFilename counts info
  = Str.join "/"
      ((if (1 <? length (info_segments info))%nat
        then removelast (info_segments info) else info_segments info)
       ++ [(if (1 <? default 0 (counts !! pathKey info))%nat
            then List.last (info_segments info) "endpoint" +:+ "-"
                   +:+ Str.toLowerCase (methodName (ep_method (info_endpoint info)))
            else List.last (info_segments info) "endpoint") +:+ ".ts"]).
Proof.
  intros Hne Hslugs. unfold endpointFilename. cbv zeta.
  destruct (dirSegments_slugs _ Hne Hslugs) as [Hdirs Hdirslugs].
  pose proof (fileBase_slug counts info Hne Hslugs) as Hbase.
  destruct (if (1 <? length (info_segments info))%nat
            then removelast (info_segments info) else info_segments info)
    as [|dir dirs] eqn:Hdir; [contradiction|].
  apply join_plain; [destruct dirs; discriminate|].
  apply Forall_app. split.
  - eapply Forall_impl; [exact Hdirslugs|]. exact slug_plain.
  - constructor; [|constructor]. apply slug_file, Hbase.
Qed.

Lemma endpointInfos_slugs (service : ServiceDefinition) (info : EndpointInfo) :
  In info (endpointInfos service) →
  info_segments info ≠ [] ∧ Forall isSlug (info_segments info).
Proof.
  unfold endpointInfos. generalize 0%nat as i.
  induction (svc_endpoints service) as [|endpoint rest IH]; intros i; simpl; [intros []|].
  intros [<- | Hin]; [apply extractPathSegments_slugs | exact (IH _ Hin)].
Qed.

Lemma prefix_slash_head (rest : string) : String.prefix "/" (String Path.slash rest) = true.
Proof. destruct rest; reflexivity. Qed.

(** Every endpoint file lives in a directory: its name has a separator. *)
Lemma endpointFilename_slash (counts : gmap string nat) (info : EndpointInfo) :
  info_segments info ≠ [] → Forall isSlug (info_segments info) →
  Str.includes (endpointFilename counts info) "/" = true.
Proof.
  intros Hne Hslugs. rewrite (endpointFilename_joined counts info Hne Hslugs).
  destruct (dirSegments_slugs _ Hne Hslugs) as [Hdirs _]. cbv zeta in Hdirs.
  destruct (if (1 <? length (info_segments info))%nat
            then removelast (info_segments info) else info_segments info)
    as [|dir dirs]; [contradiction|].
  destruct dirs as [|next dirs]; cbn [app]; rewrite join_cons;
    apply includes_append_l, includes_prefix, prefix_slash_head.
Qed.

Lemma endpointFiles_filenames (service : ServiceDefinition) :
  List.map filename (endpointFiles service)
  = List.map (endpointFilename (pathUsageCounts (endpointInfos service)))
      (endpointInfos service).
Proof. unfold endpointFiles. rewrite map_map. reflexivity. Qed.

Lemma endpointFiles_slash (service : ServiceDefinition) (file : GeneratedFile) :
  In file (endpointFiles service) → Str.includes (filename file) "/" = true.
Proof.
  intros Hin. apply (in_map filename) in Hin. rewrite endpointFiles_filenames in Hin.
  apply in_map_iff in Hin as (info & <- & Hinfo).
  destruct (endpointInfos_slugs service info Hinfo) as [Hne Hslugs].
  apply endpointFilename_slash; assumption.
Qed.

Lemma bundle_files (service : ServiceDefinition) (options : option CodegenOptions) :
  ∃ entryContent,
    files (generateClientSource service options)
    = {| filename := entrypoint (generateClientSource service options);
         content := entryContent |}
      :: renderTransportFile
      :: match renderTypesFile service with Some typesFile => [typesFile] | None => [] end
         ++ endpointFiles service.
Proof.
  unfold generateClientSource. cbv zeta. cbn [files entrypoint filename].
  destruct (renderTypesFile service); eexists; reflexivity.
Qed.

Lemma renderTypesFile_filename (service : ServiceDefinition) (typesFile : GeneratedFile) :
  renderTypesFile service = Some typesFile → filename typesFile = "types.ts".
Proof.
  unfold renderTypesFile. destruct (default [] (svc_types service)); [discriminate|].
  intros [= <-]. reflexivity.
Qed.

Lemma filter_nobody {A} (p : A → bool) (l : list A) :
  (∀ x, In x l → p x = false) → List.filter p l = [].
Proof.
  induction l as [|x xs IH]; intros Hnone; simpl; [reflexivity|].
  rewrite (Hnone x (or_introl eq_refl)). apply IH. intros y Hy. apply Hnone. right. exact Hy.
Qed.

End FilenameFacts.

(** X20.  Under options whose entry file name has no path separator and is
    neither [transport.ts] nor [types.ts] (the default options among them),
    the bundle's [entrypoint] names exactly one of its files: no endpoint
    file can take the entry file's name, because every endpoint file is
    placed in a directory. *)
Theorem generateClientSource_entrypoint_unique
    (service : Types.ServiceDefinition) (options : option Generator.CodegenOptions) :
  let bundle := Generator.generateClientSource service options in
  Str.includes (Generator.entrypoint bundle) "/" = false →
  Generator.entrypoint bundle ≠ "transport.ts" →
  Generator.entrypoint bundle ≠ "types.ts" →
  length (List.filter
            (fun file => String.eqb (Generator.filename file) (Generator.entrypoint bundle))
            (Generator.files bundle)) = 1%nat.
Proof.
  intros bundle Hslash Htransport Htypes.
  assert (List.filter
            (fun file => String.eqb (Generator.filename file) (Generator.entrypoint bundle))
            (Generator.endpointFiles service) = []) as Hendpoints.
  { apply filter_nobody. intros file Hfile.
    apply String.eqb_neq. intros Heq.
    pose proof (endpointFiles_slash service file Hfile) as Hfileslash.
    rewrite Heq in Hfileslash. congruence. }
  apply String.eqb_neq in Htransport, Htypes.
  rewrite String.eqb_sym in Htransport. rewrite String.eqb_sym in Htypes.
  destruct (bundle_files service options) as [entryContent Hfiles].
  fold bundle in Hfiles. rewrite Hfiles.
  generalize dependent (Generator.entrypoint bundle). intros entry _ Htransport Htypes Hendpoints.
  cbn [List.filter Generator.filename]. rewrite String.eqb_refl.
  change (Generator.filename Generator.renderTransportFile) with "transport.ts".
  rewrite Htransport.
  destruct (Generator.renderTypesFile service) as [typesFile|] eqn:Htypesfile.
  - cbn [app List.filter]. rewrite (renderTypesFile_filename service typesFile Htypesfile).
    rewrite Htypes, Hendpoints. reflexivity.
  - cbn [app]. rewrite Hendpoints. reflexivity.
Qed.

Lemma generateClientSource_entrypoint_unique_witness :
  length (List.filter
            (fun file => String.eqb (Generator.filename file) "index.ts")
            (Generator.files (Generator.generateClientSource userService None))) = 1%nat.
Proof.
  apply (generateClientSource_entrypoint_unique userService None);
    [reflexivity | discriminate | discriminate].
Defined.

(** ** Endpoints that share their path segments *)

Section CollisionFacts.
Import Types Generator.

Let sameKey (key : string) (info : EndpointInfo) : bool := String.eqb (pathKey info) key.

Lemma pathUsageCounts_counts (key : string) (infos : list EndpointInfo) :
  ∀ counts : gmap string nat,
    default 0%nat
      (fold_left (fun (counts : gmap string nat) info =>
                    <[pathKey info := (default 0 (counts !! pathKey info) + 1)%nat]> counts)
         infos counts !! key)
    = (default 0 (counts !! key) + length (List.filter (sameKey key) infos))%nat.
Proof.
  induction infos as [|info rest IH]; intros counts; simpl; [lia|].
  rewrite IH. unfold sameKey at 2.
  destruct (String.eqb_spec (pathKey info) key) as [<-|Hne].
  - rewrite lookup_insert_eq. simpl. lia.
  - rewrite lookup_insert_ne; [lia | exact Hne].
Qed.

Lemma filter_one {A} (p : A → bool) (l : list A) (x : A) :
  In x l → p x = true → (1 ≤ length (List.filter p l))%nat.
Proof.
  induction l as [|y ys IH]; intros Hin Hx; [destruct Hin|]. simpl.
  destruct Hin as [->|Hin]; [rewrite Hx; simpl; lia|].
  specialize (IH Hin Hx). destruct (p y); simpl; lia.
Qed.

Lemma lookup_In {A} (l : list A) (i : nat) (x : A) : l !! i = Some x → In x l.
Proof. intros H. apply list_elem_of_In. exact (list_elem_of_lookup_2 l i x H). Qed.

Lemma filter_two {A} (p : A → bool) (l : list A) (i j : nat) (a b : A) :
  l !! i = Some a → l !! j = Some b → i ≠ j → p a = true → p b = true →
  (2 ≤ length (List.filter p l))%nat.
Proof.
  revert i j. induction l as [|x xs IH]; intros i j Hi Hj Hij Ha Hb; [discriminate|].
  destruct i as [|i], j as [|j]; [contradiction| | |].
  - injection Hi as ->. simpl. rewrite Ha. simpl.
    pose proof (filter_one p xs b (lookup_In xs j b Hj) Hb). lia.
  - injection Hj as ->. simpl. rewrite Hb. simpl.
    pose proof (filter_one p xs a (lookup_In xs i a Hi) Ha). lia.
  - simpl in Hi, Hj. assert (i ≠ j) as Hij' by congruence.
    specialize (IH i j Hi Hj Hij' Ha Hb). simpl. destruct (p x); simpl; lia.
Qed.

Lemma mapi_lookup {A B} (f : A → nat → B) (l : list A) (i : nat) (x : A) :
  ∀ k, l !! i = Some x → mapi f k l !! i = Some (f x (k + i)%nat).
Proof.
  revert i. induction l as [|y ys IH]; intros i k Hi; [discriminate|].
  destruct i as [|i]; simpl in *.
  - injection Hi as ->. rewrite Nat.add_0_r. reflexivity.
  - rewrite (IH i (S k) Hi). f_equal. f_equal. lia.
Qed.

Lemma map_lookup {A B} (f : A → B) (l : list A) (i : nat) (x : A) :
  l !! i = Some x → List.map f l !! i = Some (f x).
Proof.
  revert i. induction l as [|y ys IH]; intros i Hi; [discriminate|].
  destruct i as [|i]; simpl in *; [injection Hi as ->; reflexivity | apply IH, Hi].
Qed.

Lemma join_snoc (dirs : list string) (x : string) :
  dirs ≠ [] → Str.join "/" (dirs ++ [x]) = Str.join "/" dirs +:+ "/" +:+ x.
Proof.
  intros Hne. induction dirs as [|d rest IH]; [contradiction|].
  destruct rest as [|next rest]; [reflexivity|].
  change ((d :: next :: rest) ++ [x]) with (d :: (next :: rest) ++ [x]).
  cbn [app]. rewrite !join_cons. cbn [app] in IH. rewrite IH; [|discriminate].
  change (String Path.slash ?s) with ("/" +:+ s).
  rewrite !append_assoc. reflexivity.
Qed.

Lemma method_suffix_injective (m1 m2 : HttpMethod) :
  Str.toLowerCase (methodName m1) +:+ ".ts" = Str.toLowerCase (methodName m2) +:+ ".ts" →
  m1 = m2.
Proof. destruct m1, m2; intros H; try reflexivity; discriminate H. Qed.

End CollisionFacts.

(** X21.  The path-collision rule in general: when two endpoints of a
    service normalize to the same path segments, both file names get the
    lower-cased HTTP method appended to the same stem
    ([<stem>-<method>.ts]), so two such endpoints with different methods
    never share a file name. *)
Theorem generateClientSource_same_segments
    (service : Types.ServiceDefinition) (i j : nat)
    (e1 e2 : Types.EndpointDefinition) (f1 f2 : Generator.GeneratedFile) :
  Types.svc_endpoints service !! i = Some e1 →
  Types.svc_endpoints service !! j = Some e2 →
  Generator.endpointFiles service !! i = Some f1 →
  Generator.endpointFiles service !! j = Some f2 →
  Generator.extractPathSegments (Types.ep_path e1)
    (Types.orString (Types.ep_name e1) (Types.ep_id e1)) i
  = Generator.extractPathSegments (Types.ep_path e2)
      (Types.orString (Types.ep_name e2) (Types.ep_id e2)) j →
  Types.ep_method e1 ≠ Types.ep_method e2 →
  (∃ stem,
     Generator.filename f1
     = stem +:+ "-" +:+ Str.toLowerCase (Types.methodName (Types.ep_method e1)) +:+ ".ts"
     ∧ Generator.filename f2
       = stem +:+ "-" +:+ Str.toLowerCase (Types.methodName (Types.ep_method e2)) +:+ ".ts")
  ∧ Generator.filename f1 ≠ Generator.filename f2.
Proof.
  intros He1 He2 Hf1 Hf2 Hsegments Hmethods.
  assert (i ≠ j) as Hij by (intros ->; congruence).
  set (segments := Generator.extractPathSegments (Types.ep_path e1)
                     (Types.orString (Types.ep_name e1) (Types.ep_id e1)) i) in *.
  set (info1 := {| Generator.info_endpoint := e1; Generator.info_segments := segments |}).
  set (info2 := {| Generator.info_endpoint := e2; Generator.info_segments := segments |}).
  assert (Generator.endpointInfos service !! i = Some info1) as Hinfo1.
  { unfold Generator.endpointInfos. rewrite (mapi_lookup _ _ i e1 0 He1). reflexivity. }
  assert (Generator.endpointInfos service !! j = Some info2) as Hinfo2.
  { unfold Generator.endpointInfos. rewrite (mapi_lookup _ _ j e2 0 He2).
    cbn [Nat.add]. rewrite <- Hsegments. reflexivity. }
  destruct (extractPathSegments_slugs (Types.ep_path e1)
              (Types.orString (Types.ep_name e1) (Types.ep_id e1)) i) as [Hne Hslugs].
  fold segments in Hne, Hslugs.
  set (counts := Generator.pathUsageCounts (Generator.endpointInfos service)).
  assert ((1 <? default 0 (counts !! Str.join "/" segments))%nat = true) as Hmany.
  { apply Nat.ltb_lt. subst counts. unfold Generator.pathUsageCounts.
    rewrite pathUsageCounts_counts.
    pose proof (filter_two (fun info => String.eqb (Generator.pathKey info) (Str.join "/" segments))
                  _ i j info1 info2 Hinfo1 Hinfo2 Hij
                  (String.eqb_refl _) (String.eqb_refl _)).
    lia. }
  assert (∀ e f k,
            Generator.endpointFiles service !! k = Some f →
            Generator.endpointInfos service !! k
            = Some {| Generator.info_endpoint := e; Generator.info_segments := segments |} →
            Generator.filename f
            = (Str.join "/" (if (1 <? length segments)%nat then removelast segments else segments)
               +:+ "/" +:+ List.last segments "endpoint")
              +:+ "-" +:+ Str.toLowerCase (Types.methodName (Types.ep_method e)) +:+ ".ts")
    as Hname.
  { intros e f k Hf Hinfo. unfold Generator.endpointFiles in Hf.
    rewrite (map_lookup _ _ k _ Hinfo) in Hf. injection Hf as <-.
    cbn [Generator.filename Generator.renderEndpointFile]. fold counts.
    rewrite (endpointFilename_joined counts
               {| Generator.info_endpoint := e; Generator.info_segments := segments |}
               Hne Hslugs).
    cbn [Generator.info_segments Generator.info_endpoint].
    unfold Generator.pathKey at 1. cbn [Generator.info_segments]. rewrite Hmany.
    rewrite join_snoc; [|apply (dirSegments_slugs segments Hne Hslugs)].
    rewrite !append_assoc. reflexivity. }
  pose proof (Hname e1 f1 i Hf1 Hinfo1) as Hname1.
  pose proof (Hname e2 f2 j Hf2 Hinfo2) as Hname2.
  split.
  - eexists. split; [exact Hname1 | exact Hname2].
  - rewrite Hname1, Hname2. intros Heq.
    apply append_cancel, append_cancel in Heq.
    apply Hmethods, method_suffix_injective, Heq.
Qed.

Lemma generateClientSource_same_segments_witness :
  (∃ stem,
     "widgets/id-get.ts" = stem +:+ "-" +:+ Str.toLowerCase "GET" +:+ ".ts"
     ∧ "widgets/id-delete.ts" = stem +:+ "-" +:+ Str.toLowerCase "DELETE" +:+ ".ts")
  ∧ "widgets/id-get.ts" ≠ "widgets/id-delete.ts".
Proof.
  apply (generateClientSource_same_segments widgetsService 0 1
           (plainEndpoint "getWidget" "/widgets/{id}" Types.GET)
           (plainEndpoint "deleteWidget" "/widgets/{id}" Types.DELETE)
           (Generator.renderEndpointFile (plainEndpoint "getWidget" "/widgets/{id}" Types.GET)
              "widgets/id-get.ts" "../transport")
           (Generator.renderEndpointFile (plainEndpoint "deleteWidget" "/widgets/{id}" Types.DELETE)
              "widgets/id-delete.ts" "../transport"));
    try reflexivity.
  discriminate.
Defined.
